(** * MSF60 time-signal decoder (MSF60decode.c): model and properties

    The decoder of [src/MSF60decode/MSF60decode.c] is embedded as Rocq
    functions over an explicit decoder state.  Machine integers are [Z]
    with their wrap-around written out, the two bit arrays are lists of
    bytes, and an access outside an array is a fault ([None]): C gives
    no meaning to the rest of the run.  The ring buffers between the
    program and its UARTs ([src/decoder-test/console.c],
    [src/MSF60decode/hardware.c]) and the formatter of the debug log
    ([Debug_vprintf]) are embedded the same way. *)

From Stdlib Require Import ZArith Lia Bool.
From stdpp Require Import base option list gmap.

Local Open Scope Z_scope.

(** ** Machine integers *)

(** [uint32_t] and [unsigned] arithmetic is modulo 2^32, [uint8_t] modulo 2^8. *)
Definition u32 (z : Z) : Z := z mod 2 ^ 32.
Definition u8 (z : Z) : Z := z mod 2 ^ 8.

Definition INT_MIN : Z := - 2 ^ 31.

(** Conversion of a 32-bit pattern to [int] (two's complement). *)
Definition to_int (z : Z) : Z :=
  let u := u32 z in if u <? 2 ^ 31 then u else u - 2 ^ 32.

(** [abs] of <stdlib.h>: the absolute value of an [int].  [INT_MIN] is the
    one [int] whose absolute value is not an [int], and C leaves
    [abs(INT_MIN)] undefined.  The program calls [abs] only in the tests
    [abs(x) < PULSE_MARGIN] of [GetWidth], which gcc compiles to the range
    test [-PULSE_MARGIN < x < PULSE_MARGIN]; at [INT_MIN] that test fails,
    as it does with the absolute value 2^31 taken here. *)
Definition c_abs (x : Z) : Z := Z.abs x.

(** ** Pulse widths *)

Definition PULSE_MARGIN : Z := 30.
Definition CARRIER_ON : Z := 0.
Definition CARRIER_OFF : Z := 1.

Inductive eWidth : Set :=
| eWidth_100 | eWidth_200 | eWidth_300 | eWidth_500
| eWidth_700 | eWidth_800 | eWidth_900 | eWidth_INVALID.

Global Instance eWidth_eq_dec : EqDecision eWidth.
Proof. solve_decision. Defined.

(** The enumerators' values in the source. *)
Definition eWidth_val (e : eWidth) : Z :=
  match e with
  | eWidth_100 => 1 | eWidth_200 => 2 | eWidth_300 => 3 | eWidth_500 => 5
  | eWidth_700 => 7 | eWidth_800 => 8 | eWidth_900 => 9 | eWidth_INVALID => 0
  end.

(** [abs(width-n) < PULSE_MARGIN]: the difference is computed in [uint32_t]
    and converted to [int] when passed to [abs]. *)
Definition near (width n : Z) : bool :=
  c_abs (to_int (u32 (width - n))) <? PULSE_MARGIN.

Definition GetWidth (width : Z) : eWidth :=
  if near width 100 then eWidth_100
  else if near width 200 then eWidth_200
  else if near width 300 then eWidth_300
  else if near width 500 then eWidth_500
  else if near width 700 then eWidth_700
  else if near width 800 then eWidth_800
  else if near width 900 then eWidth_900
  else eWidth_INVALID.


(** ** Bit arrays *)

(** [A_bits] and [B_bits] are [uint8_t[8]]: a list of eight bytes. *)
Abbreviation bitarray := (list Z).

Definition bit_mask (bitnum : Z) : Z := u8 (Z.shiftl 1 (Z.land bitnum 7)).

Definition setBit (a : bitarray) (bitnum : Z) (bSet : bool) : option bitarray :=
  let mask := bit_mask bitnum in
  let i := Z.to_nat (Z.shiftr bitnum 3) in
  byte ← a !! i;
  Some (<[ i := if bSet then u8 (Z.lor byte mask)
                else u8 (Z.land byte (Z.lnot mask)) ]> a).

Definition getBit (a : bitarray) (bitnum : Z) : option bool :=
  let mask := bit_mask bitnum in
  byte ← a !! Z.to_nat (Z.shiftr bitnum 3);
  Some (negb (Z.land byte mask =? 0)).

(** ** BCD extraction *)

Definition BCD : list Z := [1; 2; 4; 8; 10; 20; 40; 80].

(** The [for] loop of [ExtractBCD]; [bit], [digit] and [result] are
    [uint8_t].  The table entry is read only when the bit is set. *)
Fixpoint ExtractBCD_loop (fuel : nat) (a : bitarray) (msbit bit digit result : Z)
  : option Z :=
  match fuel with
  | O => None
  | S fuel =>
      if msbit <=? bit then
        b ← getBit a bit;
        result ← (if b : bool
                  then w ← BCD !! Z.to_nat digit; Some (u8 (result + w))
                  else Some result);
        ExtractBCD_loop fuel a msbit (u8 (bit - 1)) (u8 (digit + 1)) result
      else Some result
  end.

(** A [uint8_t] counter takes at most 256 values before it repeats, and
    the loop faults as soon as it reads past bit 63. *)
Definition loop_fuel : nat := 257.

Definition ExtractBCD (a : bitarray) (msbit lsbit : Z) : option Z :=
  ExtractBCD_loop loop_fuel a msbit lsbit 0 0.

(** ** Parity and frame validation *)

(** The counting loop of [CheckOddParity]; [bitnum] and [numset] are [unsigned]. *)
Fixpoint CheckOddParity_loop (fuel : nat) (a : bitarray) (bitnum to numset : Z)
  : option Z :=
  match fuel with
  | O => None
  | S fuel =>
      if bitnum <=? to then
        b ← getBit a bitnum;
        CheckOddParity_loop fuel a (u32 (bitnum + 1)) to
          (if b : bool then u32 (numset + 1) else numset)
      else Some numset
  end.

Definition CheckOddParity (a : bitarray) (from to : Z) (parity : bool) : option bool :=
  numset ← CheckOddParity_loop loop_fuel a (u32 from) (u32 to) 0;
  let numset := if parity then u32 (numset + 1) else numset in
  Some (negb (Z.land numset 1 =? 0)).

(** The diagnostics [ValidateBCD] logs ([LOG_BCD_ERROR]) before it returns
    [false]; each names the rule that failed. *)
Inductive bcd_error : Set :=
| A52_not_zero
| A_not_set (bitnum : Z)
| A59_not_zero
| Parity_A17_A24_B54
| Parity_A25_A35_B55
| Parity_A36_A38_B56
| Parity_A39_A51_B57.

(** The loop over A53..A58: the first clear bit, if any. *)
Fixpoint ValidateBCD_ones (fuel : nat) (A : bitarray) (bitnum : Z) : option (option Z) :=
  match fuel with
  | O => None
  | S fuel =>
      if bitnum <=? 58 then
        b ← getBit A bitnum;
        if b : bool then ValidateBCD_ones fuel A (u32 (bitnum + 1))
        else Some (Some bitnum)
      else Some None
  end.

(** [ValidateBCD] with the message it logs: [inl e] is a [return false]
    after message [e], [inr tt] is [return true]. *)
Definition ValidateBCD_log (A B : bitarray) : option (bcd_error + unit) :=
  a52 ← getBit A 52;
  if a52 : bool then Some (inl A52_not_zero) else
  ones ← ValidateBCD_ones loop_fuel A 53;
  match ones with
  | Some bitnum => Some (inl (A_not_set bitnum))
  | None =>
      a59 ← getBit A 59;
      if a59 : bool then Some (inl A59_not_zero) else
      b54 ← getBit B 54;
      p1 ← CheckOddParity A 17 24 b54;
      if negb p1 then Some (inl Parity_A17_A24_B54) else
      b55 ← getBit B 55;
      p2 ← CheckOddParity A 25 35 b55;
      if negb p2 then Some (inl Parity_A25_A35_B55) else
      b56 ← getBit B 56;
      p3 ← CheckOddParity A 36 38 b56;
      if negb p3 then Some (inl Parity_A36_A38_B56) else
      b57 ← getBit B 57;
      p4 ← CheckOddParity A 39 51 b57;
      if negb p4 then Some (inl Parity_A39_A51_B57) else
      Some (inr tt)
  end.

Definition ValidateBCD (A B : bitarray) : option bool :=
  r ← ValidateBCD_log A B;
  Some (match r with inl _ => false | inr _ => true end).

(** ** The decoder state *)

(** [sMSFDateTime] of MSF60decode.h. *)
Record sMSFDateTime : Set := {
  bHasValidTime : bool;
  bDateTimeUpdated : bool;
  Year : Z;
  Month : Z;
  Day : Z;
  Hour : Z;
  Minute : Z;
  DOW : Z;
  DST : Z
}.

(** What [memset(p, 0, sizeof(sMSFDateTime))] leaves in the structure. *)
Definition sMSFDateTime_zero : sMSFDateTime :=
  {| bHasValidTime := false; bDateTimeUpdated := false;
     Year := 0; Month := 0; Day := 0; Hour := 0; Minute := 0; DOW := 0; DST := 0 |}.

Inductive eMSFEventType : Set :=
| MSF_EVENT_SYNC | MSF_EVENT_SYNC_LOST | MSF_EVENT_DATETIME_UPDATED.

Definition eMSFEventType_val (ev : eMSFEventType) : Z :=
  match ev with
  | MSF_EVENT_SYNC => 1
  | MSF_EVENT_SYNC_LOST => 2
  | MSF_EVENT_DATETIME_UPDATED => 4
  end.

(** Addresses of client structures and of client callbacks; [None] is [NULL]. *)
Abbreviation ptr := positive.
Abbreviation fnptr := positive.

(** The file-level statics of MSF60decode.c, the function-level statics of
    [HandleCarrierEvent], and the two things outside the decoder it acts
    on: the client's memory ([client_mem], written through
    [pClientDateTime]) and the calls made to the client's callback
    ([delivered], newest first). *)
Record decoder : Type := Build_decoder {
  bSyncedFlag : bool;
  A_bits : bitarray;
  B_bits : bitarray;
  LocalDateTime : sMSFDateTime;
  pClientDateTime : option ptr;
  pfClientEventCallback : option fnptr;
  ui32ClientEventMask : Z;
  T_LastOnStart : Z;
  T_LastOffStart : Z;
  eLastOnWidth : eWidth;
  eLastOffWidth : eWidth;
  T_CellStart : Z;
  nBitNum : Z;
  bHalfSync : bool;
  bResyncNeeded : bool;
  client_mem : gmap ptr sMSFDateTime;
  delivered : list (fnptr * eMSFEventType)
}.

Definition set_bSyncedFlag (v : bool) (st : decoder) : decoder :=
  let 'Build_decoder sf a b dt pc cb m ton toff won woff tc n hs rn cm ev := st in
  Build_decoder v a b dt pc cb m ton toff won woff tc n hs rn cm ev.

Definition set_A_bits (v : bitarray) (st : decoder) : decoder :=
  let 'Build_decoder sf a b dt pc cb m ton toff won woff tc n hs rn cm ev := st in
  Build_decoder sf v b dt pc cb m ton toff won woff tc n hs rn cm ev.

Definition set_B_bits (v : bitarray) (st : decoder) : decoder :=
  let 'Build_decoder sf a b dt pc cb m ton toff won woff tc n hs rn cm ev := st in
  Build_decoder sf a v dt pc cb m ton toff won woff tc n hs rn cm ev.

Definition set_LocalDateTime (v : sMSFDateTime) (st : decoder) : decoder :=
  let 'Build_decoder sf a b dt pc cb m ton toff won woff tc n hs rn cm ev := st in
  Build_decoder sf a b v pc cb m ton toff won woff tc n hs rn cm ev.

Definition set_pClientDateTime (v : option ptr) (st : decoder) : decoder :=
  let 'Build_decoder sf a b dt pc cb m ton toff won woff tc n hs rn cm ev := st in
  Build_decoder sf a b dt v cb m ton toff won woff tc n hs rn cm ev.

Definition set_pfClientEventCallback (v : option fnptr) (st : decoder) : decoder :=
  let 'Build_decoder sf a b dt pc cb m ton toff won woff tc n hs rn cm ev := st in
  Build_decoder sf a b dt pc v m ton toff won woff tc n hs rn cm ev.

Definition set_ui32ClientEventMask (v : Z) (st : decoder) : decoder :=
  let 'Build_decoder sf a b dt pc cb m ton toff won woff tc n hs rn cm ev := st in
  Build_decoder sf a b dt pc cb v ton toff won woff tc n hs rn cm ev.

Definition set_T_LastOnStart (v : Z) (st : decoder) : decoder :=
  let 'Build_decoder sf a b dt pc cb m ton toff won woff tc n hs rn cm ev := st in
  Build_decoder sf a b dt pc cb m v toff won woff tc n hs rn cm ev.

Definition set_T_LastOffStart (v : Z) (st : decoder) : decoder :=
  let 'Build_decoder sf a b dt pc cb m ton toff won woff tc n hs rn cm ev := st in
  Build_decoder sf a b dt pc cb m ton v won woff tc n hs rn cm ev.

Definition set_eLastOnWidth (v : eWidth) (st : decoder) : decoder :=
  let 'Build_decoder sf a b dt pc cb m ton toff won woff tc n hs rn cm ev := st in
  Build_decoder sf a b dt pc cb m ton toff v woff tc n hs rn cm ev.

Definition set_eLastOffWidth (v : eWidth) (st : decoder) : decoder :=
  let 'Build_decoder sf a b dt pc cb m ton toff won woff tc n hs rn cm ev := st in
  Build_decoder sf a b dt pc cb m ton toff won v tc n hs rn cm ev.

Definition set_T_CellStart (v : Z) (st : decoder) : decoder :=
  let 'Build_decoder sf a b dt pc cb m ton toff won woff tc n hs rn cm ev := st in
  Build_decoder sf a b dt pc cb m ton toff won woff v n hs rn cm ev.

Definition set_nBitNum (v : Z) (st : decoder) : decoder :=
  let 'Build_decoder sf a b dt pc cb m ton toff won woff tc n hs rn cm ev := st in
  Build_decoder sf a b dt pc cb m ton toff won woff tc v hs rn cm ev.

Definition set_bHalfSync (v : bool) (st : decoder) : decoder :=
  let 'Build_decoder sf a b dt pc cb m ton toff won woff tc n hs rn cm ev := st in
  Build_decoder sf a b dt pc cb m ton toff won woff tc n v rn cm ev.

Definition set_bResyncNeeded (v : bool) (st : decoder) : decoder :=
  let 'Build_decoder sf a b dt pc cb m ton toff won woff tc n hs rn cm ev := st in
  Build_decoder sf a b dt pc cb m ton toff won woff tc n hs v cm ev.

Definition set_client_mem (v : gmap ptr sMSFDateTime) (st : decoder) : decoder :=
  let 'Build_decoder sf a b dt pc cb m ton toff won woff tc n hs rn cm ev := st in
  Build_decoder sf a b dt pc cb m ton toff won woff tc n hs rn v ev.

Definition set_delivered (v : list (fnptr * eMSFEventType)) (st : decoder) : decoder :=
  let 'Build_decoder sf a b dt pc cb m ton toff won woff tc n hs rn cm ev := st in
  Build_decoder sf a b dt pc cb m ton toff won woff tc n hs rn cm v.

(** ** Client notification and frame decoding *)

Definition ClientEventNotify (ev : eMSFEventType) (st : decoder) : decoder :=
  match pfClientEventCallback st with
  | Some cb =>
      if negb (Z.land (ui32ClientEventMask st) (eMSFEventType_val ev) =? 0)
      then set_delivered ((cb, ev) :: delivered st) st
      else st
  | None => st
  end.

(** [DecodeFrame]: the nine members of [LocalDateTime] are assigned one
    after the other; the structure is then copied as a whole into the
    client's buffer. *)
Definition DecodeFrame (st : decoder) : option (bool * decoder) :=
  bFrameValid ← ValidateBCD (A_bits st) (B_bits st);
  if bFrameValid : bool then
    year ← ExtractBCD (A_bits st) 17 24;
    month ← ExtractBCD (A_bits st) 25 29;
    day ← ExtractBCD (A_bits st) 30 35;
    dow ← ExtractBCD (A_bits st) 36 38;
    hour ← ExtractBCD (A_bits st) 39 44;
    minute ← ExtractBCD (A_bits st) 45 51;
    dst ← ExtractBCD (B_bits st) 58 58;
    let st := set_LocalDateTime
                {| bHasValidTime := true; bDateTimeUpdated := true;
                   Year := year; Month := month; Day := day;
                   Hour := hour; Minute := minute; DOW := dow; DST := dst |} st in
    let st := match pClientDateTime st with
              | Some p =>
                  if bHasValidTime (LocalDateTime st)
                  then set_client_mem (<[ p := LocalDateTime st ]> (client_mem st)) st
                  else st
              | None => st
              end in
    let st := ClientEventNotify MSF_EVENT_DATETIME_UPDATED st in
    Some (true, st)
  else Some (false, st).

(** ** The carrier edge handler *)

(** [setBit(A_bits, nBitNum, v)] and [setBit(B_bits, nBitNum, v)]. *)
Definition setBit_A (v : bool) (st : decoder) : option decoder :=
  a ← setBit (A_bits st) (nBitNum st) v; Some (set_A_bits a st).

Definition setBit_B (v : bool) (st : decoder) : option decoder :=
  b ← setBit (B_bits st) (nBitNum st) v; Some (set_B_bits b st).

(** [nBitNum++] on an [unsigned]. *)
Definition incr_nBitNum (st : decoder) : decoder :=
  set_nBitNum (u32 (nBitNum st + 1)) st.

(** [case CARRIER_OFF] of the outer switch. *)
Definition HandleCarrierEvent_OFF (st : decoder) (event_time : Z) : option decoder :=
  let st := set_T_LastOffStart event_time st in
  let st := set_eLastOnWidth (GetWidth (u32 (event_time - T_LastOnStart st))) st in
  let st := if bSyncedFlag st then st else set_T_CellStart (T_LastOffStart st) st in
  match eLastOnWidth st with
  | eWidth_500 =>
      if bHalfSync st then
        let st := ClientEventNotify MSF_EVENT_SYNC st in
        let st := set_bSyncedFlag true st in
        let st := set_T_CellStart (T_LastOffStart st) st in
        st ← (if nBitNum st =? 60
              then r ← DecodeFrame st; Some (set_bResyncNeeded (negb r.1) r.2)
              else Some st);
        Some (set_nBitNum 1 st)
      else Some (set_bResyncNeeded true st)
  | eWidth_900 =>
      if negb (bSyncedFlag st) then Some st else
      st ← setBit_A false st;
      st ← setBit_B false st;
      let st := incr_nBitNum st in
      Some (set_T_CellStart (T_LastOffStart st) st)
  | eWidth_800 =>
      if negb (bSyncedFlag st) then Some st else
      st ← setBit_A true st;
      st ← setBit_B false st;
      let st := incr_nBitNum st in
      Some (set_T_CellStart (T_LastOffStart st) st)
  | eWidth_700 =>
      if negb (bSyncedFlag st) then Some st else
      st ← setBit_B true st;
      let st := incr_nBitNum st in
      Some (set_T_CellStart (T_LastOffStart st) st)
  | eWidth_100 =>
      if negb (bSyncedFlag st) then Some st else
      if decide (GetWidth (u32 (event_time - T_CellStart st)) = eWidth_200) then
        st ← setBit_A false st;
        st ← setBit_B true st;
        Some (incr_nBitNum st)
      else Some (set_bResyncNeeded true st)
  | _ => Some (set_bResyncNeeded true st)
  end.

(** [case CARRIER_ON] of the outer switch. *)
Definition HandleCarrierEvent_ON (st : decoder) (event_time : Z) : option decoder :=
  let st := set_T_LastOnStart event_time st in
  let st := set_eLastOffWidth (GetWidth (u32 (event_time - T_LastOffStart st))) st in
  match GetWidth (u32 (event_time - T_CellStart st)) with
  | eWidth_500 =>
      if decide (eLastOffWidth st = eWidth_500)
      then Some (set_bHalfSync true st)
      else Some (set_bResyncNeeded true st)
  | eWidth_100 =>
      if negb (bSyncedFlag st) then Some st else
      setBit_A false st
  | eWidth_200 =>
      if negb (bSyncedFlag st) then Some st else
      st ← setBit_A true st;
      setBit_B false st
  | eWidth_300 =>
      if negb (bSyncedFlag st) then Some st else
      st ← setBit_B false st;
      if decide (eLastOffWidth st = eWidth_100) then setBit_A false st
      else if decide (eLastOffWidth st = eWidth_300) then setBit_A true st
      else Some (set_bResyncNeeded true st)
  | _ => Some (set_bResyncNeeded true st)
  end.

(** The outer [switch (event_level)]. *)
Definition HandleCarrierEvent_switch (st : decoder) (event_level event_time : Z)
  : option decoder :=
  if event_level =? CARRIER_OFF then HandleCarrierEvent_OFF st event_time
  else if event_level =? CARRIER_ON then HandleCarrierEvent_ON st event_time
  else Some (set_bResyncNeeded true st).

(** The closing [if (bResyncNeeded) { ... }]. *)
Definition HandleCarrierEvent_resync (st : decoder) : decoder :=
  if bResyncNeeded st then
    let st := ClientEventNotify MSF_EVENT_SYNC_LOST st in
    let st := set_nBitNum 1 st in
    let st := set_bHalfSync false st in
    let st := set_bSyncedFlag false st in
    set_bResyncNeeded false st
  else st.

(** [HandleCarrierEvent]; [event_time] is the value read from [g_msSysTick]. *)
Definition HandleCarrierEvent (st : decoder) (event_level event_time : Z)
  : option decoder :=
  st ← HandleCarrierEvent_switch st event_level event_time;
  Some (HandleCarrierEvent_resync st).

(** ** The public API *)

(** [MSF_InitDecoder].  The UART, LED and GPIO set-up it starts with
    touches no decoder variable and is left out. *)
Definition MSF_InitDecoder (pdata : option ptr) (st : decoder) : decoder :=
  match pdata with
  | Some p =>
      let st := set_pClientDateTime (Some p) st in
      set_client_mem (<[ p := sMSFDateTime_zero ]> (client_mem st)) st
  | None => st
  end.

Definition MSF_EnableEventNotifications (pCallbackFunc : option fnptr)
    (enable_mask : Z) (st : decoder) : decoder :=
  let st := set_pfClientEventCallback pCallbackFunc st in
  set_ui32ClientEventMask enable_mask st.

Definition MSF_GetSyncState (st : decoder) : bool := bSyncedFlag st.

(** The statics as the program starts, over the client's memory [mem]. *)
Definition power_on (mem : gmap ptr sMSFDateTime) : decoder :=
  {| bSyncedFlag := false;
     A_bits := replicate 8 0;
     B_bits := replicate 8 0;
     LocalDateTime := sMSFDateTime_zero;
     pClientDateTime := None;
     pfClientEventCallback := None;
     ui32ClientEventMask := 0;
     T_LastOnStart := 0;
     T_LastOffStart := 0;
     eLastOnWidth := eWidth_INVALID;
     eLastOffWidth := eWidth_INVALID;
     T_CellStart := 0;
     nBitNum := 1;
     bHalfSync := false;
     bResyncNeeded := true;
     client_mem := mem;
     delivered := [] |}.

(** ** Runs *)

(** What happens to the decoder and to the memory it shares with the
    client: an edge interrupt, an API call, or a store by the client into
    one of its own structures (the polling loop clears
    [bDateTimeUpdated] there). *)
Inductive input : Type :=
| Edge (event_level event_time : Z)
| Init (pdata : option ptr)
| EnableNotifications (pCallbackFunc : option fnptr) (enable_mask : Z)
| ClientStore (p : ptr) (v : sMSFDateTime).

Definition step (st : decoder) (i : input) : option decoder :=
  match i with
  | Edge l t => HandleCarrierEvent st l t
  | Init p => Some (MSF_InitDecoder p st)
  | EnableNotifications cb m => Some (MSF_EnableEventNotifications cb m st)
  | ClientStore p v => Some (set_client_mem (<[ p := v ]> (client_mem st)) st)
  end.

Fixpoint run (st : decoder) (ins : list input) : option decoder :=
  match ins with
  | [] => Some st
  | i :: ins => st ← step st i; run st ins
  end.

(** The states a program can be in: those a run from power-on ends in. *)
Definition reachable (st : decoder) : Prop :=
  ∃ mem ins, run (power_on mem) ins = Some st.

(** * The UART ring buffers (console.c, hardware.c)

    console.c keeps a transmit and a receive ring buffer between the
    program and the console UART; hardware.c keeps a transmit ring buffer
    of the same code for the debug UART.  The UART itself is the free
    places of its transmit FIFO, the characters handed to it so far, and
    the characters waiting in its receive FIFO.  Every function runs to
    completion: no interrupt arrives in the middle of another function. *)

Definition CONSOLE_RX_BUFFER_SIZE : Z := 1024.
Definition CONSOLE_TX_BUFFER_SIZE : Z := 1024.
Definition DEBUG_UART_TX_BUFFER_SIZE : Z := 1024.

(** The statics of one file with the UART they serve: [tx_space] is the
    number of characters the UART takes before [UARTSpaceAvail] turns
    false, [tx_sent] the characters given to [UARTCharPutNonBlocking]
    (oldest first), [rx_waiting] the characters [UARTCharGetNonBlocking]
    will return, and [tx_int_enabled] whether [UART_INT_TX] is enabled. *)
Record uart : Type := Build_uart {
  TxBuffer : list Z;
  TxWriteIndex : Z;
  TxReadIndex : Z;
  RxBuffer : list Z;
  RxWriteIndex : Z;
  RxReadIndex : Z;
  tx_space : nat;
  tx_sent : list Z;
  rx_waiting : list Z;
  tx_int_enabled : bool
}.

Definition set_TxBuffer (v : list Z) (u : uart) : uart :=
  let 'Build_uart tb tw tr rb rw rr sp se rx ie := u in
  Build_uart v tw tr rb rw rr sp se rx ie.

Definition set_TxWriteIndex (v : Z) (u : uart) : uart :=
  let 'Build_uart tb tw tr rb rw rr sp se rx ie := u in
  Build_uart tb v tr rb rw rr sp se rx ie.

Definition set_TxReadIndex (v : Z) (u : uart) : uart :=
  let 'Build_uart tb tw tr rb rw rr sp se rx ie := u in
  Build_uart tb tw v rb rw rr sp se rx ie.

Definition set_RxBuffer (v : list Z) (u : uart) : uart :=
  let 'Build_uart tb tw tr rb rw rr sp se rx ie := u in
  Build_uart tb tw tr v rw rr sp se rx ie.

Definition set_RxWriteIndex (v : Z) (u : uart) : uart :=
  let 'Build_uart tb tw tr rb rw rr sp se rx ie := u in
  Build_uart tb tw tr rb v rr sp se rx ie.

Definition set_RxReadIndex (v : Z) (u : uart) : uart :=
  let 'Build_uart tb tw tr rb rw rr sp se rx ie := u in
  Build_uart tb tw tr rb rw v sp se rx ie.

Definition set_tx_space (v : nat) (u : uart) : uart :=
  let 'Build_uart tb tw tr rb rw rr sp se rx ie := u in
  Build_uart tb tw tr rb rw rr v se rx ie.

Definition set_tx_sent (v : list Z) (u : uart) : uart :=
  let 'Build_uart tb tw tr rb rw rr sp se rx ie := u in
  Build_uart tb tw tr rb rw rr sp v rx ie.

Definition set_rx_waiting (v : list Z) (u : uart) : uart :=
  let 'Build_uart tb tw tr rb rw rr sp se rx ie := u in
  Build_uart tb tw tr rb rw rr sp se v ie.

Definition set_tx_int_enabled (v : bool) (u : uart) : uart :=
  let 'Build_uart tb tw tr rb rw rr sp se rx ie := u in
  Build_uart tb tw tr rb rw rr sp se rx v.

(** [buffer[index] = c]; a store outside the array is a fault. *)
Definition store (buffer : list Z) (index c : Z) : option (list Z) :=
  _ ← buffer !! Z.to_nat index; Some (<[ Z.to_nat index := u8 c ]> buffer).

(** [Console_FlushTxBuffer], [Console_FlushRxBuffer]. *)
Definition Console_FlushTxBuffer (u : uart) : uart :=
  set_TxReadIndex 0 (set_TxWriteIndex 0 u).

Definition Console_FlushRxBuffer (u : uart) : uart :=
  set_RxReadIndex 0 (set_RxWriteIndex 0 u).

(** [Console_TxBufferCount], [Console_RxBufferCount]: [uint32_t]
    arithmetic on the two indices. *)
Definition Console_TxBufferCount (u : uart) : Z :=
  let ui32Write := TxWriteIndex u in
  let ui32Read := TxReadIndex u in
  if ui32Read <=? ui32Write then u32 (ui32Write - ui32Read)
  else u32 (CONSOLE_TX_BUFFER_SIZE - u32 (ui32Read - ui32Write)).

Definition Console_RxBufferCount (u : uart) : Z :=
  let ui32Write := RxWriteIndex u in
  let ui32Read := RxReadIndex u in
  if ui32Read <=? ui32Write then u32 (ui32Write - ui32Read)
  else u32 (CONSOLE_RX_BUFFER_SIZE - u32 (ui32Read - ui32Write)).

(** The buffer macros. *)
Definition TX_BUFFER_EMPTY (u : uart) : bool := Console_TxBufferCount u =? 0.
Definition TX_BUFFER_FULL (u : uart) : bool :=
  Console_TxBufferCount u =? CONSOLE_TX_BUFFER_SIZE.
Definition ADVANCE_TX_BUFFER_INDEX (Index : Z) : Z :=
  u32 (Index + 1) mod CONSOLE_TX_BUFFER_SIZE.

Definition RX_BUFFER_EMPTY (u : uart) : bool := Console_RxBufferCount u =? 0.
Definition RX_BUFFER_FULL (u : uart) : bool :=
  Console_RxBufferCount u =? CONSOLE_RX_BUFFER_SIZE.
Definition ADVANCE_RX_BUFFER_INDEX (Index : Z) : Z :=
  u32 (Index + 1) mod CONSOLE_RX_BUFFER_SIZE.

(** The [while] loop of [PrimeTheTransmitFIFO] (the same function in
    console.c and in hardware.c), by the free places of the transmit
    FIFO: [UARTSpaceAvail] holds while there is one, and
    [UARTCharPutNonBlocking] takes one. *)
Fixpoint PrimeTheTransmitFIFO_loop (space : nat) (u : uart) : option uart :=
  match space with
  | O => Some u
  | S space =>
      if negb (TX_BUFFER_EMPTY u) then
        c ← TxBuffer u !! Z.to_nat (TxReadIndex u);
        let u := set_tx_space space (set_tx_sent (tx_sent u ++ [c]) u) in
        let u := set_TxReadIndex (ADVANCE_TX_BUFFER_INDEX (TxReadIndex u)) u in
        PrimeTheTransmitFIFO_loop space u
      else Some u
  end.

Definition PrimeTheTransmitFIFO (u : uart) : option uart :=
  if negb (TX_BUFFER_EMPTY u) then PrimeTheTransmitFIFO_loop (tx_space u) u
  else Some u.

(** The receive loop of [ConsoleUARTIntHandler], over the characters
    waiting in the receive FIFO. *)
Fixpoint ConsoleUARTIntHandler_rx (waiting : list Z) (u : uart) : option uart :=
  match waiting with
  | [] => Some u
  | aChar :: waiting =>
      let u := set_rx_waiting waiting u in
      u ← (if negb (RX_BUFFER_FULL u) then
             b ← store (RxBuffer u) (RxWriteIndex u) aChar;
             let u := set_RxBuffer b u in
             Some (set_RxWriteIndex (ADVANCE_RX_BUFFER_INDEX (RxWriteIndex u)) u)
           else Some u);
      ConsoleUARTIntHandler_rx waiting u
  end.

(** [ConsoleUARTIntHandler]; [tx] is [int_status & UART_INT_TX] and [rx]
    is [int_status & (UART_INT_RX | UART_INT_RT)]. *)
Definition ConsoleUARTIntHandler (tx rx : bool) (u : uart) : option uart :=
  u ← (if tx then
         if TX_BUFFER_EMPTY u then Some (set_tx_int_enabled false u)
         else u ← PrimeTheTransmitFIFO u; Some (set_tx_int_enabled true u)
       else Some u);
  if rx then ConsoleUARTIntHandler_rx (rx_waiting u) u else Some u.

(** The [for] loop of [Console_write]. *)
Fixpoint Console_write_loop (n : nat) (pBuffer : list Z) (index nWriteCount : Z)
    (u : uart) : option (Z * uart) :=
  match n with
  | O => Some (nWriteCount, u)
  | S n =>
      if negb (TX_BUFFER_FULL u) then
        c ← pBuffer !! Z.to_nat index;
        b ← store (TxBuffer u) (TxWriteIndex u) c;
        let u := set_TxBuffer b u in
        let u := set_TxWriteIndex (ADVANCE_TX_BUFFER_INDEX (TxWriteIndex u)) u in
        Console_write_loop n pBuffer (index + 1) (u32 (nWriteCount + 1)) u
      else Some (nWriteCount, u)
  end.

(** [Console_write]: the characters of [pBuffer] below [len]. *)
Definition Console_write (pBuffer : list Z) (len : Z) (u : uart) : option (Z * uart) :=
  r ← Console_write_loop (Z.to_nat len) pBuffer 0 0 u;
  let u := r.2 in
  u ← (if negb (TX_BUFFER_EMPTY u) then
         u ← PrimeTheTransmitFIFO u; Some (set_tx_int_enabled true u)
       else Some u);
  Some (r.1, u).

Definition Console_putchar (achar : Z) (u : uart) : option (bool * uart) :=
  if TX_BUFFER_FULL u then Some (false, u) else
  b ← store (TxBuffer u) (TxWriteIndex u) achar;
  let u := set_TxBuffer b u in
  Some (true, set_TxWriteIndex (ADVANCE_TX_BUFFER_INDEX (TxWriteIndex u)) u).

(** [Console_getchar] spins in [while(RX_BUFFER_EMPTY());] until the
    interrupt handler has stored a character; with no interrupt to come
    it does not return. *)
Definition Console_getchar (u : uart) : option (Z * uart) :=
  if RX_BUFFER_EMPTY u then None else
  achar ← RxBuffer u !! Z.to_nat (RxReadIndex u);
  Some (achar, set_RxReadIndex (ADVANCE_RX_BUFFER_INDEX (RxReadIndex u)) u).

(** The [while] loop of [Console_puts], over the characters of the string
    up to its terminator. *)
Fixpoint Console_puts_loop (pstr : list Z) (u : uart) : option uart :=
  match pstr with
  | [] => Some u
  | c :: pstr =>
      if c =? 0 then Some u else
      r ← Console_putchar c u;
      Console_puts_loop pstr r.2
  end.

(** [Console_puts]: the string, then [Console_write] with the two
    characters LF, CR and the length 1. *)
Definition Console_puts (pstr : list Z) (u : uart) : option uart :=
  u ← Console_puts_loop pstr u;
  r ← Console_write [10; 13; 0] 1 u;
  Some r.2.

(** hardware.c: [Debug_FlushTxBuffer], [Debug_TxBufferCount] and
    [Debug_write] for the transmit buffer of the debug UART, with
    [DEBUG_UART_TX_BUFFER_SIZE] and the macros written out. *)
Definition Debug_FlushTxBuffer (u : uart) : uart :=
  set_TxReadIndex 0 (set_TxWriteIndex 0 u).

Definition Debug_TxBufferCount (u : uart) : Z :=
  let ui32Write := TxWriteIndex u in
  let ui32Read := TxReadIndex u in
  if ui32Read <=? ui32Write then u32 (ui32Write - ui32Read)
  else u32 (DEBUG_UART_TX_BUFFER_SIZE - u32 (ui32Read - ui32Write)).

Fixpoint Debug_write_loop (n : nat) (pBuffer : list Z) (index nWriteCount : Z)
    (u : uart) : option (Z * uart) :=
  match n with
  | O => Some (nWriteCount, u)
  | S n =>
      if negb (Debug_TxBufferCount u =? DEBUG_UART_TX_BUFFER_SIZE) then
        c ← pBuffer !! Z.to_nat index;
        b ← store (TxBuffer u) (TxWriteIndex u) c;
        let u := set_TxBuffer b u in
        let u := set_TxWriteIndex
                   (u32 (TxWriteIndex u + 1) mod DEBUG_UART_TX_BUFFER_SIZE) u in
        Debug_write_loop n pBuffer (index + 1) (u32 (nWriteCount + 1)) u
      else Some (nWriteCount, u)
  end.

Definition Debug_write (pBuffer : list Z) (len : Z) (u : uart) : option (Z * uart) :=
  r ← Debug_write_loop (Z.to_nat len) pBuffer 0 0 u;
  let u := r.2 in
  u ← (if negb (Debug_TxBufferCount u =? 0) then
         u ← PrimeTheTransmitFIFO u; Some (set_tx_int_enabled true u)
       else Some u);
  Some (r.1, u).

(** * [Debug_vprintf] (hardware.c)

    Characters are their codes.  The format is the array [pcString]
    points into, terminator included: a read past its end is a fault.
    The arguments are the values [va_arg] returns, in order; a string
    argument is the array its pointer points into.  [pcBuf] is the
    characters stored in it so far: [ui32Pos] is their number, and a
    store at position 16 or beyond is a fault. *)

Inductive vararg : Type :=
| VaInt (ui32Value : Z)
| VaStr (pcStr : list Z).

(** ["0123456789abcdef"]. *)
Definition pcHexChars : list Z :=
  [48; 49; 50; 51; 52; 53; 54; 55; 56; 57; 97; 98; 99; 100; 101; 102].

(** [pcBuf[ui32Pos++] = c]. *)
Definition pcBuf_put (pcBuf : list Z) (c : Z) : option (list Z) :=
  if (length pcBuf <? 16)%nat then Some (pcBuf ++ [c]) else None.

(** The loop that finds the place value of the first digit and takes
    the further digits off the width. *)
Fixpoint convert_width (fuel : nat) (ui32Value ui32Base ui32Idx ui32Count : Z)
  : option (Z * Z) :=
  match fuel with
  | O => None
  | S fuel =>
      if (u32 (ui32Idx * ui32Base) <=? ui32Value)
         && (u32 (ui32Idx * ui32Base) / ui32Base =? ui32Idx)
      then convert_width fuel ui32Value ui32Base
             (u32 (ui32Idx * ui32Base)) (u32 (ui32Count - 1))
      else Some (ui32Idx, ui32Count)
  end.

(** The padding loop, [ui32Count - 1] times. *)
Fixpoint convert_pad (n : nat) (cFill : Z) (pcBuf : list Z) : option (list Z) :=
  match n with
  | O => Some pcBuf
  | S n => pcBuf ← pcBuf_put pcBuf cFill; convert_pad n cFill pcBuf
  end.

(** The loop that stores the digits, first digit first. *)
Fixpoint convert_digits (fuel : nat) (ui32Value ui32Base ui32Idx : Z)
    (pcBuf : list Z) : option (list Z) :=
  match fuel with
  | O => None
  | S fuel =>
      if ui32Idx =? 0 then Some pcBuf else
      c ← pcHexChars !! Z.to_nat ((ui32Value / ui32Idx) mod ui32Base);
      pcBuf ← pcBuf_put pcBuf c;
      convert_digits fuel ui32Value ui32Base (ui32Idx / ui32Base) pcBuf
  end.

(** From the label [convert] to the call of [Debug_write]: the
    characters of [pcBuf] that are written. *)
Definition convert (ui32Value ui32Base ui32Count : Z) (ui32Neg : bool) (cFill : Z)
  : option (list Z) :=
  r ← convert_width 33 ui32Value ui32Base 1 ui32Count;
  let ui32Idx := r.1 in
  let ui32Count := r.2 in
  let ui32Count := if ui32Neg then u32 (ui32Count - 1) else ui32Count in
  r ← (if ui32Neg && (cFill =? 48)
       then pcBuf ← pcBuf_put [] 45; Some (pcBuf, false)
       else Some ([], ui32Neg));
  let pcBuf := r.1 in
  let ui32Neg := r.2 in
  pcBuf ← (if (1 <? ui32Count) && (ui32Count <? 16)
           then convert_pad (Z.to_nat (ui32Count - 1)) cFill pcBuf
           else Some pcBuf);
  pcBuf ← (if ui32Neg : bool then pcBuf_put pcBuf 45 else Some pcBuf);
  convert_digits 33 ui32Value ui32Base ui32Idx pcBuf.

(** The number of characters before the first of [stop]: the [for]
    loops that measure a string. *)
Fixpoint span (stop : Z → bool) (pcString : list Z) : option Z :=
  match pcString with
  | [] => None
  | c :: pcString =>
      if stop c then Some 0 else n ← span stop pcString; Some (u32 (n + 1))
  end.

(** A call of [Debug_write] whose result is not used. *)
Definition writes (pBuffer : list Z) (len : Z) (u : uart) : option uart :=
  r ← Debug_write pBuffer len u; Some r.2.

(** The padding of [%s]: one call of [Debug_write] for each space. *)
Fixpoint pad_spaces (n : nat) (u : uart) : option uart :=
  match n with
  | O => Some u
  | S n => u ← writes [32; 0] 1 u; pad_spaces n u
  end.

(** The [switch] after a [%], from the label [again] on: the rest of the
    format, the rest of the arguments and the UART when it breaks. *)
Fixpoint directive (fuel : nat) (pcString : list Z) (ui32Count cFill : Z)
    (vaArgP : list vararg) (u : uart) : option (list Z * list vararg * uart) :=
  match fuel with
  | O => None
  | S fuel =>
      match pcString with
      | [] => None
      | c :: pcString =>
          if (48 <=? c) && (c <=? 57) then
            let cFill := if (c =? 48) && (ui32Count =? 0) then 48 else cFill in
            let ui32Count := u32 (u32 (ui32Count * 10) + (c - 48)) in
            directive fuel pcString ui32Count cFill vaArgP u
          else if c =? 99 then
            match vaArgP with
            | VaInt ui32Value :: vaArgP =>
                u ← writes [u8 ui32Value] 1 u; Some (pcString, vaArgP, u)
            | _ => None
            end
          else if (c =? 100) || (c =? 105) then
            match vaArgP with
            | VaInt ui32Value :: vaArgP =>
                let ui32Neg := to_int ui32Value <? 0 in
                let ui32Value := if ui32Neg then u32 (- to_int ui32Value)
                                 else ui32Value in
                pcBuf ← convert ui32Value 10 ui32Count ui32Neg cFill;
                u ← writes pcBuf (Z.of_nat (length pcBuf)) u;
                Some (pcString, vaArgP, u)
            | _ => None
            end
          else if c =? 115 then
            match vaArgP with
            | VaStr pcStr :: vaArgP =>
                ui32Idx ← span (λ c, c =? 0) pcStr;
                u ← writes pcStr ui32Idx u;
                u ← (if ui32Idx <? ui32Count
                     then pad_spaces (Z.to_nat (u32 (ui32Count - ui32Idx))) u
                     else Some u);
                Some (pcString, vaArgP, u)
            | _ => None
            end
          else if c =? 117 then
            match vaArgP with
            | VaInt ui32Value :: vaArgP =>
                pcBuf ← convert ui32Value 10 ui32Count false cFill;
                u ← writes pcBuf (Z.of_nat (length pcBuf)) u;
                Some (pcString, vaArgP, u)
            | _ => None
            end
          else if (c =? 120) || (c =? 88) || (c =? 112) then
            match vaArgP with
            | VaInt ui32Value :: vaArgP =>
                pcBuf ← convert ui32Value 16 ui32Count false cFill;
                u ← writes pcBuf (Z.of_nat (length pcBuf)) u;
                Some (pcString, vaArgP, u)
            | _ => None
            end
          else if c =? 37 then
            u ← writes [37; 0] 1 u; Some (pcString, vaArgP, u)
          else
            u ← writes [69; 82; 82; 79; 82; 0] 5 u; Some (pcString, vaArgP, u)
      end
  end.

(** The outer [while] loop, over the format. *)
Fixpoint Debug_vprintf_loop (fuel : nat) (pcString : list Z)
    (vaArgP : list vararg) (u : uart) : option uart :=
  match fuel with
  | O => None
  | S fuel =>
      c ← head pcString;
      if c =? 0 then Some u else
      ui32Idx ← span (λ c, (c =? 37) || (c =? 0)) pcString;
      u ← writes pcString ui32Idx u;
      let pcString := drop (Z.to_nat ui32Idx) pcString in
      c ← head pcString;
      if c =? 37 then
        r ← directive (length pcString) (tail pcString) 0 32 vaArgP u;
        Debug_vprintf_loop fuel r.1.1 r.1.2 r.2
      else Debug_vprintf_loop fuel pcString vaArgP u
  end.

Definition Debug_vprintf (pcString : list Z) (vaArgP : list vararg) (u : uart)
  : option uart :=
  Debug_vprintf_loop (S (length pcString)) pcString vaArgP u.

(** * Reference definitions

    What the claims are stated with: the bits of an array read off its
    bytes, the sums and counts of the specification, and the observable
    effect of a notification. *)

(** Bit [i] of an array, read off the bytes: the reference the accessors
    are compared with. *)
Definition bit_at (a : bitarray) (i : Z) : bool :=
  Z.testbit (default 0 (a !! Z.to_nat (i / 8))) (i mod 8).

(** The weighted sum the specification describes: starting at [bit] and
    going down, each set bit adds the next weight. *)
Fixpoint bcd_sum (a : bitarray) (bit : Z) (weights : list Z) : Z :=
  match weights with
  | [] => 0
  | w :: ws => (if bit_at a bit then w else 0) + bcd_sum a (bit - 1) ws
  end.

(** The same sum over the binary digits of a code [c], from digit [i] up. *)
Fixpoint code_sum (c i : Z) (weights : list Z) : Z :=
  match weights with
  | [] => 0
  | w :: ws => (if Z.testbit c i then w else 0) + code_sum c (i + 1) ws
  end.

Definition total (ws : list Z) : Z := foldr Z.add 0 ws.

(** The number of set bits among the [n] bits from [from] up. *)
Fixpoint count_set (a : bitarray) (from : Z) (n : nat) : Z :=
  match n with
  | O => 0
  | S n => (if bit_at a from then 1 else 0) + count_set a (from + 1) n
  end.

(** Odd parity of the group [from..to] together with the parity bit. *)
Definition odd_parity (a : bitarray) (from to : Z) (parity : bool) : bool :=
  Z.odd (count_set a from (Z.to_nat (to - from + 1)) + (if parity then 1 else 0)).

(** The rules of the frame validator, in the order of the specification,
    each with the diagnostic of its failure. *)
Definition frame_checks (A B : bitarray) : list (bcd_error * bool) :=
  [ (A52_not_zero, negb (bit_at A 52));
    (A_not_set 53, bit_at A 53);
    (A_not_set 54, bit_at A 54);
    (A_not_set 55, bit_at A 55);
    (A_not_set 56, bit_at A 56);
    (A_not_set 57, bit_at A 57);
    (A_not_set 58, bit_at A 58);
    (A59_not_zero, negb (bit_at A 59));
    (Parity_A17_A24_B54, odd_parity A 17 24 (bit_at B 54));
    (Parity_A25_A35_B55, odd_parity A 25 35 (bit_at B 55));
    (Parity_A36_A38_B56, odd_parity A 36 38 (bit_at B 56));
    (Parity_A39_A51_B57, odd_parity A 39 51 (bit_at B 57)) ].

(** Checking in order and stopping at the first rule that fails. *)
Fixpoint first_failure (checks : list (bcd_error * bool)) : option bcd_error :=
  match checks with
  | [] => None
  | (e, ok) :: checks => if ok then first_failure checks else Some e
  end.

(** The frame is valid: all rules hold. *)
Definition frame_valid (A B : bitarray) : Prop :=
  bit_at A 52 = false ∧
  (∀ i, 53 ≤ i ≤ 58 → bit_at A i = true) ∧
  bit_at A 59 = false ∧
  odd_parity A 17 24 (bit_at B 54) = true ∧
  odd_parity A 25 35 (bit_at B 55) = true ∧
  odd_parity A 36 38 (bit_at B 56) = true ∧
  odd_parity A 39 51 (bit_at B 57) = true.

(** The first clear bit among the [n] bits from [i] up. *)
Fixpoint first_clear (A : bitarray) (i : Z) (n : nat) : option Z :=
  match n with
  | O => None
  | S n => if bit_at A i then first_clear A (i + 1) n else Some i
  end.

(** What a notification of [ev] hands to the client: one call of the
    registered callback when [ev] is in the mask, nothing otherwise. *)
Definition notified (ev : eMSFEventType) (st : decoder) : list (fnptr * eMSFEventType) :=
  match pfClientEventCallback st with
  | Some cb =>
      if Z.land (ui32ClientEventMask st) (eMSFEventType_val ev) =? 0
      then [] else [(cb, ev)]
  | None => []
  end.

(** Two states that differ at most in what a decode publishes: the stored
    date/time, the client's memory and the calls to the callback. *)
Definition same_sync_state (st st' : decoder) : Prop :=
  bSyncedFlag st' = bSyncedFlag st ∧
  A_bits st' = A_bits st ∧ B_bits st' = B_bits st ∧
  pClientDateTime st' = pClientDateTime st ∧
  pfClientEventCallback st' = pfClientEventCallback st ∧
  ui32ClientEventMask st' = ui32ClientEventMask st ∧
  T_LastOnStart st' = T_LastOnStart st ∧
  T_LastOffStart st' = T_LastOffStart st ∧
  eLastOnWidth st' = eLastOnWidth st ∧
  eLastOffWidth st' = eLastOffWidth st ∧
  T_CellStart st' = T_CellStart st ∧
  nBitNum st' = nBitNum st ∧
  bHalfSync st' = bHalfSync st ∧
  bResyncNeeded st' = bResyncNeeded st.

(** The bounds that hold of the arrays and of the bit cursor in every
    state a run reaches. *)
Definition cursor_inv (st : decoder) : Prop :=
  length (A_bits st) = 8%nat ∧ length (B_bits st) = 8%nat ∧
  1 ≤ nBitNum st ≤ 64 ∧
  (bSyncedFlag st = false → nBitNum st = 1).

(** An API call or a store by the client, as opposed to a carrier edge. *)
Definition is_api_call (i : input) : Prop :=
  match i with
  | Edge _ _ => False
  | Init _ | EnableNotifications _ _ | ClientStore _ _ => True
  end.

(** The handler's statics before it has run once. *)
Definition before_first_edge (st : decoder) : Prop :=
  bResyncNeeded st = true ∧ bSyncedFlag st = false ∧ bHalfSync st = false ∧
  nBitNum st = 1 ∧ delivered st = [].

(** ** Reference definitions for runs of the handler *)

(** The tick counter wraps: the edges of an input list at the values the
    32-bit counter shows. *)
Definition wrap_times (ins : list input) : list input :=
  (λ i, match i with
        | Edge l t => Edge l (u32 t)
        | _ => i
        end) <$> ins.

(** SYNCED at the start of a second: the CARRIER_OFF edge that starts the
    second came at tick [t], the cursor is [n], and no resync is pending. *)
Definition at_cell_start (st : decoder) (t n : Z) : Prop :=
  bSyncedFlag st = true ∧ bResyncNeeded st = false ∧
  T_CellStart st = u32 t ∧ T_LastOffStart st = u32 t ∧
  nBitNum st = n ∧
  length (A_bits st) = 8%nat ∧ length (B_bits st) = 8%nat.

(** What an edge never touches while it stores bits. *)
Definition same_client_side (st st' : decoder) : Prop :=
  LocalDateTime st' = LocalDateTime st ∧
  pClientDateTime st' = pClientDateTime st ∧
  pfClientEventCallback st' = pfClientEventCallback st ∧
  ui32ClientEventMask st' = ui32ClientEventMask st ∧
  client_mem st' = client_mem st ∧
  delivered st' = delivered st.

(** Bit [j] of a frame under construction: taken from the pairs stored
    from position [n] on, and from the old array elsewhere. *)
Definition stored (sel : bool * bool → bool) (bits : list (bool * bool))
    (n : Z) (old : bitarray) (j : Z) : bool :=
  if decide (n ≤ j < n + Z.of_nat (length bits))
  then sel (default (false, false) (bits !! Z.to_nat (j - n)))
  else bit_at old j.

(** The date and time a valid frame carries: the seven fields as weighted
    sums, with both flags set. *)
Definition frame_time (A B : bitarray) : sMSFDateTime :=
  {| bHasValidTime := true; bDateTimeUpdated := true;
     Year := bcd_sum A 24 (take 8 BCD);
     Month := bcd_sum A 29 (take 5 BCD);
     Day := bcd_sum A 35 (take 6 BCD);
     Hour := bcd_sum A 44 (take 6 BCD);
     Minute := bcd_sum A 51 (take 7 BCD);
     DOW := bcd_sum A 38 (take 3 BCD);
     DST := bcd_sum B 58 (take 1 BCD) |}.

(** The state a successful decode of the arrays leaves. *)
Definition published (st : decoder) : decoder :=
  let dt := frame_time (A_bits st) (B_bits st) in
  let st := set_LocalDateTime dt st in
  let st := match pClientDateTime st with
            | Some p => set_client_mem (<[ p := dt ]> (client_mem st)) st
            | None => st
            end in
  set_delivered (notified MSF_EVENT_DATETIME_UPDATED st ++ delivered st) st.

(** The edge is a full-SYNC acquisition: it ends a 500 ms ON span while
    half-sync is set. *)
Definition acquisition (st : decoder) (t : Z) : Prop :=
  bHalfSync st = true ∧ GetWidth (u32 (t - T_LastOnStart st)) = eWidth_500.

(** The registrations of the client are the same in both states. *)
Definition same_listener (st st' : decoder) : Prop :=
  pClientDateTime st' = pClientDateTime st ∧
  pfClientEventCallback st' = pfClientEventCallback st ∧
  ui32ClientEventMask st' = ui32ClientEventMask st.

(** Nothing was published between the two states. *)
Definition unpublished (st st' : decoder) : Prop :=
  LocalDateTime st' = LocalDateTime st ∧ client_mem st' = client_mem st.

(** The edge completes a frame: a full-SYNC acquisition with the cursor
    at 60 over arrays that pass validation. *)
Definition completes_frame (st : decoder) (l t : Z) : Prop :=
  l = CARRIER_OFF ∧ acquisition st t ∧ nBitNum st = 60 ∧
  frame_valid (A_bits st) (B_bits st).

(** An input that leaves the registered callback and mask alone. *)
Definition keeps_listener (i : input) : Prop :=
  match i with
  | EnableNotifications _ _ => False
  | _ => True
  end.

(** The calls a listener gets for a sequence of notifications, the last
    one first. *)
Definition notified_all (evs : list eMSFEventType) (st : decoder)
  : list (fnptr * eMSFEventType) :=
  evs ≫= λ ev, notified ev st.

(** The notifications one edge can make, the last one first. *)
Definition edge_notifications : list (list eMSFEventType) :=
  [ []; [MSF_EVENT_SYNC]; [MSF_EVENT_SYNC_LOST];
    [MSF_EVENT_SYNC_LOST; MSF_EVENT_SYNC];
    [MSF_EVENT_DATETIME_UPDATED; MSF_EVENT_SYNC] ].

(** [notified] looks at the callback and the mask only. *)
Definition listener_calls (cb : option fnptr) (m : Z) (ev : eMSFEventType)
  : list (fnptr * eMSFEventType) :=
  match cb with
  | Some cb => if Z.land m (eMSFEventType_val ev) =? 0 then [] else [(cb, ev)]
  | None => []
  end.

(** The stored date is the zero of program start or the decode of a frame
    that passed validation. *)
Definition date_inv (st : decoder) : Prop :=
  LocalDateTime st = sMSFDateTime_zero ∨
  ∃ A B : bitarray, length A = 8%nat ∧ length B = 8%nat ∧ frame_valid A B ∧
                    LocalDateTime st = frame_time A B.

(** ** A transmitter for the decoder *)

(** Two decimal digits as a BCD code. *)
Definition bcd_code (v : Z) : Z := 16 * (v / 10) + v mod 10.

(** The number of [true] among [f from], ..., [f (from + n - 1)]. *)
Fixpoint count_fn (f : Z → bool) (from : Z) (n : nat) : Z :=
  match n with
  | O => 0
  | S n => (if f from then 1 else 0) + count_fn f (from + 1) n
  end.

(** Bit A of second [j] for the date and time [dt]: the BCD fields with
    their most significant bit first, and the marker bits A53..A58. *)
Definition encode_A (dt : sMSFDateTime) (j : Z) : bool :=
  if decide (17 ≤ j ≤ 24) then Z.testbit (bcd_code (Year dt)) (24 - j)
  else if decide (25 ≤ j ≤ 29) then Z.testbit (bcd_code (Month dt)) (29 - j)
  else if decide (30 ≤ j ≤ 35) then Z.testbit (bcd_code (Day dt)) (35 - j)
  else if decide (36 ≤ j ≤ 38) then Z.testbit (bcd_code (DOW dt)) (38 - j)
  else if decide (39 ≤ j ≤ 44) then Z.testbit (bcd_code (Hour dt)) (44 - j)
  else if decide (45 ≤ j ≤ 51) then Z.testbit (bcd_code (Minute dt)) (51 - j)
  else bool_decide (53 ≤ j ≤ 58).

(** The bit that makes the group [from..to] of A odd. *)
Definition parity_bit (dt : sMSFDateTime) (from to : Z) : bool :=
  negb (Z.odd (count_fn (encode_A dt) from (Z.to_nat (to - from + 1)))).

(** Bit B of second [j]: the four parity bits and the DST bit. *)
Definition encode_B (dt : sMSFDateTime) (j : Z) : bool :=
  if decide (j = 54) then parity_bit dt 17 24
  else if decide (j = 55) then parity_bit dt 25 35
  else if decide (j = 56) then parity_bit dt 36 38
  else if decide (j = 57) then parity_bit dt 39 51
  else if decide (j = 58) then Z.testbit (bcd_code (DST dt)) 0
  else false.

(** The 59 bit pairs of the minute. *)
Definition encode (dt : sMSFDateTime) : list (bool * bool) :=
  (λ j, (encode_A dt j, encode_B dt j)) <$> seqZ 1 59.

(** The ranges MSF60decode.h gives for the members of [sMSFDateTime]. *)
Definition in_range (dt : sMSFDateTime) : Prop :=
  0 ≤ Year dt ≤ 99 ∧ 1 ≤ Month dt ≤ 12 ∧ 1 ≤ Day dt ≤ 31 ∧
  0 ≤ Hour dt ≤ 23 ∧ 0 ≤ Minute dt ≤ 59 ∧ 0 ≤ DOW dt ≤ 6 ∧ 0 ≤ DST dt ≤ 1.

(** A minute of 59 seconds carries [dt]: bit A of the seconds 17..59 and
    bit B of the seconds 54..58 are the transmitter's.  The bits the
    decoder does not read (A1..A16, B1..B53, B59) are left open. *)
Definition carries (bits : list (bool * bool)) (dt : sMSFDateTime) : Prop :=
  length bits = 59%nat ∧
  (∀ j, 17 ≤ j ≤ 59 →
        (default (false, false) (bits !! Z.to_nat (j - 1))).1 = encode_A dt j) ∧
  (∀ j, 54 ≤ j ≤ 58 →
        (default (false, false) (bits !! Z.to_nat (j - 1))).2 = encode_B dt j).

(** ** Reference definitions for the ring buffers *)

(** The indices are inside the arrays. *)
Definition uart_inv (u : uart) : Prop :=
  length (TxBuffer u) = 1024%nat ∧
  0 ≤ TxWriteIndex u < 1024 ∧ 0 ≤ TxReadIndex u < 1024 ∧
  length (RxBuffer u) = 1024%nat ∧
  0 ≤ RxWriteIndex u < 1024 ∧ 0 ≤ RxReadIndex u < 1024.

(** The count of a ring by its two indices. *)
Definition ring_count (w r : Z) : Z :=
  if r <=? w then u32 (w - r) else u32 (1024 - u32 (r - w)).

(** The [n] characters of a ring from index [r] on. *)
Fixpoint ring (buffer : list Z) (r : Z) (n : nat) : list Z :=
  match n with
  | O => []
  | S n => default 0 (buffer !! Z.to_nat r) :: ring buffer ((r + 1) mod 1024) n
  end.

(** The characters written and not yet handed to the UART, and those
    received and not yet read, oldest first. *)
Definition tx_queue (u : uart) : list Z :=
  ring (TxBuffer u) (TxReadIndex u) (Z.to_nat (Console_TxBufferCount u)).

Definition rx_queue (u : uart) : list Z :=
  ring (RxBuffer u) (RxReadIndex u) (Z.to_nat (Console_RxBufferCount u)).

(** What a function of the transmit side leaves alone. *)
Definition same_rx (u u' : uart) : Prop :=
  RxBuffer u' = RxBuffer u ∧ RxWriteIndex u' = RxWriteIndex u ∧
  RxReadIndex u' = RxReadIndex u ∧ rx_waiting u' = rx_waiting u.

Definition same_tx (u u' : uart) : Prop :=
  TxBuffer u' = TxBuffer u ∧ TxWriteIndex u' = TxWriteIndex u ∧
  TxReadIndex u' = TxReadIndex u ∧ tx_space u' = tx_space u ∧
  tx_sent u' = tx_sent u ∧ tx_int_enabled u' = tx_int_enabled u.

(** All the characters written so far: those handed to the UART, then
    those still queued. *)
Definition tx_stream (u : uart) : list Z := tx_sent u ++ tx_queue u.

(** ** Reference definitions for [Debug_vprintf] *)

(** The digits of [v] in base [b], first digit first. *)
Fixpoint digits (fuel : nat) (b v : Z) : list Z :=
  match fuel with
  | O => []
  | S fuel => (if v <? b then [] else digits fuel b (v / b)) ++ [v mod b]
  end.

(** The number a list of digits stands for. *)
Definition digits_value (b : Z) (ds : list Z) : Z :=
  fold_left (λ a d, a * b + d) ds 0.

(** The characters of the digits. *)
Definition numeral (b v : Z) : list Z :=
  (λ d, default 0 (pcHexChars !! Z.to_nat d)) <$> digits 32 b v.

(** What [convert] puts into [pcBuf] for the width [ui32Count]: a minus
    sign before the padding when it is zeros and after it when it is
    spaces, and padding only when the width less the digits and the sign
    leaves between 1 and 14 characters to fill. *)
Definition convert_padding (b v ui32Count : Z) (ui32Neg : bool) : Z :=
  let rest := u32 (ui32Count - (Z.of_nat (length (digits 32 b v)) - 1)
                   - (if ui32Neg then 1 else 0)) in
  if (1 <? rest) && (rest <? 16) then rest - 1 else 0.

Definition convert_chars (b v ui32Count : Z) (ui32Neg : bool) (cFill : Z) : list Z :=
  (if ui32Neg && (cFill =? 48) then [45] else [])
  ++ replicate (Z.to_nat (convert_padding b v ui32Count ui32Neg)) cFill
  ++ (if ui32Neg && negb (cFill =? 48) then [45] else [])
  ++ numeral b v.

(** The digits by their places: the digit of place [j] down to that of
    place 0. *)
Fixpoint place_digits (b v : Z) (j : nat) : list Z :=
  match j with
  | O => [v mod b]
  | S j' => (v / b ^ Z.of_nat j) mod b :: place_digits b v j'
  end.

(** [j] is the place of the first digit of [v]. *)
Definition top_place (b v : Z) (j : nat) : Prop :=
  v < b ^ (Z.of_nat j + 1) ∧ (j = O ∨ b ^ Z.of_nat j ≤ v).

(** A character of a text: not the terminator, and not [%]. *)
Definition text_char (c : Z) : Prop := 0 < c < 256 ∧ c ≠ 37.

(** What [%d], [%i], [%u], [%x], [%X] and [%p] print for [v] when no
    width is given. *)
Definition print_number (c v : Z) : list Z :=
  if (c =? 100) || (c =? 105) then
    if to_int v <? 0 then 45 :: numeral 10 (u32 (- to_int v)) else numeral 10 v
  else if c =? 117 then numeral 10 v
  else numeral 16 v.

(** * Example inputs *)

(** The minute marker: carrier off for 500 ms, on for 500 ms, off again. *)
Definition sync_preamble (t : Z) : list input :=
  [ Edge CARRIER_OFF t; Edge CARRIER_ON (t + 500); Edge CARRIER_OFF (t + 1000) ].

(** The edges of one second starting at [t], by the bits A and B it
    carries: the carrier is off for 100, 200 or 300 ms, or off, on and off
    again for 100 ms each, and on for the rest of the second. *)
Definition cell (A B : bool) (t : Z) : list input :=
  match A, B with
  | false, false => [ Edge CARRIER_ON (t + 100); Edge CARRIER_OFF (t + 1000) ]
  | true, false => [ Edge CARRIER_ON (t + 200); Edge CARRIER_OFF (t + 1000) ]
  | true, true => [ Edge CARRIER_ON (t + 300); Edge CARRIER_OFF (t + 1000) ]
  | false, true =>
      [ Edge CARRIER_ON (t + 100); Edge CARRIER_OFF (t + 200);
        Edge CARRIER_ON (t + 300); Edge CARRIER_OFF (t + 1000) ]
  end.

Fixpoint cells (bits : list (bool * bool)) (t : Z) : list input :=
  match bits with
  | [] => []
  | (A, B) :: bits => cell A B t ++ cells bits (t + 1000)
  end.

(** [n] seconds that carry A=0, B=0. *)
Definition cells_00 (n : nat) (t : Z) : list input :=
  cells (replicate n (false, false)) t.

(** The minute of the specification's scenario A: year 24, month 5, day
    28, Tuesday, 14:37, no DST; A53..A58 set; B54 and B55 set for parity. *)
Definition scenario_A_bits : list (bool * bool) :=
  (λ i, (bool_decide (i ∈ [19; 22; 27; 29; 30; 32; 37; 40; 42; 46; 47; 49; 50; 51;
                            53; 54; 55; 56; 57; 58]),
         bool_decide (i ∈ [54; 55]))) <$> seqZ 1 59.

(** A client that registers buffer 1 and callback 2 for all events, a
    minute marker, the 59 seconds of the minute, and the next marker. *)
Definition scenario_A : list input :=
  [ Init (Some 1%positive); EnableNotifications (Some 2%positive) 7 ] ++
  sync_preamble 1000 ++ cells scenario_A_bits 2000 ++
  [ Edge CARRIER_ON 61500; Edge CARRIER_OFF 62000 ].

(** The arrays scenario A leaves behind. *)
Definition scenario_A_A_bits : bitarray := [0; 0; 72; 104; 33; 197; 238; 7].
Definition scenario_A_B_bits : bitarray := [0; 0; 0; 0; 0; 0; 192; 0].

(** A decoder holding [A] and [B] with buffer 1 and callback 2 registered. *)
Definition holding (A B : bitarray) : decoder :=
  set_B_bits B (set_A_bits A
    (MSF_EnableEventNotifications (Some 2%positive) 7
       (MSF_InitDecoder (Some 1%positive) (power_on ∅)))).

(** A client with buffer 1 and callback 2, three seconds after the first
    SYNC. *)
Definition synced_3_cells_inputs : list input :=
  [ Init (Some 1%positive); EnableNotifications (Some 2%positive) 7 ] ++
  sync_preamble 1000 ++ cells_00 3 2000.

Definition synced_3_cells : decoder :=
  default (power_on ∅) (run (power_on ∅) synced_3_cells_inputs).

(** The second half of a minute marker and the edge that ends it. *)
Definition marker_end (t : Z) : list input :=
  [ Edge CARRIER_ON (t + 500); Edge CARRIER_OFF (t + 1000) ].

(** One broadcast minute as the decoder sees it: the minute marker, the
    59 seconds, and the start of the next marker. *)
Definition minute (bits : list (bool * bool)) (t : Z) : list input :=
  sync_preamble t ++ cells bits (t + 1000) ++ marker_end (t + 60000).

(** The console after [Console_InitUART], with [space] free places in the
    transmit FIFO of the UART. *)
Definition console_reset (space : nat) : uart :=
  {| TxBuffer := replicate 1024 0; TxWriteIndex := 0; TxReadIndex := 0;
     RxBuffer := replicate 1024 0; RxWriteIndex := 0; RxReadIndex := 0;
     tx_space := space; tx_sent := []; rx_waiting := [];
     tx_int_enabled := false |}.


Definition just_synced : decoder :=
  default (power_on ∅) (run (power_on ∅) (sync_preamble 1000)).

(** Scenario A half a second before the marker that ends its minute, and
    at the end of that marker. *)
Definition scenario_A_before_decode : decoder :=
  default (power_on ∅)
    (run (power_on ∅)
       ([ Init (Some 1%positive); EnableNotifications (Some 2%positive) 7 ] ++
        sync_preamble 1000 ++ cells scenario_A_bits 2000 ++ [ Edge CARRIER_ON 61500 ])).

Definition scenario_A_decoded : decoder :=
  default (power_on ∅) (run (power_on ∅) scenario_A).

(** The date and time of scenario A. *)
Definition scenario_A_time : sMSFDateTime :=
  {| bHasValidTime := true; bDateTimeUpdated := true;
     Year := 24; Month := 5; Day := 28; Hour := 14; Minute := 37;
     DOW := 2; DST := 0 |}.

(** A frame that passes validation with every bit of every field set. *)
Definition all_ones_A_bits : bitarray := [0; 0; 254; 255; 255; 255; 239; 7].
Definition all_ones_B_bits : bitarray := [0; 0; 0; 0; 0; 0; 64; 4].

(** A console with 1023 characters queued: the read index one ahead of
    the write index. *)
Definition console_one_ahead : uart :=
  set_TxReadIndex 6 (set_TxWriteIndex 5 (console_reset 0)).

(** A console with two characters waiting in the receive FIFO. *)
Definition console_receiving : uart := set_rx_waiting [72; 105] (console_reset 0).

(** The same console after the receive interrupt. *)
Definition console_received : uart :=
  default (console_reset 0) (ConsoleUARTIntHandler false true console_receiving).

(** A decoder that was given a buffer and a callback for all three
    events, and has seen no edge. *)
Definition listening : decoder :=
  MSF_EnableEventNotifications (Some 2%positive) 7
    (MSF_InitDecoder (Some 1%positive) (power_on ∅)).

(** The minute of scenario A's date and time, with B also set in second
    53, which the decoder does not read. *)
Definition scenario_A_minute : list (bool * bool) :=
  <[ 52%nat := (true, true) ]> (encode scenario_A_time).

(** * Properties *)

(** ** Machine arithmetic *)

Lemma u32_small z : 0 ≤ z < 2 ^ 32 → u32 z = z.
Proof. intros. unfold u32. by apply Z.mod_small. Qed.

Lemma u8_small z : 0 ≤ z < 2 ^ 8 → u8 z = z.
Proof. intros. unfold u8. by apply Z.mod_small. Qed.

Lemma to_int_u32 z : - 2 ^ 31 ≤ z < 2 ^ 31 → to_int (u32 z) = z.
Proof.
  intros Hz. unfold to_int, u32. rewrite Z.mod_mod by lia.
  change (2 ^ 32) with 4294967296 in *. change (2 ^ 31) with 2147483648 in *.
  destruct (Z.ltb_spec (z mod 4294967296) 2147483648);
    Z.div_mod_to_equations; lia.
Qed.

(** ** Pulse classification *)

(** On the whole range of a 32-bit interval the comparison in [GetWidth]
    is the strict margin test: a difference of 2^31 or more converts to a
    negative [int] that is beyond the margin. *)
Lemma near_margin w n :
  0 ≤ w < 2 ^ 32 → 30 ≤ n ≤ 900 → near w n = (Z.abs (w - n) <? PULSE_MARGIN).
Proof.
  intros Hw Hn. unfold near, PULSE_MARGIN, c_abs.
  change (2 ^ 32) with 4294967296 in *.
  destruct (Z.lt_ge_cases (w - n) 2147483648) as [Hlt|Hge].
  - by rewrite to_int_u32 by (change (2 ^ 31) with 2147483648; lia).
  - assert (to_int (u32 (w - n)) = w - n - 4294967296) as ->.
    { unfold to_int, u32. change (2 ^ 32) with 4294967296.
      change (2 ^ 31) with 2147483648.
      rewrite Z.mod_mod by lia. rewrite (Z.mod_small (w - n)) by lia.
      destruct (Z.ltb_spec (w - n) 2147483648); lia. }
    destruct (Z.ltb_spec (Z.abs (w - n - 4294967296)) 30),
      (Z.ltb_spec (Z.abs (w - n)) 30); (done || lia).
Qed.

(** An interval of 2^31 + [n] ms is where [abs] meets [INT_MIN]; it is
    outside the margin of [n]. *)
Lemma near_at_INT_MIN n :
  30 ≤ n ≤ 900 →
  to_int (u32 (2 ^ 31 + n - n)) = INT_MIN ∧ near (2 ^ 31 + n) n = false.
Proof.
  intros Hn. split.
  - replace (2 ^ 31 + n - n) with (2 ^ 31) by lia. reflexivity.
  - rewrite near_margin
      by (change (2 ^ 32) with 4294967296; change (2 ^ 31) with 2147483648; lia).
    unfold PULSE_MARGIN. apply Z.ltb_ge.
    change (2 ^ 31) with 2147483648. lia.
Qed.




(** ** Bit arrays *)

Lemma land_pow2 b k :
  0 ≤ k → Z.land b (2 ^ k) = if Z.testbit b k then 2 ^ k else 0.
Proof.
  intros Hk. apply Z.bits_inj'. intros n Hn.
  rewrite Z.land_spec, Z.pow2_bits_eqb by done.
  destruct (Z.eqb_spec k n) as [->|Hne].
  - rewrite andb_true_r. destruct (Z.testbit b n).
    + by rewrite Z.pow2_bits_true.
    + by rewrite Z.bits_0.
  - rewrite andb_false_r. destruct (Z.testbit b k).
    + by rewrite Z.pow2_bits_false.
    + by rewrite Z.bits_0.
Qed.

Lemma bit_mask_pow2 i : 0 ≤ i → bit_mask i = 2 ^ (i mod 8).
Proof.
  intros Hi. unfold bit_mask.
  change 7 with (Z.ones 3). rewrite Z.land_ones by done.
  change (2 ^ 3) with 8.
  assert (0 ≤ i mod 8 < 8) as Hm by (apply Z.mod_pos_bound; lia).
  rewrite Z.shiftl_1_l. apply u8_small. split; [lia|].
  change (2 ^ 8) with (2 ^ 7 * 2). 
  assert (2 ^ (i mod 8) ≤ 2 ^ 7) by (apply Z.pow_le_mono_r; lia). lia.
Qed.

Lemma byte_index i : 0 ≤ i < 64 → (Z.to_nat (Z.shiftr i 3) < 8)%nat.
Proof.
  intros Hi. rewrite Z.shiftr_div_pow2 by done. change (2 ^ 3) with 8.
  assert (0 ≤ i / 8 < 8) by (split; [apply Z.div_pos | apply Z.div_lt_upper_bound]; lia).
  lia.
Qed.

(** Inside the array, [getBit] reads the bit. *)
Lemma getBit_spec (a : bitarray) i :
  length a = 8%nat → 0 ≤ i < 64 → getBit a i = Some (bit_at a i).
Proof.
  intros Hlen Hi. unfold getBit, bit_at.
  replace (i / 8) with (Z.shiftr i 3) by (by rewrite Z.shiftr_div_pow2).
  destruct (lookup_lt_is_Some_2 a (Z.to_nat (Z.shiftr i 3))) as [byte Hbyte].
  { rewrite Hlen. by apply byte_index. }
  rewrite Hbyte. simpl. f_equal.
  rewrite bit_mask_pow2 by lia.
  assert (0 ≤ i mod 8) by (apply Z.mod_pos_bound; lia).
  rewrite land_pow2 by done.
  destruct (Z.testbit byte (i mod 8)); [|done].
  destruct (Z.eqb_spec (2 ^ (i mod 8)) 0) as [Heq|]; [|done].
  assert (0 < 2 ^ (i mod 8)) by (apply Z.pow_pos_nonneg; lia). lia.
Qed.

(** Past the 64th bit there is no byte to read or write. *)
Lemma getBit_fault (a : bitarray) i :
  length a = 8%nat → 64 ≤ i → getBit a i = None.
Proof.
  intros Hlen Hi. unfold getBit.
  rewrite lookup_ge_None_2; [done|].
  rewrite Hlen, Z.shiftr_div_pow2 by done. change (2 ^ 3) with 8.
  assert (8 ≤ i / 8) by (apply Z.div_le_lower_bound; lia). lia.
Qed.

Lemma setBit_fault (a : bitarray) i v :
  length a = 8%nat → 64 ≤ i → setBit a i v = None.
Proof.
  intros Hlen Hi. unfold setBit.
  rewrite lookup_ge_None_2; [done|].
  rewrite Hlen, Z.shiftr_div_pow2 by done. change (2 ^ 3) with 8.
  assert (8 ≤ i / 8) by (apply Z.div_le_lower_bound; lia). lia.
Qed.

(** A write that succeeds was inside the array and keeps its size. *)
Lemma setBit_Some (a a' : bitarray) i v :
  length a = 8%nat → 0 ≤ i → setBit a i v = Some a' →
  i < 64 ∧ length a' = 8%nat.
Proof.
  intros Hlen Hi Hset. split.
  - destruct (Z.lt_ge_cases i 64) as [|Hge]; [done|].
    by rewrite setBit_fault in Hset.
  - unfold setBit in Hset.
    destruct (a !! Z.to_nat (Z.shiftr i 3)); simplify_eq/=.
    by rewrite length_insert.
Qed.

Lemma setBit_total (a : bitarray) i v :
  length a = 8%nat → 0 ≤ i < 64 → is_Some (setBit a i v).
Proof.
  intros Hlen Hi. unfold setBit.
  destruct (lookup_lt_is_Some_2 a (Z.to_nat (Z.shiftr i 3))) as [byte Hbyte].
  { rewrite Hlen. by apply byte_index. }
  rewrite Hbyte. by eexists.
Qed.

(** ** BCD extraction *)

Lemma ExtractBCD_loop_spec (a : bitarray) msbit :
  length a = 8%nat → 1 ≤ msbit →
  ∀ ws pre post fuel bit result,
    BCD = pre ++ ws ++ post →
    Z.of_nat (length ws) = bit - msbit + 1 → bit ≤ 63 →
    (length ws < fuel)%nat →
    Forall (λ w, 0 ≤ w) ws → 0 ≤ result → result + total ws ≤ 255 →
    ExtractBCD_loop fuel a msbit bit (Z.of_nat (length pre)) result
    = Some (result + bcd_sum a bit ws).
Proof.
  intros Hlen Hms ws.
  induction ws as [|w ws IH]; intros pre post fuel bit result HBCD Hn Hbit Hfuel Hpos Hres Hsum.
  - destruct fuel as [|fuel]; [simpl in Hfuel; lia|].
    simpl in *. destruct (Z.leb_spec msbit bit); [lia|]. f_equal. lia.
  - destruct fuel as [|fuel]; [simpl in Hfuel; lia|].
    apply Forall_cons in Hpos as [Hw Hpos].
    cbn [ExtractBCD_loop bcd_sum]. cbn [length total foldr] in *.
    fold (total ws) in Hsum.
    assert (0 ≤ total ws) as Htot.
    { clear -Hpos. induction Hpos; simpl; [done|]. unfold total in *. simpl. lia. }
    destruct (Z.leb_spec msbit bit); [|lia].
    rewrite getBit_spec by (done || lia). simpl.
    assert (BCD !! Z.to_nat (Z.of_nat (length pre)) = Some w) as ->.
    { rewrite Nat2Z.id, HBCD. by apply (list_lookup_middle pre (ws ++ post)). }
    assert (u8 (bit - 1) = bit - 1) as -> by (apply u8_small; lia).
    assert (length pre < 8)%nat as Hpre.
    { apply (f_equal length) in HBCD. rewrite !length_app in HBCD. simpl in HBCD. lia. }
    assert (u8 (Z.of_nat (length pre) + 1) = Z.of_nat (length (pre ++ [w]))) as ->.
    { rewrite length_app. simpl. rewrite u8_small; lia. }
    destruct (bit_at a bit); simpl.
    + rewrite u8_small by lia.
      rewrite (IH (pre ++ [w]) post); try done; try lia.
      * f_equal. lia.
      * by rewrite <- app_assoc.
    + rewrite (IH (pre ++ [w]) post); try done; try lia.
      by rewrite <- app_assoc.
Qed.

Lemma bcd_sum_code_sum (a : bitarray) c ws :
  ∀ bit i,
    (∀ j, 0 ≤ j < Z.of_nat (length ws) → bit_at a (bit - j) = Z.testbit c (i + j)) →
    bcd_sum a bit ws = code_sum c i ws.
Proof.
  induction ws as [|w ws IH]; intros bit i Hbits; [done|].
  simpl. rewrite (IH (bit - 1) (i + 1)).
  - specialize (Hbits 0). rewrite Z.sub_0_r, Z.add_0_r in Hbits.
    rewrite Hbits; [done|]. simpl. lia.
  - intros j Hj. replace (bit - 1 - j) with (bit - (j + 1)) by lia.
    replace (i + 1 + j) with (i + (j + 1)) by lia.
    apply Hbits. simpl. lia.
Qed.

(** A two-digit BCD code that fits the field decodes to its decimal value. *)
Lemma code_sum_bcd (k : nat) tens units :
  (k ≤ 8)%nat → 0 ≤ tens ≤ 9 → 0 ≤ units ≤ 9 →
  16 * tens + units < 2 ^ Z.of_nat k →
  code_sum (16 * tens + units) 0 (take k BCD) = 10 * tens + units.
Proof.
  intros Hk Ht Hu.
  assert (Hten : ∀ x, 0 ≤ x ≤ 9 →
            x = 0 ∨ x = 1 ∨ x = 2 ∨ x = 3 ∨ x = 4 ∨
            x = 5 ∨ x = 6 ∨ x = 7 ∨ x = 8 ∨ x = 9) by (intros; lia).
  destruct k as [|[|[|[|[|[|[|[|[|k]]]]]]]]]; try lia;
    (destruct (Hten tens Ht) as [->|[->|[->|[->|[->|[->|[->|[->|[->| ->]]]]]]]]];
     destruct (Hten units Hu) as [->|[->|[->|[->|[->|[->|[->|[->|[->| ->]]]]]]]]];
     vm_compute; first [ reflexivity | intros Hc; discriminate Hc | done ]).
Qed.

Lemma BCD_take_bounds (k : nat) :
  Forall (λ w, 0 ≤ w) (take k BCD) ∧ total (take k BCD) ≤ 255.
Proof.
  destruct k as [|[|[|[|[|[|[|[|[|k]]]]]]]]]; vm_compute;
    (split; [ repeat constructor; discriminate | discriminate ]).
Qed.

(** Inside the array and for at most eight bits from bit 1 up,
    [ExtractBCD] returns the weighted sum of the range. *)
Lemma ExtractBCD_sum (a : bitarray) (msbit lsbit : Z) :
  length a = 8%nat →
  1 ≤ msbit → msbit ≤ lsbit → lsbit ≤ 63 → lsbit - msbit < 8 →
  ExtractBCD a msbit lsbit
  = Some (bcd_sum a lsbit (take (Z.to_nat (lsbit - msbit + 1)) BCD)).
Proof.
  intros Hlen Hms Hle Hls Hwidth.
  set (k := Z.to_nat (lsbit - msbit + 1)).
  assert (length (take k BCD) = k) as Hk.
  { rewrite length_take. change (length BCD) with 8%nat. lia. }
  unfold ExtractBCD.
  destruct (BCD_take_bounds k) as [Hpos Htot].
  rewrite <- (Z.add_0_l (bcd_sum a lsbit (take k BCD))).
  apply (ExtractBCD_loop_spec a msbit Hlen Hms (take k BCD) [] (drop k BCD)
           loop_fuel lsbit 0); try done.
  - simpl. by rewrite take_drop.
  - rewrite Hk. lia.
  - rewrite Hk. unfold loop_fuel. lia.
Qed.

(** C5.  For a bit range [msbit..lsbit] of at most eight bits inside the
    array (bit 0 is not part of a frame), [ExtractBCD] returns the sum
    that starts at [lsbit] with weight 1 and goes down to [msbit] through
    the weights 1, 2, 4, 8, 10, 20, 40, 80; so when the range holds the
    two-nibble BCD code of [10 * tens + units], it returns that value. *)
Theorem ExtractBCD_correct (a : bitarray) (msbit lsbit : Z) :
  length a = 8%nat →
  1 ≤ msbit → msbit ≤ lsbit → lsbit ≤ 63 → lsbit - msbit < 8 →
  ExtractBCD a msbit lsbit
  = Some (bcd_sum a lsbit (take (Z.to_nat (lsbit - msbit + 1)) BCD)) ∧
  ∀ tens units,
    0 ≤ tens ≤ 9 → 0 ≤ units ≤ 9 →
    16 * tens + units < 2 ^ (lsbit - msbit + 1) →
    (∀ i, 0 ≤ i ≤ lsbit - msbit →
          bit_at a (lsbit - i) = Z.testbit (16 * tens + units) i) →
    ExtractBCD a msbit lsbit = Some (10 * tens + units).
Proof.
  intros Hlen Hms Hle Hls Hwidth.
  pose proof (ExtractBCD_sum a msbit lsbit Hlen Hms Hle Hls Hwidth) as Hsum.
  split; [done|].
  intros tens units Ht Hu Hfit Hbits. rewrite Hsum. f_equal.
  set (k := Z.to_nat (lsbit - msbit + 1)).
  assert (length (take k BCD) = k) as Hk.
  { rewrite length_take. change (length BCD) with 8%nat. lia. }
  rewrite (bcd_sum_code_sum a (16 * tens + units) (take k BCD) lsbit 0).
  - apply code_sum_bcd; try done; [lia|].
    replace (Z.of_nat k) with (lsbit - msbit + 1) by lia. done.
  - intros j Hj. rewrite Hk in Hj. apply Hbits. lia.
Qed.

(** The year 24 in A17..A24: tens nibble 0010, units nibble 0100. *)
Lemma ExtractBCD_correct_witness :
  ExtractBCD [0; 0; 72; 0; 0; 0; 0; 0] 17 24 = Some 24.
Proof.
  apply (proj2 (ExtractBCD_correct [0; 0; 72; 0; 0; 0; 0; 0] 17 24
                  eq_refl ltac:(lia) ltac:(lia) ltac:(lia) ltac:(lia)) 2 4);
    [lia | lia | reflexivity | ].
  intros i Hi.
  assert (i = 0 ∨ i = 1 ∨ i = 2 ∨ i = 3 ∨ i = 4 ∨ i = 5 ∨ i = 6 ∨ i = 7)
    as [->|[->|[->|[->|[->|[->|[->| ->]]]]]]] by lia; reflexivity.
Defined.

(** ** Parity and frame validation *)

Lemma land_1_odd x : negb (Z.land x 1 =? 0) = Z.odd x.
Proof.
  change 1 with (2 ^ 0) at 1. rewrite land_pow2 by done.
  rewrite Z.bit0_odd. by destruct (Z.odd x).
Qed.

Lemma count_set_bounds (a : bitarray) n : ∀ from, 0 ≤ count_set a from n ≤ Z.of_nat n.
Proof.
  induction n as [|n IH]; intros from; simpl; [lia|].
  specialize (IH (from + 1)). destruct (bit_at a from); lia.
Qed.

Lemma CheckOddParity_loop_spec (a : bitarray) :
  length a = 8%nat →
  ∀ (n fuel : nat) from numset,
    0 ≤ from → from + Z.of_nat n ≤ 64 → (n < fuel)%nat →
    0 ≤ numset → numset + Z.of_nat n < 2 ^ 32 →
    CheckOddParity_loop fuel a from (from + Z.of_nat n - 1) numset
    = Some (numset + count_set a from n).
Proof.
  intros Hlen n.
  induction n as [|n IH]; intros fuel from numset Hfrom Hto Hfuel Hnum Hmax;
    (destruct fuel as [|fuel]; [lia|]); cbn [CheckOddParity_loop count_set].
  - destruct (Z.leb_spec from (from + Z.of_nat 0 - 1)); [lia|]. f_equal. lia.
  - destruct (Z.leb_spec from (from + Z.of_nat (S n) - 1)); [|lia].
    rewrite getBit_spec by (done || lia). simpl.
    change (2 ^ 32) with 4294967296 in *.
    rewrite (u32_small (from + 1)) by (change (2 ^ 32) with 4294967296; lia).
    replace (from + Z.of_nat (S n) - 1) with (from + 1 + Z.of_nat n - 1) by lia.
    destruct (bit_at a from).
    + rewrite (u32_small (numset + 1)) by (change (2 ^ 32) with 4294967296; lia).
      rewrite IH by lia. f_equal. lia.
    + rewrite IH by lia. f_equal; lia.
Qed.

(** Inside the array [CheckOddParity] is the parity of the group. *)
Lemma CheckOddParity_spec (a : bitarray) from to parity :
  length a = 8%nat → 0 ≤ from → from ≤ to → to ≤ 63 →
  CheckOddParity a from to parity = Some (odd_parity a from to parity).
Proof.
  intros Hlen Hfrom Hle Hto. unfold CheckOddParity, odd_parity.
  set (n := Z.to_nat (to - from + 1)).
  rewrite !u32_small by (change (2 ^ 32) with 4294967296; lia).
  replace to with (from + Z.of_nat n - 1) at 1 by lia.
  rewrite CheckOddParity_loop_spec;
    [ | done | lia | lia | unfold loop_fuel; lia | lia
      | change (2 ^ 32) with 4294967296; lia ].
  simpl. f_equal. pose proof (count_set_bounds a n from).
  destruct parity.
  - rewrite u32_small by (change (2 ^ 32) with 4294967296; lia).
    apply land_1_odd.
  - rewrite Z.add_0_r. apply land_1_odd.
Qed.

Lemma ValidateBCD_ones_spec (A : bitarray) :
  length A = 8%nat →
  ∀ (n fuel : nat) i,
    0 ≤ i → i + Z.of_nat n = 59 → (n < fuel)%nat →
    ValidateBCD_ones fuel A i = Some (first_clear A i n).
Proof.
  intros Hlen n.
  induction n as [|n IH]; intros fuel i Hi Hn Hfuel;
    (destruct fuel as [|fuel]; [lia|]); cbn [ValidateBCD_ones first_clear].
  - destruct (Z.leb_spec i 58); [lia|done].
  - destruct (Z.leb_spec i 58); [|lia].
    rewrite getBit_spec by (done || lia). simpl.
    destruct (bit_at A i); [|done].
    rewrite u32_small by (change (2 ^ 32) with 4294967296; lia).
    apply IH; lia.
Qed.

Lemma first_clear_53 (A : bitarray) :
  first_clear A 53 6 =
  if bit_at A 53 then if bit_at A 54 then if bit_at A 55 then
  if bit_at A 56 then if bit_at A 57 then if bit_at A 58 then None
  else Some 58 else Some 57 else Some 56 else Some 55 else Some 54 else Some 53.
Proof. reflexivity. Qed.

Lemma mbind_Some {T U : Type} (x : T) (f : T → option U) : Some x ≫= f = f x.
Proof. reflexivity. Qed.

Local Ltac bind_step := rewrite ?mbind_Some; cbn [negb]; cbv beta iota.

(** [ValidateBCD] applies the rules in order and logs the first that fails. *)
Lemma ValidateBCD_log_spec (A B : bitarray) :
  length A = 8%nat → length B = 8%nat →
  ValidateBCD_log A B
  = Some (match first_failure (frame_checks A B) with
          | Some e => inl e
          | None => inr tt
          end).
Proof.
  intros HA HB. unfold ValidateBCD_log, frame_checks. cbn [first_failure].
  rewrite (getBit_spec A 52) by (done || lia). bind_step.
  destruct (bit_at A 52); bind_step; [done|].
  rewrite (ValidateBCD_ones_spec A HA 6 loop_fuel 53)
    by (unfold loop_fuel; lia).
  bind_step. rewrite first_clear_53.
  destruct (bit_at A 53); [|done]. destruct (bit_at A 54); [|done].
  destruct (bit_at A 55); [|done]. destruct (bit_at A 56); [|done].
  destruct (bit_at A 57); [|done]. destruct (bit_at A 58); [|done].
  rewrite (getBit_spec A 59) by (done || lia). bind_step.
  destruct (bit_at A 59); bind_step; [done|].
  rewrite (getBit_spec B 54) by (done || lia). bind_step.
  rewrite CheckOddParity_spec by (done || lia). bind_step.
  destruct (odd_parity A 17 24 _); bind_step; [|done].
  rewrite (getBit_spec B 55) by (done || lia). bind_step.
  rewrite CheckOddParity_spec by (done || lia). bind_step.
  destruct (odd_parity A 25 35 _); bind_step; [|done].
  rewrite (getBit_spec B 56) by (done || lia). bind_step.
  rewrite CheckOddParity_spec by (done || lia). bind_step.
  destruct (odd_parity A 36 38 _); bind_step; [|done].
  rewrite (getBit_spec B 57) by (done || lia). bind_step.
  rewrite CheckOddParity_spec by (done || lia). bind_step.
  by destruct (odd_parity A 39 51 _).
Qed.

Lemma frame_valid_first_failure (A B : bitarray) :
  frame_valid A B ↔ first_failure (frame_checks A B) = None.
Proof.
  unfold frame_valid, frame_checks. cbn [first_failure]. split.
  - intros (H52 & Hones & H59 & H1 & H2 & H3 & H4).
    rewrite H52, H59, H1, H2, H3, H4, !Hones by lia. done.
  - intros H.
    destruct (bit_at A 52); [done|].
    destruct (bit_at A 53) eqn:H53; [|done].
    destruct (bit_at A 54) eqn:H54; [|done].
    destruct (bit_at A 55) eqn:H55; [|done].
    destruct (bit_at A 56) eqn:H56; [|done].
    destruct (bit_at A 57) eqn:H57; [|done].
    destruct (bit_at A 58) eqn:H58; [|done].
    destruct (bit_at A 59); [done|].
    destruct (odd_parity A 17 24 _); [|done].
    destruct (odd_parity A 25 35 _); [|done].
    destruct (odd_parity A 36 38 _); [|done].
    destruct (odd_parity A 39 51 _); [|done].
    repeat split; try done.
    intros i Hi.
    assert (i = 53 ∨ i = 54 ∨ i = 55 ∨ i = 56 ∨ i = 57 ∨ i = 58)
      as [->|[->|[->|[->|[->| ->]]]]] by lia; done.
Qed.

(** On the two 8-byte arrays [ValidateBCD] returns. *)
Lemma ValidateBCD_total (A B : bitarray) :
  length A = 8%nat → length B = 8%nat → is_Some (ValidateBCD A B).
Proof.
  intros HA HB. unfold ValidateBCD.
  rewrite ValidateBCD_log_spec by done. by eexists.
Qed.

(** C2.  On the two 8-byte arrays [ValidateBCD] returns, and its answer
    is [true] exactly when A52 = 0, A53..A58 are all 1, A59 = 0 and the
    four groups with their parity bits B54..B57 each hold an odd number
    of set bits; the rules are applied in that order, and the rule
    reported is the first one that fails. *)
Theorem ValidateBCD_correct (A B : bitarray) :
  length A = 8%nat → length B = 8%nat →
  (∃ b, ValidateBCD A B = Some b ∧ (b = true ↔ frame_valid A B)) ∧
  ValidateBCD_log A B
  = Some (match first_failure (frame_checks A B) with
          | Some e => inl e
          | None => inr tt
          end).
Proof.
  intros HA HB. split; [|by apply ValidateBCD_log_spec].
  unfold ValidateBCD. rewrite ValidateBCD_log_spec by done. bind_step.
  eexists. split; [done|].
  rewrite frame_valid_first_failure.
  by destruct (first_failure _).
Qed.

(** ** Notification and frame decoding *)

Arguments getBit : simpl never.
Arguments setBit : simpl never.
Arguments GetWidth : simpl never.
Arguments ExtractBCD : simpl never.
Arguments CheckOddParity : simpl never.
Arguments ValidateBCD_log : simpl never.
Arguments ValidateBCD : simpl never.

Lemma ClientEventNotify_spec ev st :
  delivered (ClientEventNotify ev st) = notified ev st ++ delivered st ∧
  LocalDateTime (ClientEventNotify ev st) = LocalDateTime st ∧
  client_mem (ClientEventNotify ev st) = client_mem st ∧
  same_sync_state st (ClientEventNotify ev st).
Proof.
  destruct st. unfold ClientEventNotify, notified, same_sync_state. simpl.
  destruct pfClientEventCallback0; [|done].
  by destruct (Z.land _ _ =? 0).
Qed.

(** The seven fields of a frame are always inside the arrays. *)
Lemma ExtractBCD_field (a : bitarray) msbit lsbit :
  length a = 8%nat →
  (msbit, lsbit) ∈ [ (17, 24); (25, 29); (30, 35); (36, 38); (39, 44); (45, 51); (58, 58) ] →
  is_Some (ExtractBCD a msbit lsbit).
Proof.
  intros Hlen Hin.
  assert (1 ≤ msbit ∧ msbit ≤ lsbit ∧ lsbit ≤ 63 ∧ lsbit - msbit < 8) as (?&?&?&?).
  { repeat (apply elem_of_cons in Hin as [Heq | Hin];
            [ inversion Heq; subst; lia | ]).
    by apply elem_of_nil in Hin. }
  rewrite ExtractBCD_sum by done. by eexists.
Qed.

Local Ltac field_in :=
  repeat first [ apply list_elem_of_here | apply list_elem_of_further ].

(** C4.  When the frame in the arrays passes validation, [DecodeFrame]
    returns [true]; the seven fields of the stored date/time are what
    [ExtractBCD] yields on A17..24, A25..29, A30..35, A36..38, A39..44,
    A45..51 and B58; both flags are set; the whole structure is written
    to the client's buffer when one is registered; and a notification of
    [MSF_EVENT_DATETIME_UPDATED] is made. *)
Theorem DecodeFrame_valid (st : decoder) :
  length (A_bits st) = 8%nat → length (B_bits st) = 8%nat →
  ValidateBCD (A_bits st) (B_bits st) = Some true →
  ∃ st',
    DecodeFrame st = Some (true, st') ∧
    ExtractBCD (A_bits st) 17 24 = Some (Year (LocalDateTime st')) ∧
    ExtractBCD (A_bits st) 25 29 = Some (Month (LocalDateTime st')) ∧
    ExtractBCD (A_bits st) 30 35 = Some (Day (LocalDateTime st')) ∧
    ExtractBCD (A_bits st) 36 38 = Some (DOW (LocalDateTime st')) ∧
    ExtractBCD (A_bits st) 39 44 = Some (Hour (LocalDateTime st')) ∧
    ExtractBCD (A_bits st) 45 51 = Some (Minute (LocalDateTime st')) ∧
    ExtractBCD (B_bits st) 58 58 = Some (DST (LocalDateTime st')) ∧
    bHasValidTime (LocalDateTime st') = true ∧
    bDateTimeUpdated (LocalDateTime st') = true ∧
    client_mem st' = match pClientDateTime st with
                     | Some p => <[ p := LocalDateTime st' ]> (client_mem st)
                     | None => client_mem st
                     end ∧
    delivered st' = notified MSF_EVENT_DATETIME_UPDATED st ++ delivered st ∧
    same_sync_state st st'.
Proof.
  intros HA HB Hvalid. unfold DecodeFrame. rewrite Hvalid, mbind_Some.
  destruct (ExtractBCD_field (A_bits st) 17 24 HA) as [year ->]; [field_in|].
  destruct (ExtractBCD_field (A_bits st) 25 29 HA) as [month ->]; [field_in|].
  destruct (ExtractBCD_field (A_bits st) 30 35 HA) as [day ->]; [field_in|].
  destruct (ExtractBCD_field (A_bits st) 36 38 HA) as [dow ->]; [field_in|].
  destruct (ExtractBCD_field (A_bits st) 39 44 HA) as [hour ->]; [field_in|].
  destruct (ExtractBCD_field (A_bits st) 45 51 HA) as [minute ->]; [field_in|].
  destruct (ExtractBCD_field (B_bits st) 58 58 HB) as [dst ->]; [field_in|].
  rewrite !mbind_Some. eexists. split; [reflexivity|].
  match goal with |- context [ ClientEventNotify ?ev ?s ] =>
    destruct (ClientEventNotify_spec ev s) as (Hd & Hl & Hm & Hs)
  end.
  rewrite Hd, Hl, Hm. clear Hd Hl Hm.
  unfold same_sync_state in *. unfold notified.
  destruct st. simpl in *. destruct Hs as (?&?&?&?&?&?&?&?&?&?&?&?&?&?).
  destruct pClientDateTime0; simpl in *; repeat split; assumption || reflexivity.
Qed.

(** C6.  When the frame fails validation, [DecodeFrame] returns [false]
    and leaves the whole state as it was: no field is extracted, so the
    stored date/time keeps its members and its two flags, the client's
    memory is not written, and no call is made to the callback. *)
Theorem DecodeFrame_invalid (st : decoder) :
  ValidateBCD (A_bits st) (B_bits st) = Some false →
  ∃ st',
    DecodeFrame st = Some (false, st') ∧
    st' = st ∧
    LocalDateTime st' = LocalDateTime st ∧
    client_mem st' = client_mem st ∧
    delivered st' = delivered st.
Proof.
  intros Hinvalid. unfold DecodeFrame. rewrite Hinvalid, mbind_Some.
  by exists st.
Qed.

(** The 59 seconds of scenario A between two minute markers are decoded
    into the date and time they carry, stored, copied to the client's
    buffer and announced. *)
Example scenario_A_decodes :
  ∃ st, run (power_on ∅) scenario_A = Some st ∧
        A_bits st = scenario_A_A_bits ∧ B_bits st = scenario_A_B_bits ∧
        MSF_GetSyncState st = true ∧
        LocalDateTime st
        = {| bHasValidTime := true; bDateTimeUpdated := true;
             Year := 24; Month := 5; Day := 28; Hour := 14; Minute := 37;
             DOW := 2; DST := 0 |} ∧
        client_mem st !! 1%positive = Some (LocalDateTime st) ∧
        delivered st = [ (2%positive, MSF_EVENT_DATETIME_UPDATED);
                         (2%positive, MSF_EVENT_SYNC);
                         (2%positive, MSF_EVENT_SYNC);
                         (2%positive, MSF_EVENT_SYNC_LOST) ].
Proof. eexists. split; [vm_compute; reflexivity|]. by vm_compute. Qed.

Lemma ValidateBCD_correct_witness :
  length scenario_A_A_bits = 8%nat ∧ length scenario_A_B_bits = 8%nat ∧
  (∃ b, ValidateBCD scenario_A_A_bits scenario_A_B_bits = Some b ∧
        (b = true ↔ frame_valid scenario_A_A_bits scenario_A_B_bits)) ∧
  ValidateBCD_log scenario_A_A_bits scenario_A_B_bits
  = Some (match first_failure (frame_checks scenario_A_A_bits scenario_A_B_bits) with
          | Some e => inl e
          | None => inr tt
          end).
Proof.
  split; [reflexivity|]. split; [reflexivity|].
  apply (ValidateBCD_correct scenario_A_A_bits scenario_A_B_bits);
    reflexivity.
Defined.

Lemma DecodeFrame_valid_witness :
  let st := holding scenario_A_A_bits scenario_A_B_bits in
  ValidateBCD (A_bits st) (B_bits st) = Some true ∧
  ∃ st',
    DecodeFrame st = Some (true, st') ∧
    ExtractBCD (A_bits st) 17 24 = Some (Year (LocalDateTime st')) ∧
    ExtractBCD (A_bits st) 25 29 = Some (Month (LocalDateTime st')) ∧
    ExtractBCD (A_bits st) 30 35 = Some (Day (LocalDateTime st')) ∧
    ExtractBCD (A_bits st) 36 38 = Some (DOW (LocalDateTime st')) ∧
    ExtractBCD (A_bits st) 39 44 = Some (Hour (LocalDateTime st')) ∧
    ExtractBCD (A_bits st) 45 51 = Some (Minute (LocalDateTime st')) ∧
    ExtractBCD (B_bits st) 58 58 = Some (DST (LocalDateTime st')) ∧
    bHasValidTime (LocalDateTime st') = true ∧
    bDateTimeUpdated (LocalDateTime st') = true ∧
    client_mem st' = match pClientDateTime st with
                     | Some p => <[ p := LocalDateTime st' ]> (client_mem st)
                     | None => client_mem st
                     end ∧
    delivered st' = notified MSF_EVENT_DATETIME_UPDATED st ++ delivered st ∧
    same_sync_state st st'.
Proof.
  intros st. split; [vm_compute; reflexivity|].
  apply (DecodeFrame_valid st); [reflexivity | reflexivity | vm_compute; reflexivity].
Defined.

Lemma DecodeFrame_invalid_witness :
  let st := holding (replicate 8 0) (replicate 8 0) in
  ValidateBCD (A_bits st) (B_bits st) = Some false ∧
  ∃ st',
    DecodeFrame st = Some (false, st') ∧
    st' = st ∧
    LocalDateTime st' = LocalDateTime st ∧
    client_mem st' = client_mem st ∧
    delivered st' = delivered st.
Proof.
  intros st. split; [vm_compute; reflexivity|].
  apply (DecodeFrame_invalid st). vm_compute; reflexivity.
Defined.

(** ** The edge handler *)

Arguments DecodeFrame : simpl never.
Arguments u32 : simpl never.
Arguments notified : simpl never.

Lemma mbind_None {T U : Type} (f : T → option U) : None ≫= f = None.
Proof. reflexivity. Qed.

(** A notification only adds to the calls made to the callback. *)
Lemma ClientEventNotify_eq ev st :
  ClientEventNotify ev st = set_delivered (notified ev st ++ delivered st) st.
Proof.
  destruct st as [? ? ? ? ? [cb|] m ? ? ? ? ? ? ? ? ? ?];
    unfold ClientEventNotify, notified; cbn; [|done].
  by destruct (Z.land m _ =? 0).
Qed.

(** [DecodeFrame] touches neither the arrays nor the sync state. *)
Lemma DecodeFrame_same_sync st r :
  DecodeFrame st = Some r → same_sync_state st r.2.
Proof.
  unfold DecodeFrame. intros H.
  destruct (ValidateBCD _ _) as [[|]|];
    rewrite ?mbind_Some, ?mbind_None in H; [| | done].
  - repeat match type of H with
           | context [ ExtractBCD ?a ?m ?l ≫= _ ] =>
               destruct (ExtractBCD a m l);
               rewrite ?mbind_Some, ?mbind_None in H; [|done]
           end.
    injection H as <-.
    match goal with |- context [ ClientEventNotify ?ev ?s ] =>
      destruct (ClientEventNotify_spec ev s) as (_ & _ & _ & Hs)
    end.
    unfold same_sync_state in *.
    destruct st as [? ? ? ? [p|] ? ? ? ? ? ? ? ? ? ? ? ?]; simpl in *; done.
  - injection H as <-. by unfold same_sync_state.
Qed.

(** On the two 8-byte arrays [DecodeFrame] returns. *)
Lemma DecodeFrame_total st :
  length (A_bits st) = 8%nat → length (B_bits st) = 8%nat →
  is_Some (DecodeFrame st).
Proof.
  intros HA HB. unfold DecodeFrame.
  destruct (ValidateBCD_total _ _ HA HB) as [[|] ->]; rewrite mbind_Some;
    [|by eexists].
  destruct (ExtractBCD_field (A_bits st) 17 24 HA) as [year ->]; [field_in|].
  destruct (ExtractBCD_field (A_bits st) 25 29 HA) as [month ->]; [field_in|].
  destruct (ExtractBCD_field (A_bits st) 30 35 HA) as [day ->]; [field_in|].
  destruct (ExtractBCD_field (A_bits st) 36 38 HA) as [dow ->]; [field_in|].
  destruct (ExtractBCD_field (A_bits st) 39 44 HA) as [hour ->]; [field_in|].
  destruct (ExtractBCD_field (A_bits st) 45 51 HA) as [minute ->]; [field_in|].
  destruct (ExtractBCD_field (B_bits st) 58 58 HB) as [dst ->]; [field_in|].
  rewrite !mbind_Some. by eexists.
Qed.

(** Opening the binds of a handler branch that returned, one at a time. *)
Local Ltac open_binds :=
  repeat (match goal with
          | H : (_ ≫= _) = Some _ |- _ => apply bind_Some in H as (? & ? & H)
          | H : (if ?c then _ else _) = Some _ |- _ => destruct c eqn:?
          | H : Some _ = Some _ |- _ => injection H as H; subst
          | H : None = Some _ |- _ => discriminate H
          | H : setBit _ _ _ = Some _ |- _ =>
              apply setBit_Some in H as [? ?]; [ | assumption | lia ]
          | H : DecodeFrame _ = Some ?r |- _ =>
              apply DecodeFrame_same_sync in H;
              destruct r as [? []]; unfold same_sync_state in H;
              destruct H as (?&?&?&?&?&?&?&?&?&?&?&?&?&?)
          end; cbn in * ).

Local Ltac close_inv :=
  cbn; rewrite ?u32_small by (change (2 ^ 32) with 4294967296; lia);
  repeat split; first [ done | lia | congruence ].

Lemma HandleCarrierEvent_OFF_inv st t st' :
  cursor_inv st → HandleCarrierEvent_OFF st t = Some st' → cursor_inv st'.
Proof.
  unfold cursor_inv. intros (HA & HB & Hn & Hu) H.
  unfold HandleCarrierEvent_OFF in H.
  destruct st as [sf a b dt pc cb m ton toff won woff tc n hs rn cm ev].
  cbn in HA, HB, Hn, Hu.
  destruct sf; cbn in H; destruct (GetWidth (u32 (t - ton))); cbn in H;
    unfold setBit_A, setBit_B, incr_nBitNum in H;
    rewrite ?ClientEventNotify_eq in H; cbn in H;
    open_binds; try close_inv.
Qed.

Lemma HandleCarrierEvent_ON_inv st t st' :
  cursor_inv st → HandleCarrierEvent_ON st t = Some st' → cursor_inv st'.
Proof.
  unfold cursor_inv. intros (HA & HB & Hn & Hu) H.
  unfold HandleCarrierEvent_ON in H.
  destruct st as [sf a b dt pc cb m ton toff won woff tc n hs rn cm ev].
  cbn in HA, HB, Hn, Hu.
  destruct sf; cbn in H; destruct (GetWidth (u32 (t - tc))); cbn in H;
    unfold setBit_A, setBit_B in H; cbn in H;
    open_binds; try close_inv.
Qed.

Lemma HandleCarrierEvent_resync_inv st :
  cursor_inv st → cursor_inv (HandleCarrierEvent_resync st).
Proof.
  unfold cursor_inv, HandleCarrierEvent_resync. intros (HA & HB & Hn & Hu).
  rewrite ClientEventNotify_eq.
  destruct st as [sf a b dt pc cb m ton toff won woff tc n hs [|] cm ev];
    cbn in *; repeat split; first [ done | lia ].
Qed.

Lemma HandleCarrierEvent_inv st l t st' :
  cursor_inv st → HandleCarrierEvent st l t = Some st' → cursor_inv st'.
Proof.
  intros Hinv H. unfold HandleCarrierEvent in H.
  apply bind_Some in H as (st1 & Hsw & [= <-]).
  apply HandleCarrierEvent_resync_inv.
  unfold HandleCarrierEvent_switch in Hsw.
  destruct (l =? CARRIER_OFF); [by eapply HandleCarrierEvent_OFF_inv|].
  destruct (l =? CARRIER_ON); [by eapply HandleCarrierEvent_ON_inv|].
  injection Hsw as <-. unfold cursor_inv in *. by destruct st.
Qed.

Lemma step_inv st i st' : cursor_inv st → step st i = Some st' → cursor_inv st'.
Proof.
  destruct i as [l t|[p|]|cb m|p v]; cbn; intros Hinv H.
  - by eapply HandleCarrierEvent_inv.
  - injection H as <-. unfold cursor_inv in *. by destruct st.
  - injection H as <-. done.
  - injection H as <-. unfold cursor_inv in *. by destruct st.
  - injection H as <-. unfold cursor_inv in *. by destruct st.
Qed.

Lemma run_inv ins :
  ∀ st st', cursor_inv st → run st ins = Some st' → cursor_inv st'.
Proof.
  induction ins as [|i ins IH]; intros st st' Hinv H; cbn in H.
  - by injection H as <-.
  - apply bind_Some in H as (st1 & Hstep & H).
    eapply IH; [|done]. by eapply step_inv.
Qed.

(** Every reachable state has 8-byte arrays, a cursor between 1 and 64,
    and the cursor at 1 while not SYNCED. *)
Lemma reachable_inv st : reachable st → cursor_inv st.
Proof.
  intros (mem & ins & H). eapply run_inv; [|done].
  unfold cursor_inv. cbn. repeat split; (done || lia).
Qed.

Lemma HandleCarrierEvent_resync_cursor st :
  nBitNum st = 1 → nBitNum (HandleCarrierEvent_resync st) = 1.
Proof.
  unfold HandleCarrierEvent_resync. rewrite ClientEventNotify_eq.
  destruct st as [sf a b dt pc cb m ton toff won woff tc n hs [|] cm ev]; done.
Qed.

(** A 500 ms ON span that ends while half-sync is active: the handler
    returns, and the cursor is 1 afterwards. *)
Lemma full_sync_resets_cursor st t :
  cursor_inv st → bHalfSync st = true →
  GetWidth (u32 (t - T_LastOnStart st)) = eWidth_500 →
  ∃ st', HandleCarrierEvent st CARRIER_OFF t = Some st' ∧ nBitNum st' = 1.
Proof.
  intros (HA & HB & Hn & Hu) Hhs Hw.
  unfold HandleCarrierEvent, HandleCarrierEvent_switch, HandleCarrierEvent_OFF.
  change (CARRIER_OFF =? CARRIER_OFF) with true. cbv iota.
  destruct st as [sf a b dt pc cb m ton toff won woff tc n hs rn cm ev].
  cbn in HA, HB, Hn, Hu, Hhs, Hw. subst hs.
  destruct sf; cbn; rewrite Hw; cbn; rewrite ClientEventNotify_eq; cbn.
  all: destruct (n =? 60).
  all: try match goal with |- context [ DecodeFrame ?s ] =>
         destruct (DecodeFrame_total s) as [[ok s2] Hd]; [done|done|];
         rewrite Hd; clear Hd
       end.
  all: cbn; eexists; (split; [reflexivity|]);
    apply HandleCarrierEvent_resync_cursor; try done; by destruct s2.
Qed.

(** The switch never changes the registered callback or its mask. *)
Lemma switch_keeps_listener st l t st1 :
  HandleCarrierEvent_switch st l t = Some st1 →
  pfClientEventCallback st1 = pfClientEventCallback st ∧
  ui32ClientEventMask st1 = ui32ClientEventMask st.
Proof.
  unfold HandleCarrierEvent_switch. intros H.
  destruct st as [sf a b dt pc cb m ton toff won woff tc n hs rn cm ev].
  destruct (l =? CARRIER_OFF); [|destruct (l =? CARRIER_ON)].
  - unfold HandleCarrierEvent_OFF in H.
    destruct sf; cbn in H; destruct (GetWidth (u32 (t - ton))); cbn in H;
      unfold setBit_A, setBit_B, incr_nBitNum in H;
      rewrite ?ClientEventNotify_eq in H; cbn in H;
      open_binds; done.
  - unfold HandleCarrierEvent_ON in H.
    destruct sf; cbn in H; destruct (GetWidth (u32 (t - tc))); cbn in H;
      unfold setBit_A, setBit_B in H; cbn in H;
      open_binds; done.
  - by injection H as <-.
Qed.

Lemma notified_listener ev st st' :
  pfClientEventCallback st' = pfClientEventCallback st →
  ui32ClientEventMask st' = ui32ClientEventMask st →
  notified ev st' = notified ev st.
Proof. unfold notified. by intros -> ->. Qed.

(** The resync block: sync state cleared, SYNC_LOST notified. *)
Lemma HandleCarrierEvent_resync_spec st1 :
  bResyncNeeded st1 = true →
  nBitNum (HandleCarrierEvent_resync st1) = 1 ∧
  bHalfSync (HandleCarrierEvent_resync st1) = false ∧
  bSyncedFlag (HandleCarrierEvent_resync st1) = false ∧
  bResyncNeeded (HandleCarrierEvent_resync st1) = false ∧
  A_bits (HandleCarrierEvent_resync st1) = A_bits st1 ∧
  B_bits (HandleCarrierEvent_resync st1) = B_bits st1 ∧
  delivered (HandleCarrierEvent_resync st1)
  = notified MSF_EVENT_SYNC_LOST st1 ++ delivered st1.
Proof.
  intros Hrn. unfold HandleCarrierEvent_resync.
  rewrite Hrn, ClientEventNotify_eq. by destruct st1.
Qed.

(** ** The claims about the edge handler *)

Lemma synced_3_cells_reachable : reachable synced_3_cells.
Proof. exists ∅, synced_3_cells_inputs. by vm_compute. Qed.

(** C1.  In every reachable state the bit cursor is at least 1, and it is
    exactly 1 whenever SYNCED is false; and whenever a 500 ms ON span ends
    while half-sync is active (a full-SYNC acquisition), the handler
    returns with the cursor at 1. *)
Theorem cursor_invariant st :
  reachable st →
  1 ≤ nBitNum st ∧
  (bSyncedFlag st = false → nBitNum st = 1) ∧
  ∀ t, bHalfSync st = true →
       GetWidth (u32 (t - T_LastOnStart st)) = eWidth_500 →
       ∃ st', HandleCarrierEvent st CARRIER_OFF t = Some st' ∧ nBitNum st' = 1.
Proof.
  intros Hr. pose proof (reachable_inv st Hr) as Hinv.
  destruct Hinv as (HA & HB & Hn & Hu).
  split; [lia|]. split; [done|].
  intros t Hhs Hw. by apply full_sync_resets_cursor.
Qed.

Lemma cursor_invariant_witness :
  reachable synced_3_cells ∧
  1 ≤ nBitNum synced_3_cells ∧
  (bSyncedFlag synced_3_cells = false → nBitNum synced_3_cells = 1) ∧
  ∀ t, bHalfSync synced_3_cells = true →
       GetWidth (u32 (t - T_LastOnStart synced_3_cells)) = eWidth_500 →
       ∃ st', HandleCarrierEvent synced_3_cells CARRIER_OFF t = Some st' ∧
              nBitNum st' = 1.
Proof.
  split.
  - exists ∅, synced_3_cells_inputs. by vm_compute.
  - apply (cursor_invariant synced_3_cells).
    exists ∅, synced_3_cells_inputs. by vm_compute.
Defined.

(** C1, as claimed, fails: after the minute marker and 59 seconds the
    decoder is SYNCED with the cursor at 60, outside 1..59; 60 is the
    value the handler tests at the next marker to decode the frame. *)
Lemma cursor_reaches_60 :
  ∃ st, run (power_on ∅) (sync_preamble 1000 ++ cells_00 59 2000) = Some st ∧
        reachable st ∧
        bSyncedFlag st = true ∧ nBitNum st = 60 ∧
        ¬ (1 ≤ nBitNum st ≤ 59).
Proof.
  eexists. split; [vm_compute; reflexivity|].
  split; [|split; [done|split; [done|]]].
  - exists ∅, (sync_preamble 1000 ++ cells_00 59 2000). by vm_compute.
  - vm_compute. intros [_ H]. by apply H.
Qed.

(** C7.  When the switch of the handler leaves the resync flag set, the
    handler returns with the cursor at 1, half-sync and SYNCED cleared
    and the flag reset, and it has notified SYNC_LOST: the callback is
    called once more if it is registered with that event in its mask,
    whether or not the decoder was SYNCED before. *)
Theorem resync_clears_sync_state st l t st1 :
  HandleCarrierEvent_switch st l t = Some st1 →
  bResyncNeeded st1 = true →
  ∃ st2,
    HandleCarrierEvent st l t = Some st2 ∧
    nBitNum st2 = 1 ∧ bHalfSync st2 = false ∧ bSyncedFlag st2 = false ∧
    bResyncNeeded st2 = false ∧
    delivered st2 = notified MSF_EVENT_SYNC_LOST st ++ delivered st1.
Proof.
  intros Hsw Hrn. unfold HandleCarrierEvent. rewrite Hsw, mbind_Some.
  eexists. split; [reflexivity|].
  destruct (switch_keeps_listener _ _ _ _ Hsw) as [Hcb Hm].
  rewrite <- (notified_listener MSF_EVENT_SYNC_LOST st st1 Hcb Hm).
  destruct (HandleCarrierEvent_resync_spec st1 Hrn) as (?&?&?&?&_&_&?).
  done.
Qed.

(** An edge 450 ms into a second while SYNCED. *)
Lemma resync_clears_sync_state_witness :
  ∃ st1,
    HandleCarrierEvent_switch synced_3_cells CARRIER_ON 5450 = Some st1 ∧
    bResyncNeeded st1 = true ∧
    ∃ st2,
      HandleCarrierEvent synced_3_cells CARRIER_ON 5450 = Some st2 ∧
      nBitNum st2 = 1 ∧ bHalfSync st2 = false ∧ bSyncedFlag st2 = false ∧
      bResyncNeeded st2 = false ∧
      delivered st2
      = notified MSF_EVENT_SYNC_LOST synced_3_cells ++ delivered st1.
Proof.
  eexists. split; [vm_compute; reflexivity|]. split; [reflexivity|].
  apply (resync_clears_sync_state synced_3_cells CARRIER_ON 5450);
    [vm_compute; reflexivity | reflexivity].
Defined.

(** C7, as claimed, fails: a decoder that is not SYNCED and sees an ON
    span of invalid width resyncs, and its listener gets SYNC_LOST. *)
Lemma sync_lost_while_unsynced :
  ∃ st st',
    run (power_on ∅)
      [ EnableNotifications (Some 2%positive) 7; Edge CARRIER_OFF 1000 ] = Some st ∧
    bSyncedFlag st = false ∧
    HandleCarrierEvent st CARRIER_OFF 1450 = Some st' ∧
    delivered st' = (2%positive, MSF_EVENT_SYNC_LOST) :: delivered st.
Proof.
  eexists. eexists. split; [vm_compute; reflexivity|].
  split; [done|]. split; [vm_compute; reflexivity|]. done.
Qed.

(** C8.  [MSF_InitDecoder] leaves SYNCED, half-sync and the cursor as
    they are; they are clear (false, false, 1) when it is called on the
    statics as the program starts.  With a buffer it registers the
    buffer and zeroes the whole structure; with [NULL] it changes
    nothing. *)
Theorem MSF_InitDecoder_spec (pdata : option ptr) (st : decoder)
    (mem : gmap ptr sMSFDateTime) :
  let st' := MSF_InitDecoder pdata st in
  (bSyncedFlag st' = bSyncedFlag st ∧ bHalfSync st' = bHalfSync st ∧
   nBitNum st' = nBitNum st) ∧
  (bSyncedFlag (MSF_InitDecoder pdata (power_on mem)) = false ∧
   bHalfSync (MSF_InitDecoder pdata (power_on mem)) = false ∧
   nBitNum (MSF_InitDecoder pdata (power_on mem)) = 1) ∧
  match pdata with
  | Some p =>
      pClientDateTime st' = Some p ∧
      client_mem st' = <[ p := sMSFDateTime_zero ]> (client_mem st) ∧
      client_mem st' !! p = Some sMSFDateTime_zero
  | None => st' = st
  end.
Proof.
  destruct st as [sf a b dt pc cb m ton toff won woff tc n hs rn cm ev].
  destruct pdata as [p|]; cbn; [|done].
  split; [done|]. split; [done|]. split; [done|]. split; [done|].
  apply lookup_insert_eq.
Qed.

(** C8, as claimed, fails: called on a decoder that is SYNCED with the
    cursor at 4, [MSF_InitDecoder] leaves it SYNCED with the cursor at 4. *)
Lemma init_keeps_sync_state :
  reachable synced_3_cells ∧
  bSyncedFlag (MSF_InitDecoder (Some 1%positive) synced_3_cells) = true ∧
  bHalfSync (MSF_InitDecoder (Some 1%positive) synced_3_cells) = true ∧
  nBitNum (MSF_InitDecoder (Some 1%positive) synced_3_cells) = 4 ∧
  ¬ (bSyncedFlag (MSF_InitDecoder (Some 1%positive) synced_3_cells) = false ∧
     bHalfSync (MSF_InitDecoder (Some 1%positive) synced_3_cells) = false ∧
     nBitNum (MSF_InitDecoder (Some 1%positive) synced_3_cells) = 1).
Proof.
  split; [apply synced_3_cells_reachable|].
  split; [by vm_compute|]. split; [by vm_compute|]. split; [by vm_compute|].
  intros (H & _). vm_compute in H. discriminate H.
Qed.

(** C9.  The handler writes past the arrays: after the minute marker and
    63 seconds with no further marker the decoder is SYNCED with the
    cursor at 64, and the next edge calls [setBit] with bit 64, byte 8 of
    an 8-byte array. *)
Theorem bit_index_overrun :
  ∃ st, run (power_on ∅) (sync_preamble 1000 ++ cells_00 63 2000) = Some st ∧
        bSyncedFlag st = true ∧ nBitNum st = 64 ∧
        length (A_bits st) = 8%nat ∧
        Z.shiftr (nBitNum st) 3 = 8 ∧
        GetWidth (u32 (65100 - T_CellStart st)) = eWidth_100 ∧
        setBit (A_bits st) (nBitNum st) false = None ∧
        HandleCarrierEvent st CARRIER_ON 65100 = None.
Proof.
  eexists. split; [vm_compute; reflexivity|].
  repeat split; by vm_compute.
Qed.

(** API calls and client stores leave the handler's statics as the program
    start set them. *)
Lemma api_calls_before_first_edge ins :
  ∀ st st', Forall is_api_call ins → before_first_edge st →
            run st ins = Some st' → before_first_edge st'.
Proof.
  induction ins as [|i ins IH]; intros st st' Hapi Hst H; cbn in H.
  - by injection H as <-.
  - apply Forall_cons in Hapi as [Hi Hapi].
    apply bind_Some in H as (st1 & Hstep & H).
    apply (IH st1 st' Hapi); [|done].
    unfold before_first_edge in *.
    destruct i as [l t|[p|]|cb m|p v]; cbn in Hi, Hstep; [done| | | |];
      injection Hstep as <-; by destruct st.
Qed.

Lemma first_edge st l t :
  before_first_edge st →
  ∃ st', HandleCarrierEvent st l t = Some st' ∧
         bSyncedFlag st' = false ∧ nBitNum st' = 1 ∧ bHalfSync st' = false ∧
         delivered st' = notified MSF_EVENT_SYNC_LOST st.
Proof.
  intros (Hrn & Hsf & Hhs & Hn & Hev).
  assert (∃ st1, HandleCarrierEvent_switch st l t = Some st1 ∧
                 bResyncNeeded st1 = true ∧ delivered st1 = [])
    as (st1 & Hsw & Hrn1 & Hev1).
  { unfold HandleCarrierEvent_switch.
    destruct st as [sf a b dt pc cb m ton toff won woff tc n hs rn cm ev].
    cbn in Hrn, Hsf, Hhs, Hn, Hev. subst.
    destruct (l =? CARRIER_OFF); [|destruct (l =? CARRIER_ON)].
    - unfold HandleCarrierEvent_OFF. cbn.
      destruct (GetWidth (u32 (t - ton))); cbn; by eexists.
    - unfold HandleCarrierEvent_ON. cbn.
      destruct (GetWidth (u32 (t - tc))); cbn; try by eexists.
      destruct (decide _); by eexists.
    - by eexists. }
  unfold HandleCarrierEvent. rewrite Hsw, mbind_Some.
  eexists. split; [reflexivity|].
  destruct (switch_keeps_listener _ _ _ _ Hsw) as [Hcb Hm].
  rewrite <- (notified_listener MSF_EVENT_SYNC_LOST st st1 Hcb Hm).
  destruct (HandleCarrierEvent_resync_spec st1 Hrn1) as (?&?&?&?&_&_&Hd).
  rewrite Hd, Hev1, app_nil_r. done.
Qed.

(** C10.  Whatever API calls and client stores came before it, the first
    carrier edge of a program, of any level and at any time, is handled
    without fault and ends in a resync: the decoder is not SYNCED, the
    cursor is 1, half-sync is clear, and the one call made to the client
    is SYNC_LOST, made if a callback is registered with that event in
    its mask. *)
Theorem first_edge_resyncs mem ins st0 l t :
  Forall is_api_call ins →
  run (power_on mem) ins = Some st0 →
  ∃ st', HandleCarrierEvent st0 l t = Some st' ∧
         bSyncedFlag st' = false ∧ nBitNum st' = 1 ∧ bHalfSync st' = false ∧
         delivered st' = notified MSF_EVENT_SYNC_LOST st0.
Proof.
  intros Hapi Hrun. apply first_edge.
  by apply (api_calls_before_first_edge ins (power_on mem)).
Qed.

Lemma first_edge_resyncs_witness :
  ∃ st', HandleCarrierEvent
           (MSF_EnableEventNotifications (Some 2%positive) 7
              (MSF_InitDecoder (Some 1%positive) (power_on ∅)))
           CARRIER_OFF 1000 = Some st' ∧
         bSyncedFlag st' = false ∧ nBitNum st' = 1 ∧ bHalfSync st' = false ∧
         delivered st' = [(2%positive, MSF_EVENT_SYNC_LOST)].
Proof.
  apply (first_edge_resyncs ∅
           [Init (Some 1%positive); EnableNotifications (Some 2%positive) 7]).
  - repeat constructor.
  - reflexivity.
Defined.

(** ** Bits written and read back *)

Lemma div8_mod8_eq i j : i / 8 = j / 8 → i mod 8 = j mod 8 → i = j.
Proof. intros Hd Hm. rewrite (Z.div_mod i 8), (Z.div_mod j 8) by lia. lia. Qed.

Lemma testbit_u8 x k : 0 ≤ k < 8 → Z.testbit (u8 x) k = Z.testbit x k.
Proof. intros Hk. unfold u8. apply Z.mod_pow2_bits_low. lia. Qed.

(** The bits of the array a successful [setBit] returns. *)
Lemma setBit_bit_at (a a' : bitarray) i j v :
  length a = 8%nat → 0 ≤ i → 0 ≤ j →
  setBit a i v = Some a' →
  bit_at a' j = if decide (j = i) then v else bit_at a j.
Proof.
  intros Hlen Hi Hj Hset.
  destruct (setBit_Some a a' i v Hlen Hi Hset) as [Hi64 Hlen'].
  unfold setBit in Hset.
  replace (Z.shiftr i 3) with (i / 8) in Hset by (by rewrite Z.shiftr_div_pow2).
  destruct (a !! Z.to_nat (i / 8)) as [byte|] eqn:Hbyte; [|done].
  injection Hset as <-. unfold bit_at.
  assert (0 ≤ i mod 8 < 8) as Him by (apply Z.mod_pos_bound; lia).
  assert (0 ≤ j mod 8 < 8) as Hjm by (apply Z.mod_pos_bound; lia).
  assert (0 ≤ i / 8) by (apply Z.div_pos; lia).
  assert (0 ≤ j / 8) by (apply Z.div_pos; lia).
  destruct (decide (j / 8 = i / 8)) as [Heq|Hne].
  - rewrite Heq, list_lookup_insert_eq by (by eapply lookup_lt_Some).
    rewrite Hbyte. cbn [default from_option id].
    rewrite bit_mask_pow2 by done.
    destruct v; rewrite testbit_u8 by done.
    + rewrite Z.lor_spec, Z.pow2_bits_eqb by lia.
      destruct (Z.eqb_spec (i mod 8) (j mod 8)) as [Hm|Hm].
      * rewrite orb_true_r. rewrite decide_True; [done|].
        by apply div8_mod8_eq.
      * rewrite orb_false_r. rewrite decide_False; [done|]. by intros ->.
    + rewrite Z.land_spec, Z.lnot_spec, Z.pow2_bits_eqb by lia.
      destruct (Z.eqb_spec (i mod 8) (j mod 8)) as [Hm|Hm].
      * rewrite andb_false_r. rewrite decide_True; [done|].
        by apply div8_mod8_eq.
      * rewrite andb_true_r. rewrite decide_False; [done|]. by intros ->.
  - rewrite list_lookup_insert_ne by lia.
    rewrite decide_False; [done|]. by intros ->.
Qed.

Lemma getBit_total_spec (a : bitarray) i :
  length a = 8%nat → 0 ≤ i →
  getBit a i = if decide (i < 64) then Some (bit_at a i) else None.
Proof.
  intros. case_decide.
  - by apply getBit_spec.
  - apply getBit_fault; [done|lia].
Qed.

(** X1.  [setBit] and [getBit] agree: after a successful [setBit] of bit
    [i] of an 8-byte array the array still has 8 bytes, [getBit] reads
    the value written at [i], and every other bit 0..63 reads as before. *)
Theorem setBit_getBit (a a' : bitarray) i j v :
  length a = 8%nat → 0 ≤ i → 0 ≤ j < 64 →
  setBit a i v = Some a' →
  length a' = 8%nat ∧
  getBit a' j = if decide (j = i) then Some v else getBit a j.
Proof.
  intros Hlen Hi Hj Hset.
  destruct (setBit_Some a a' i v Hlen Hi Hset) as [Hi64 Hlen'].
  split; [done|].
  rewrite !getBit_spec by done.
  rewrite (setBit_bit_at a a' i j v) by (done || lia).
  by case_decide.
Qed.

(** Bytes stay bytes. *)
Lemma setBit_bytes (a a' : bitarray) i v :
  Forall (λ b, 0 ≤ b < 256) a → 0 ≤ i →
  setBit a i v = Some a' → Forall (λ b, 0 ≤ b < 256) a'.
Proof.
  intros Ha Hi Hset. unfold setBit in Hset.
  destruct (a !! _) as [byte|] eqn:Hbyte; [|done]. injection Hset as <-.
  apply Forall_insert; [done|].
  unfold u8. change (2 ^ 8) with 256.
  destruct v; apply Z.mod_pos_bound; lia.
Qed.

(** ** Seconds while SYNCED *)

Lemma u32_sub_u32 a b : u32 (u32 a - u32 b) = u32 (a - b).
Proof. unfold u32. by rewrite <- Zminus_mod. Qed.

Lemma setBit_A_ok v st :
  length (A_bits st) = 8%nat → 0 ≤ nBitNum st < 64 →
  ∃ a, setBit_A v st = Some (set_A_bits a st) ∧ length a = 8%nat ∧
       ∀ j, 0 ≤ j → bit_at a j = if decide (j = nBitNum st) then v
                                 else bit_at (A_bits st) j.
Proof.
  intros Hlen Hn. unfold setBit_A.
  destruct (setBit_total (A_bits st) (nBitNum st) v Hlen Hn) as [a Ha].
  rewrite Ha. exists a. split; [done|].
  destruct (setBit_Some _ _ _ _ Hlen (proj1 Hn) Ha) as [_ Hlen'].
  split; [done|]. intros j Hj. apply (setBit_bit_at (A_bits st)); (done || lia).
Qed.

Lemma setBit_B_ok v st :
  length (B_bits st) = 8%nat → 0 ≤ nBitNum st < 64 →
  ∃ b, setBit_B v st = Some (set_B_bits b st) ∧ length b = 8%nat ∧
       ∀ j, 0 ≤ j → bit_at b j = if decide (j = nBitNum st) then v
                                 else bit_at (B_bits st) j.
Proof.
  intros Hlen Hn. unfold setBit_B.
  destruct (setBit_total (B_bits st) (nBitNum st) v Hlen Hn) as [a Ha].
  rewrite Ha. exists a. split; [done|].
  destruct (setBit_Some _ _ _ _ Hlen (proj1 Hn) Ha) as [_ Hlen'].
  split; [done|]. intros j Hj. apply (setBit_bit_at (B_bits st)); (done || lia).
Qed.

Arguments u32 : simpl never.
Arguments notified : simpl never.
Arguments DecodeFrame : simpl never.

Lemma GetWidth_span t d1 d2 :
  GetWidth (u32 (u32 (t + d2) - u32 (t + d1))) = GetWidth (u32 (d2 - d1)).
Proof. rewrite u32_sub_u32. f_equal. f_equal. lia. Qed.

Lemma GetWidth_offset t d :
  GetWidth (u32 (u32 (t + d) - u32 t)) = GetWidth (u32 d).
Proof. rewrite u32_sub_u32. f_equal. f_equal. lia. Qed.

Arguments setBit_A : simpl never.
Arguments setBit_B : simpl never.

(** Running the handler on a state whose fields are known. *)
Local Ltac run_edges :=
  repeat (cbn; rewrite ?mbind_Some;
          try first
            [ rewrite GetWidth_offset
            | rewrite GetWidth_span
            | match goal with
              | |- context [ GetWidth (u32 ?d) ] =>
                  let r := eval vm_compute in (GetWidth (u32 d)) in
                  change (GetWidth (u32 d)) with r
              | |- context [ @decide (@eq eWidth ?x ?y) _ ] =>
                  first [ rewrite (decide_True (P := x = y)) by done
                        | rewrite (decide_False (P := x = y)) by done ]
              | |- context [ setBit_A ?v ?s ] =>
                  let a := fresh "a" in
                  let Hl := fresh "Hlen" in
                  let Hb := fresh "Hbits" in
                  destruct (setBit_A_ok v s) as (a & -> & Hl & Hb);
                  [ cbn; done | cbn; lia | cbn in Hb ]
              | |- context [ setBit_B ?v ?s ] =>
                  let a := fresh "b" in
                  let Hl := fresh "Hlen" in
                  let Hb := fresh "Hbits" in
                  destruct (setBit_B_ok v s) as (a & -> & Hl & Hb);
                  [ cbn; done | cbn; lia | cbn in Hb ]
              end ]).

Lemma cell_stores st t n A B :
  at_cell_start st t n → 1 ≤ n ≤ 63 → (A, B) ≠ (false, true) →
  ∃ st', run st (wrap_times (cell A B t)) = Some st' ∧
         at_cell_start st' (t + 1000) (n + 1) ∧
         bHalfSync st' = bHalfSync st ∧
         same_client_side st st' ∧
         ∀ j, 0 ≤ j →
              bit_at (A_bits st') j = (if decide (j = n) then A else bit_at (A_bits st) j) ∧
              bit_at (B_bits st') j = (if decide (j = n) then B else bit_at (B_bits st) j).
Proof.
  intros (Hsf & Hrn & Htc & Hto & Hn & HA & HB) Hn63 HAB.
  destruct st as [sf a b dt pc cb m ton toff won woff tc n0 hs rn cm ev].
  cbn in Hsf, Hrn, Htc, Hto, Hn, HA, HB. subst.
  unfold at_cell_start, same_client_side.
  destruct A, B; [| | done |]; cbn [cell wrap_times fmap list_fmap run step];
  unfold HandleCarrierEvent, HandleCarrierEvent_switch, HandleCarrierEvent_ON,
    HandleCarrierEvent_OFF, HandleCarrierEvent_resync, incr_nBitNum.
  all: run_edges.
  all: eexists; (split; [reflexivity|]); cbn;
    rewrite (u32_small (n + 1)) by (change (2 ^ 32) with 4294967296; lia).
  all: repeat split; try done.
  all: repeat match goal with
              | H : ∀ j, 0 ≤ j → bit_at ?x j = _ |- context [ bit_at ?x ?k ] =>
                  rewrite (H k) by done
              end;
       repeat case_decide; done.
Qed.

Lemma run_app ins1 : ∀ st ins2,
  run st (ins1 ++ ins2) = run st ins1 ≫= λ st1, run st1 ins2.
Proof.
  induction ins1 as [|i ins1 IH]; intros st ins2; [done|].
  cbn [app run]. destruct (step st i) as [st1|]; [|done].
  rewrite !mbind_Some. apply IH.
Qed.

Lemma wrap_times_app ins1 ins2 :
  wrap_times (ins1 ++ ins2) = wrap_times ins1 ++ wrap_times ins2.
Proof. unfold wrap_times. apply fmap_app. Qed.

(** X4.  A second that carries A=0 and B=1 (carrier off, on and off
    again for 100 ms each) moves the cursor by two: the OFF edge at
    200 ms stores the pair and advances, and the OFF edge that ends the
    second stores B=1 and advances again, so that positions [n] and
    [n]+1 both hold A=0, B=1. *)
Lemma second_01_advances_twice st t n :
  at_cell_start st t n → 1 ≤ n ≤ 62 →
  ∃ st', run st (wrap_times (cell false true t)) = Some st' ∧
         at_cell_start st' (t + 1000) (n + 2) ∧
         bHalfSync st' = bHalfSync st ∧
         same_client_side st st' ∧
         ∀ j, 0 ≤ j →
              bit_at (A_bits st') j
              = (if decide (j = n ∨ j = n + 1) then false else bit_at (A_bits st) j) ∧
              bit_at (B_bits st') j
              = (if decide (j = n ∨ j = n + 1) then true else bit_at (B_bits st) j).
Proof.
  intros (Hsf & Hrn & Htc & Hto & Hn & HA & HB) Hn63.
  destruct st as [sf a b dt pc cb m ton toff won woff tc n0 hs rn cm ev].
  cbn in Hsf, Hrn, Htc, Hto, Hn, HA, HB. subst.
  unfold at_cell_start, same_client_side.
  cbn [cell wrap_times fmap list_fmap run step];
  unfold HandleCarrierEvent, HandleCarrierEvent_switch, HandleCarrierEvent_ON,
    HandleCarrierEvent_OFF, HandleCarrierEvent_resync, incr_nBitNum.
  run_edges.
  rewrite (u32_small (n + 1)) in * by (change (2 ^ 32) with 4294967296; lia).
  run_edges.
  eexists; (split; [reflexivity|]); cbn;
    rewrite (u32_small (n + 1 + 1)) by (change (2 ^ 32) with 4294967296; lia).
  repeat split; try done; try lia.
  all: repeat match goal with
              | H : ∀ j, 0 ≤ j → bit_at ?x j = _ |- context [ bit_at ?x ?k ] =>
                  rewrite (H k) by done
              end;
       repeat case_decide; first [ done | lia ].
Qed.

Lemma same_client_side_trans st1 st2 st3 :
  same_client_side st1 st2 → same_client_side st2 st3 → same_client_side st1 st3.
Proof.
  unfold same_client_side.
  intros (?&?&?&?&?&?) (?&?&?&?&?&?). repeat split; congruence.
Qed.

Lemma at_cell_start_time st t t' n :
  t = t' → at_cell_start st t n → at_cell_start st t' n.
Proof. by intros ->. Qed.

Lemma cells_store bits :
  ∀ st t n,
    at_cell_start st t n → 1 ≤ n → n + Z.of_nat (length bits) ≤ 64 →
    Forall (λ p, p ≠ (false, true)) bits →
    ∃ st', run st (wrap_times (cells bits t)) = Some st' ∧
           at_cell_start st' (t + 1000 * Z.of_nat (length bits))
             (n + Z.of_nat (length bits)) ∧
           bHalfSync st' = bHalfSync st ∧
           same_client_side st st' ∧
           ∀ j, 0 ≤ j →
                bit_at (A_bits st') j = stored fst bits n (A_bits st) j ∧
                bit_at (B_bits st') j = stored snd bits n (B_bits st) j.
Proof.
  induction bits as [|[A B] bits IH]; intros st t n Hst Hn Hlen Hno01.
  - exists st. split; [done|]. split.
    { cbn [length]. replace (t + 1000 * Z.of_nat 0) with t by lia.
      replace (n + Z.of_nat 0) with n by lia. done. }
    split; [done|]. split; [by unfold same_client_side|].
    intros j Hj. unfold stored. split; (case_decide; [cbn in *; lia | done]).
  - apply Forall_cons in Hno01 as [HAB Hno01]. cbn [length] in *.
    destruct (cell_stores st t n A B Hst ltac:(lia) HAB)
      as (st1 & Hrun1 & Hst1 & Hhs1 & Hcl1 & Hbits1).
    destruct (IH st1 (t + 1000) (n + 1) Hst1 ltac:(lia) ltac:(lia) Hno01)
      as (st2 & Hrun2 & Hst2 & Hhs2 & Hcl2 & Hbits2).
    exists st2. cbn [cells]. rewrite wrap_times_app, run_app, Hrun1, mbind_Some.
    split; [done|]. split.
    { eapply at_cell_start_time; [|replace (n + Z.of_nat (S (length bits)))
        with (n + 1 + Z.of_nat (length bits)) by lia; done]. lia. }
    split; [congruence|]. split; [by eapply same_client_side_trans|].
    intros j Hj. destruct (Hbits2 j Hj) as [-> ->].
    destruct (Hbits1 j Hj) as [HA1 HB1]. unfold stored. rewrite HA1, HB1.
    cbn [length].
    split; repeat case_decide; try lia; try done.
    all: try (subst j; replace (Z.to_nat (n - n)) with 0%nat by lia; done).
    all: replace (Z.to_nat (j - n)) with (S (Z.to_nat (j - (n + 1)))) by lia;
      done.
Qed.

Arguments frame_checks : simpl never.

Arguments frame_time : simpl never.

(** ** Minute markers *)

Lemma DecodeFrame_eq st :
  length (A_bits st) = 8%nat → length (B_bits st) = 8%nat →
  DecodeFrame st
  = Some (match first_failure (frame_checks (A_bits st) (B_bits st)) with
          | None => (true, published st)
          | Some _ => (false, st)
          end).
Proof.
  intros HA HB. unfold DecodeFrame, ValidateBCD.
  rewrite ValidateBCD_log_spec by done. rewrite !mbind_Some.
  destruct (first_failure _); [done|].
  rewrite !ExtractBCD_sum by (done || lia). rewrite !mbind_Some.
  rewrite ClientEventNotify_eq. unfold published, frame_time.
  destruct st as [sf a b dt [p|] cb m ton toff won woff tc n hs rn cm ev]; done.
Qed.

Lemma marker_end_decodes st t :
  at_cell_start st t 60 →
  ∃ st', run st (wrap_times (marker_end t)) = Some st' ∧
         A_bits st' = A_bits st ∧ B_bits st' = B_bits st ∧
         nBitNum st' = 1 ∧
         pClientDateTime st' = pClientDateTime st ∧
         pfClientEventCallback st' = pfClientEventCallback st ∧
         ui32ClientEventMask st' = ui32ClientEventMask st ∧
         match first_failure (frame_checks (A_bits st) (B_bits st)) with
         | None =>
             at_cell_start st' (t + 1000) 1 ∧ bHalfSync st' = true ∧
             LocalDateTime st' = frame_time (A_bits st) (B_bits st) ∧
             client_mem st'
             = match pClientDateTime st with
               | Some p => <[ p := frame_time (A_bits st) (B_bits st) ]> (client_mem st)
               | None => client_mem st
               end ∧
             delivered st'
             = notified MSF_EVENT_DATETIME_UPDATED st
               ++ notified MSF_EVENT_SYNC st ++ delivered st
         | Some _ =>
             bSyncedFlag st' = false ∧ bHalfSync st' = false ∧
             bResyncNeeded st' = false ∧
             LocalDateTime st' = LocalDateTime st ∧
             client_mem st' = client_mem st ∧
             delivered st'
             = notified MSF_EVENT_SYNC_LOST st
               ++ notified MSF_EVENT_SYNC st ++ delivered st
         end.
Proof.
  intros (Hsf & Hrn & Htc & Hto & Hn & HA & HB).
  destruct st as [sf a b dt pc cb m ton toff won woff tc n0 hs rn cm ev].
  cbn in Hsf, Hrn, Htc, Hto, Hn, HA, HB. subst.
  unfold at_cell_start.
  cbn [marker_end wrap_times fmap list_fmap run step];
  unfold HandleCarrierEvent, HandleCarrierEvent_switch, HandleCarrierEvent_ON,
    HandleCarrierEvent_OFF, HandleCarrierEvent_resync, incr_nBitNum.
  run_edges. rewrite !ClientEventNotify_eq. cbn.
  rewrite DecodeFrame_eq by done. cbn.
  destruct (first_failure (frame_checks a b)) eqn:Hff; cbn.
  - rewrite !ClientEventNotify_eq. cbn. eexists. split; [reflexivity|].
    cbn. unfold notified. cbn. repeat split; done.
  - unfold published. cbn.
    destruct pc as [p|]; cbn; (eexists; split; [reflexivity|]);
      cbn; unfold notified; cbn; repeat split; done.
Qed.

(** The first edge of a minute marker, on a decoder that is not SYNCED. *)
Lemma marker_first_edge st t :
  cursor_inv st → bSyncedFlag st = false →
  ∃ st1, HandleCarrierEvent st CARRIER_OFF (u32 t) = Some st1 ∧
         T_CellStart st1 = u32 t ∧ T_LastOffStart st1 = u32 t ∧
         bResyncNeeded st1 = false ∧ nBitNum st1 = 1 ∧
         A_bits st1 = A_bits st ∧ B_bits st1 = B_bits st ∧
         LocalDateTime st1 = LocalDateTime st ∧
         pClientDateTime st1 = pClientDateTime st ∧
         pfClientEventCallback st1 = pfClientEventCallback st ∧
         ui32ClientEventMask st1 = ui32ClientEventMask st ∧
         client_mem st1 = client_mem st ∧
         ∃ evs, delivered st1 = evs ++ delivered st.
Proof.
  intros (HA & HB & Hn & Hu) Hsf.
  destruct st as [sf a b dt pc cb m ton toff won woff tc n hs rn cm ev].
  cbn in HA, HB, Hn, Hu, Hsf. subst sf. specialize (Hu eq_refl). subst n. clear Hn.
  unfold HandleCarrierEvent, HandleCarrierEvent_switch, HandleCarrierEvent_OFF,
    HandleCarrierEvent_resync.
  change (CARRIER_OFF =? CARRIER_OFF) with true. cbn.
  destruct (GetWidth (u32 (u32 t - ton))), hs, rn; cbn;
    repeat (rewrite ClientEventNotify_eq; cbn);
    (eexists; split; [reflexivity|]); cbn;
    repeat split; try done.
  all: try by (eexists; rewrite app_assoc; reflexivity).
  all: try by (eexists; reflexivity).
  all: by exists nil.
Qed.

(** A whole minute marker re-acquires SYNC. *)
Lemma marker_syncs st t :
  cursor_inv st → bSyncedFlag st = false →
  ∃ st', run st (wrap_times (sync_preamble t)) = Some st' ∧
         at_cell_start st' (t + 1000) 1 ∧ bHalfSync st' = true ∧
         A_bits st' = A_bits st ∧ B_bits st' = B_bits st ∧
         LocalDateTime st' = LocalDateTime st ∧
         pClientDateTime st' = pClientDateTime st ∧
         pfClientEventCallback st' = pfClientEventCallback st ∧
         ui32ClientEventMask st' = ui32ClientEventMask st ∧
         client_mem st' = client_mem st ∧
         ∃ evs, delivered st' = notified MSF_EVENT_SYNC st ++ evs ++ delivered st.
Proof.
  intros Hinv Hsf.
  destruct (marker_first_edge st t Hinv Hsf)
    as (st1 & H1 & Htc & Hto & Hrn & Hn & HA1 & HB1 & Hdt & Hpc & Hcb & Hm & Hcm & evs & Hev).
  destruct Hinv as (HA & HB & _ & _).
  cbn [sync_preamble wrap_times fmap list_fmap run step].
  rewrite H1, mbind_Some.
  rewrite <- (notified_listener MSF_EVENT_SYNC st st1 Hcb Hm).
  destruct st1 as [sf1 a1 b1 dt1 pc1 cb1 m1 ton1 toff1 won1 woff1 tc1 n1 hs1 rn1 cm1 ev1].
  cbn in Htc, Hto, Hrn, Hn, HA1, HB1, Hdt, Hpc, Hcb, Hm, Hcm, Hev. subst.
  unfold at_cell_start.
  unfold HandleCarrierEvent, HandleCarrierEvent_switch, HandleCarrierEvent_ON,
    HandleCarrierEvent_OFF, HandleCarrierEvent_resync.
  destruct sf1; run_edges; repeat (rewrite ClientEventNotify_eq; cbn);
    (eexists; split; [reflexivity|]); cbn; repeat split; try done;
    by exists evs.
Qed.

(** ** Whole minutes *)

Lemma count_set_count_fn (a : bitarray) f n :
  ∀ from, (∀ j, from ≤ j < from + Z.of_nat n → bit_at a j = f j) →
          count_set a from n = count_fn f from n.
Proof.
  induction n as [|n IH]; intros from Hf; [done|].
  cbn [count_set count_fn]. rewrite (Hf from) by lia.
  rewrite (IH (from + 1)); [done|]. intros j Hj. apply Hf. lia.
Qed.

Lemma odd_parity_encoded (A : bitarray) dt from to :
  from ≤ to →
  (∀ j, from ≤ j ≤ to → bit_at A j = encode_A dt j) →
  odd_parity A from to (parity_bit dt from to) = true.
Proof.
  intros Hle HA. unfold odd_parity, parity_bit.
  rewrite (count_set_count_fn A (encode_A dt)) by (intros; apply HA; lia).
  rewrite Z.odd_add. by destruct (Z.odd (count_fn _ _ _)).
Qed.

Lemma bcd_code_fits v (k : nat) bound :
  0 ≤ v ≤ bound → bcd_code bound < 2 ^ Z.of_nat k → 0 ≤ bound ≤ 99 →
  0 ≤ v / 10 ≤ 9 ∧ 0 ≤ v mod 10 ≤ 9 ∧ bcd_code v < 2 ^ Z.of_nat k.
Proof.
  intros Hv Hfit Hb. unfold bcd_code in *.
  set (p := 2 ^ Z.of_nat k) in *. clearbody p.
  Z.div_mod_to_equations. lia.
Qed.

(** A field the array holds as encoded decodes to its value. *)
Lemma bcd_sum_field (a : bitarray) v (k : nat) lsbit bound :
  (1 ≤ k ≤ 8)%nat →
  0 ≤ v ≤ bound → 0 ≤ bound ≤ 99 → bcd_code bound < 2 ^ Z.of_nat k →
  (∀ i, 0 ≤ i < Z.of_nat k → bit_at a (lsbit - i) = Z.testbit (bcd_code v) i) →
  bcd_sum a lsbit (take k BCD) = v.
Proof.
  intros Hk Hv Hb Hfit Hbits.
  destruct (bcd_code_fits v k bound Hv Hfit Hb) as (Ht & Hu & Hc).
  rewrite (bcd_sum_code_sum a (bcd_code v) (take k BCD) lsbit 0).
  - unfold bcd_code in *. rewrite code_sum_bcd by (done || lia).
    rewrite (Z.div_mod v 10) at 3 by lia. lia.
  - intros j Hj. rewrite length_take in Hj. change (length BCD) with 8%nat in Hj.
    rewrite Z.add_0_l. apply Hbits. lia.
Qed.

Lemma stored_frame sel bits old j :
  length bits = 59%nat → 1 ≤ j ≤ 59 →
  stored sel bits 1 old j = sel (default (false, false) (bits !! Z.to_nat (j - 1))).
Proof. intros Hlen Hj. unfold stored. rewrite Hlen. by rewrite decide_True by lia. Qed.

(** A marker, 59 seconds and the next marker, on a decoder that is not
    SYNCED: what the run leaves, by the verdict on the frame. *)
Lemma minute_runs st t bits :
  cursor_inv st → bSyncedFlag st = false →
  length bits = 59%nat → Forall (λ p, p ≠ (false, true)) bits →
  ∃ st', run st (wrap_times (minute bits t)) = Some st' ∧
    (∀ j, 1 ≤ j ≤ 59 →
          bit_at (A_bits st') j = (default (false, false) (bits !! Z.to_nat (j - 1))).1 ∧
          bit_at (B_bits st') j = (default (false, false) (bits !! Z.to_nat (j - 1))).2) ∧
    nBitNum st' = 1 ∧
    pClientDateTime st' = pClientDateTime st ∧
    pfClientEventCallback st' = pfClientEventCallback st ∧
    ui32ClientEventMask st' = ui32ClientEventMask st ∧
    match first_failure (frame_checks (A_bits st') (B_bits st')) with
    | None =>
        bSyncedFlag st' = true ∧
        LocalDateTime st' = frame_time (A_bits st') (B_bits st') ∧
        client_mem st'
        = match pClientDateTime st with
          | Some p => <[ p := frame_time (A_bits st') (B_bits st') ]> (client_mem st)
          | None => client_mem st
          end ∧
        ∃ evs, delivered st'
               = notified MSF_EVENT_DATETIME_UPDATED st
                 ++ notified MSF_EVENT_SYNC st ++ evs ++ delivered st
    | Some _ =>
        bSyncedFlag st' = false ∧
        LocalDateTime st' = LocalDateTime st ∧
        client_mem st' = client_mem st ∧
        ∃ evs, delivered st'
               = notified MSF_EVENT_SYNC_LOST st
                 ++ notified MSF_EVENT_SYNC st ++ evs ++ delivered st
    end.
Proof.
  intros Hinv Hsf Hlen Hno01. unfold minute.
  destruct (marker_syncs st t Hinv Hsf)
    as (st1 & Hrun1 & Hst1 & _ & HA1 & HB1 & Hdt1 & Hpc1 & Hcb1 & Hm1 & Hcm1 & evs & Hev1).
  destruct (cells_store bits st1 (t + 1000) 1 Hst1 ltac:(lia) ltac:(lia) Hno01)
    as (st2 & Hrun2 & Hst2 & _ & (Hdt2 & Hpc2 & Hcb2 & Hm2 & Hcm2 & Hev2) & Hbits2).
  rewrite Hlen in Hst2.
  destruct (marker_end_decodes st2 (t + 60000)) as
    (st3 & Hrun3 & HA3 & HB3 & Hn3 & Hpc3 & Hcb3 & Hm3 & Hres).
  { eapply at_cell_start_time; [|exact Hst2]. lia. }
  exists st3.
  rewrite !wrap_times_app, run_app, Hrun1, mbind_Some, run_app, Hrun2, mbind_Some.
  split; [done|]. rewrite HA3, HB3. split.
  { intros j Hj. destruct (Hbits2 j ltac:(lia)) as [-> ->].
    by rewrite !stored_frame. }
  split; [done|]. split; [congruence|]. split; [congruence|]. split; [congruence|].
  assert (∀ ev, notified ev st2 = notified ev st) as Hnot.
  { intros ev. apply notified_listener; congruence. }
  rewrite !Hnot in Hres. rewrite Hpc2, Hpc1, Hcm2, Hcm1, Hev2, Hev1, Hdt2, Hdt1 in Hres.
  destruct (first_failure _).
  - destruct Hres as (? & ? & ? & ? & ? & ->).
    repeat split; try done.
    exists (notified MSF_EVENT_SYNC st ++ evs). by rewrite <- app_assoc.
  - destruct Hres as ((? & _) & ? & ? & ? & ->).
    repeat split; try done.
    exists (notified MSF_EVENT_SYNC st ++ evs). by rewrite <- app_assoc.
Qed.

Lemma encode_length dt : length (encode dt) = 59%nat.
Proof. unfold encode. by rewrite length_fmap, length_seqZ. Qed.

Lemma encode_lookup dt j :
  1 ≤ j ≤ 59 →
  default (false, false) (encode dt !! Z.to_nat (j - 1))
  = (encode_A dt j, encode_B dt j).
Proof.
  intros Hj. unfold encode. rewrite list_lookup_fmap.
  rewrite lookup_seqZ_lt by lia. cbn. do 2 f_equal; lia.
Qed.

(** Where the transmitter sets B it also sets A. *)
Lemma encode_no_01 dt : Forall (λ p, p ≠ (false, true)) (encode dt).
Proof.
  unfold encode. apply Forall_fmap, Forall_forall. intros j Hj. cbn.
  intros [= HA HB]. unfold encode_A, encode_B in *.
  repeat case_decide; subst; try done; try lia.
Qed.

(** The transmitter's minute carries its date and time. *)
Lemma encode_carries dt : carries (encode dt) dt.
Proof.
  split; [apply encode_length|].
  split; intros j Hj; by rewrite encode_lookup by lia.
Qed.

Local Ltac eval_encode :=
  unfold encode_A, encode_B;
  repeat first [ rewrite decide_True by lia | rewrite decide_False by lia
               | rewrite bool_decide_eq_true_2 by lia
               | rewrite bool_decide_eq_false_2 by lia ].

(** Arrays that hold the transmitter's bits pass validation. *)
Lemma encoded_frame_valid (A B : bitarray) dt :
  (∀ j, 17 ≤ j ≤ 59 → bit_at A j = encode_A dt j) →
  (∀ j, 54 ≤ j ≤ 58 → bit_at B j = encode_B dt j) →
  first_failure (frame_checks A B) = None.
Proof.
  intros HA HB. apply frame_valid_first_failure. unfold frame_valid.
  split; [rewrite HA by lia; by eval_encode|].
  split; [intros i Hi; rewrite HA by lia; by eval_encode|].
  split; [rewrite HA by lia; by eval_encode|].
  rewrite !HB by lia.
  repeat split.
  - replace (encode_B dt 54) with (parity_bit dt 17 24) by (by eval_encode).
    apply odd_parity_encoded; [lia|]. intros; apply HA; lia.
  - replace (encode_B dt 55) with (parity_bit dt 25 35) by (by eval_encode).
    apply odd_parity_encoded; [lia|]. intros; apply HA; lia.
  - replace (encode_B dt 56) with (parity_bit dt 36 38) by (by eval_encode).
    apply odd_parity_encoded; [lia|]. intros; apply HA; lia.
  - replace (encode_B dt 57) with (parity_bit dt 39 51) by (by eval_encode).
    apply odd_parity_encoded; [lia|]. intros; apply HA; lia.
Qed.

(** Arrays that hold the transmitter's bits decode to the date and time
    transmitted. *)
Lemma encoded_frame_time (A B : bitarray) dt :
  in_range dt → bHasValidTime dt = true → bDateTimeUpdated dt = true →
  (∀ j, 17 ≤ j ≤ 59 → bit_at A j = encode_A dt j) →
  (∀ j, 54 ≤ j ≤ 58 → bit_at B j = encode_B dt j) →
  frame_time A B = dt.
Proof.
  intros (Hy & Hmo & Hd & Hh & Hmi & Hw & Hs) Hv Hu HA HB.
  unfold frame_time. destruct dt as [v u y mo d h mi w s]. cbn in *. subst.
  f_equal.
  - apply (bcd_sum_field A y 8 24 99); try done; try lia.
    intros i Hi. rewrite HA by lia. eval_encode. cbn. f_equal. lia.
  - apply (bcd_sum_field A mo 5 29 12); try done; try lia.
    intros i Hi. rewrite HA by lia. eval_encode. cbn. f_equal. lia.
  - apply (bcd_sum_field A d 6 35 31); try done; try lia.
    intros i Hi. rewrite HA by lia. eval_encode. cbn. f_equal. lia.
  - apply (bcd_sum_field A h 6 44 23); try done; try lia.
    intros i Hi. rewrite HA by lia. eval_encode. cbn. f_equal. lia.
  - apply (bcd_sum_field A mi 7 51 59); try done; try lia.
    intros i Hi. rewrite HA by lia. eval_encode. cbn. f_equal. lia.
  - apply (bcd_sum_field A w 3 38 6); try done; try lia.
    intros i Hi. rewrite HA by lia. eval_encode. cbn. f_equal. lia.
  - apply (bcd_sum_field B s 1 58 1); try done; try lia.
    intros i Hi. rewrite HB by lia. eval_encode.
    replace i with 0 by lia. done.
Qed.

Arguments published : simpl never.

(** ** One edge *)

Lemma notified_listener_calls ev st :
  notified ev st = listener_calls (pfClientEventCallback st) (ui32ClientEventMask st) ev.
Proof. done. Qed.

Arguments listener_calls : simpl never.

Lemma published_eq st :
  published st
  = set_delivered
      (listener_calls (pfClientEventCallback st) (ui32ClientEventMask st)
         MSF_EVENT_DATETIME_UPDATED ++ delivered st)
      (match pClientDateTime st with
       | Some p => set_client_mem
                     (<[ p := frame_time (A_bits st) (B_bits st) ]> (client_mem st))
                     (set_LocalDateTime (frame_time (A_bits st) (B_bits st)) st)
       | None => set_LocalDateTime (frame_time (A_bits st) (B_bits st)) st
       end).
Proof.
  unfold published.
  destruct st as [sf a b dt [p|] cb m ton toff won woff tc n hs rn cm ev]; done.
Qed.

Local Ltac open_edge :=
  repeat (match goal with
          | H : (_ ≫= _) = Some _ |- _ => apply bind_Some in H as (? & ? & H)
          | H : (if ?c then _ else _) = Some _ |- _ => destruct c eqn:?
          | H : Some _ = Some _ |- _ => injection H as H; subst
          | H : None = Some _ |- _ => discriminate H
          end; cbn in * ).

Lemma HandleCarrierEvent_OFF_summary st t st1 :
  length (A_bits st) = 8%nat → length (B_bits st) = 8%nat →
  HandleCarrierEvent_OFF st t = Some st1 →
  same_listener st st1 ∧
  (bSyncedFlag st = false → ¬ acquisition st t →
   A_bits st1 = A_bits st ∧ B_bits st1 = B_bits st ∧ nBitNum st1 = nBitNum st) ∧
  (¬ acquisition st t →
   bSyncedFlag st1 = bSyncedFlag st ∧ bHalfSync st1 = bHalfSync st ∧
   unpublished st st1 ∧ delivered st1 = delivered st) ∧
  (acquisition st t →
   bSyncedFlag st1 = true ∧ bHalfSync st1 = true ∧ nBitNum st1 = 1 ∧
   A_bits st1 = A_bits st ∧ B_bits st1 = B_bits st ∧
   if decide (nBitNum st = 60 ∧
              first_failure (frame_checks (A_bits st) (B_bits st)) = None)
   then bResyncNeeded st1 = false ∧
        LocalDateTime st1 = frame_time (A_bits st) (B_bits st) ∧
        client_mem st1
        = match pClientDateTime st with
          | Some p => <[ p := frame_time (A_bits st) (B_bits st) ]> (client_mem st)
          | None => client_mem st
          end ∧
        delivered st1
        = notified MSF_EVENT_DATETIME_UPDATED st
          ++ notified MSF_EVENT_SYNC st ++ delivered st
   else bResyncNeeded st1 = (if decide (nBitNum st = 60) then true
                             else bResyncNeeded st) ∧
        unpublished st st1 ∧
        delivered st1 = notified MSF_EVENT_SYNC st ++ delivered st).
Proof.
  intros HA HB H. unfold HandleCarrierEvent_OFF in H.
  unfold acquisition, same_listener, unpublished.
  destruct st as [sf a b dt pc cb m ton toff won woff tc n hs rn cm ev].
  cbn in HA, HB. cbn [bHalfSync T_LastOnStart bSyncedFlag A_bits B_bits nBitNum
                      LocalDateTime client_mem delivered pClientDateTime
                      pfClientEventCallback ui32ClientEventMask bResyncNeeded].
  rewrite !notified_listener_calls.
  cbn [pfClientEventCallback ui32ClientEventMask].
  destruct sf; cbn in H; destruct (GetWidth (u32 (t - ton))) eqn:Hw; cbn in H;
    unfold setBit_A, setBit_B, incr_nBitNum in H;
    rewrite ?ClientEventNotify_eq, ?notified_listener_calls in H; cbn in H.
  all: try (destruct hs; cbn in H).
  all: try (destruct (n =? 60) eqn:Hn60;
            [ apply Z.eqb_eq in Hn60; subst n;
              rewrite DecodeFrame_eq in H by done; cbn in H;
              destruct (first_failure (frame_checks a b)) eqn:Hff;
              rewrite ?published_eq in H; cbn in H
            | apply Z.eqb_neq in Hn60 ]).
  all: open_edge.
  all: try match goal with
           | H : first_failure _ = None |- _ => destruct pc; cbn
           end.
  all: repeat case_decide; intuition (try congruence).
Qed.

Lemma HandleCarrierEvent_ON_summary st t st1 :
  HandleCarrierEvent_ON st t = Some st1 →
  same_listener st st1 ∧
  bSyncedFlag st1 = bSyncedFlag st ∧ nBitNum st1 = nBitNum st ∧
  unpublished st st1 ∧ delivered st1 = delivered st ∧
  (bSyncedFlag st = false → A_bits st1 = A_bits st ∧ B_bits st1 = B_bits st) ∧
  (bHalfSync st1 = bHalfSync st ∨
   bHalfSync st1 = true ∧
   GetWidth (u32 (t - T_CellStart st)) = eWidth_500 ∧
   GetWidth (u32 (t - T_LastOffStart st)) = eWidth_500).
Proof.
  intros H. unfold HandleCarrierEvent_ON in H.
  unfold same_listener, unpublished.
  destruct st as [sf a b dt pc cb m ton toff won woff tc n hs rn cm ev].
  cbn [bHalfSync T_LastOffStart T_CellStart bSyncedFlag A_bits B_bits nBitNum
       LocalDateTime client_mem delivered pClientDateTime
       pfClientEventCallback ui32ClientEventMask bResyncNeeded].
  destruct sf; cbn in H; destruct (GetWidth (u32 (t - tc))) eqn:Hw; cbn in H;
    unfold setBit_A, setBit_B in H; cbn in H.
  all: open_edge.
  all: intuition (try congruence).
Qed.

(** The switch of the handler, by whether the edge is an acquisition. *)
Lemma HandleCarrierEvent_switch_summary st l t s1 :
  length (A_bits st) = 8%nat → length (B_bits st) = 8%nat →
  HandleCarrierEvent_switch st l t = Some s1 →
  same_listener st s1 ∧
  (bSyncedFlag st = false → A_bits s1 = A_bits st ∧ B_bits s1 = B_bits st) ∧
  (bHalfSync s1 = true →
   bHalfSync st = true ∨
   l = CARRIER_ON ∧ GetWidth (u32 (t - T_CellStart st)) = eWidth_500 ∧
   GetWidth (u32 (t - T_LastOffStart st)) = eWidth_500) ∧
  if decide (l = CARRIER_OFF ∧ acquisition st t)
  then bSyncedFlag s1 = true ∧ nBitNum s1 = 1 ∧
       if decide (nBitNum st = 60 ∧
                  first_failure (frame_checks (A_bits st) (B_bits st)) = None)
       then bResyncNeeded s1 = false ∧
            LocalDateTime s1 = frame_time (A_bits st) (B_bits st) ∧
            client_mem s1
            = match pClientDateTime st with
              | Some p => <[ p := frame_time (A_bits st) (B_bits st) ]> (client_mem st)
              | None => client_mem st
              end ∧
            delivered s1
            = notified MSF_EVENT_DATETIME_UPDATED st
              ++ notified MSF_EVENT_SYNC st ++ delivered st
       else bResyncNeeded s1 = (if decide (nBitNum st = 60) then true
                                else bResyncNeeded st) ∧
            unpublished st s1 ∧
            delivered s1 = notified MSF_EVENT_SYNC st ++ delivered st
  else bSyncedFlag s1 = bSyncedFlag st ∧ unpublished st s1 ∧
       delivered s1 = delivered st ∧
       (bSyncedFlag st = false → nBitNum s1 = nBitNum st).
Proof.
  intros HA HB H. unfold HandleCarrierEvent_switch in H.
  destruct (Z.eqb_spec l CARRIER_OFF) as [->|Hoff];
    [|destruct (Z.eqb_spec l CARRIER_ON) as [->|Hon]].
  - destruct (HandleCarrierEvent_OFF_summary _ _ _ HA HB H)
      as (Hl & Hu & Hn & Hacq).
    split; [done|]. split; [|split].
    + intros Hsf. destruct (decide (acquisition st t)) as [Ha|Ha].
      * by destruct (Hacq Ha) as (_ & _ & _ & -> & -> & _).
      * by destruct (Hu Hsf Ha) as (-> & -> & _).
    + intros Hhs. left. destruct (decide (acquisition st t)) as [Ha|Ha].
      * apply Ha.
      * destruct (Hn Ha) as (_ & Hh & _). congruence.
    + destruct (decide (CARRIER_OFF = CARRIER_OFF ∧ acquisition st t)) as [Hd|Hd].
      * destruct Hd as [_ Ha]. destruct (Hacq Ha) as (? & ? & ? & ? & ? & Hdec).
        split; [done|]. split; [done|]. done.
      * assert (¬ acquisition st t) as Ha by tauto.
        destruct (Hn Ha) as (? & ? & ? & ?).
        split; [done|]. split; [done|]. split; [done|].
        intros Hsf. by destruct (Hu Hsf Ha) as (_ & _ & ->).
  - destruct (HandleCarrierEvent_ON_summary _ _ _ H)
      as (Hl & Hsf & Hn & Hup & Hd & Hab & Hhs).
    split; [done|]. split; [done|]. split.
    + intros Hh. destruct Hhs as [Hhs|(_ & ? & ?)]; [left; congruence|by right].
    + rewrite decide_False by (intros [? _]; done). done.
  - injection H as <-.
    rewrite decide_False by tauto.
    destruct st; cbn; unfold same_listener, unpublished; cbn. tauto.
Qed.

(** The closing block of the handler. *)
Lemma HandleCarrierEvent_resync_summary s1 :
  same_listener s1 (HandleCarrierEvent_resync s1) ∧
  unpublished s1 (HandleCarrierEvent_resync s1) ∧
  A_bits (HandleCarrierEvent_resync s1) = A_bits s1 ∧
  B_bits (HandleCarrierEvent_resync s1) = B_bits s1 ∧
  if bResyncNeeded s1
  then bSyncedFlag (HandleCarrierEvent_resync s1) = false ∧
       bHalfSync (HandleCarrierEvent_resync s1) = false ∧
       nBitNum (HandleCarrierEvent_resync s1) = 1 ∧
       delivered (HandleCarrierEvent_resync s1)
       = notified MSF_EVENT_SYNC_LOST s1 ++ delivered s1
  else HandleCarrierEvent_resync s1 = s1.
Proof.
  unfold HandleCarrierEvent_resync, same_listener, unpublished.
  destruct (bResyncNeeded s1) eqn:Hrn; [|done].
  rewrite ClientEventNotify_eq. by destruct s1.
Qed.

Lemma HandleCarrierEvent_Some st l t st' :
  HandleCarrierEvent st l t = Some st' →
  ∃ s1, HandleCarrierEvent_switch st l t = Some s1 ∧
        st' = HandleCarrierEvent_resync s1.
Proof.
  unfold HandleCarrierEvent. intros H.
  apply bind_Some in H as (s1 & H1 & H). injection H as <-. by exists s1.
Qed.

Lemma notified_same_listener ev st st' :
  same_listener st st' → notified ev st' = notified ev st.
Proof. intros (_ & ? & ?). by apply notified_listener. Qed.

Lemma elem_of_edge_notifications evs :
  evs ∈ edge_notifications ↔
  evs = [] ∨ evs = [MSF_EVENT_SYNC] ∨ evs = [MSF_EVENT_SYNC_LOST] ∨
  evs = [MSF_EVENT_SYNC_LOST; MSF_EVENT_SYNC] ∨
  evs = [MSF_EVENT_DATETIME_UPDATED; MSF_EVENT_SYNC].
Proof.
  unfold edge_notifications. rewrite !elem_of_cons, elem_of_nil. tauto.
Qed.

Local Ltac not_in :=
  repeat first [ rewrite elem_of_cons | rewrite elem_of_nil ];
  intuition discriminate.

(** X8.  The notifications of one edge are, newest first, one of: none;
    SYNC; SYNC_LOST; SYNC_LOST after SYNC; DATETIME_UPDATED after SYNC.
    SYNC is notified exactly on a full-SYNC acquisition, DATETIME_UPDATED
    exactly when that acquisition completes a valid frame, and an edge
    that notifies SYNC_LOST leaves the decoder not SYNCED with half-sync
    clear and the cursor at 1; DATETIME_UPDATED and SYNC_LOST never come
    from the same edge. *)
Theorem edge_notifications_shape st l t st' :
  length (A_bits st) = 8%nat → length (B_bits st) = 8%nat →
  HandleCarrierEvent st l t = Some st' →
  ∃ evs, evs ∈ edge_notifications ∧
         delivered st' = notified_all evs st ++ delivered st ∧
         (MSF_EVENT_SYNC ∈ evs ↔ l = CARRIER_OFF ∧ acquisition st t) ∧
         (MSF_EVENT_DATETIME_UPDATED ∈ evs ↔ completes_frame st l t) ∧
         (MSF_EVENT_SYNC_LOST ∈ evs →
          bSyncedFlag st' = false ∧ bHalfSync st' = false ∧ nBitNum st' = 1).
Proof.
  intros HA HB H.
  apply HandleCarrierEvent_Some in H as (s1 & Hsw & ->).
  destruct (HandleCarrierEvent_switch_summary _ _ _ _ HA HB Hsw)
    as (Hl & _ & _ & Hcase).
  destruct (HandleCarrierEvent_resync_summary s1) as (_ & _ & _ & _ & Hr).
  assert (completes_frame st l t ↔
          l = CARRIER_OFF ∧ acquisition st t ∧ nBitNum st = 60 ∧
          first_failure (frame_checks (A_bits st) (B_bits st)) = None) as Hcf.
  { unfold completes_frame. by rewrite frame_valid_first_failure. }
  setoid_rewrite Hcf. clear Hcf.
  unfold notified_all.
  destruct (decide (l = CARRIER_OFF ∧ acquisition st t)) as [Hacq|Hacq].
  - destruct Hcase as (Hsf & Hn & Hcase).
    destruct (decide (nBitNum st = 60 ∧ _)) as [Hv|Hv].
    + destruct Hcase as (Hrn & _ & _ & Hd). rewrite Hrn in Hr. rewrite Hr.
      exists [MSF_EVENT_DATETIME_UPDATED; MSF_EVENT_SYNC].
      split; [apply elem_of_edge_notifications; tauto|].
      split; [cbn; by rewrite app_nil_r, <- app_assoc|].
      split; [split; [tauto|intros _; not_in]|].
      split; [split; [tauto|intros _; not_in]|]. not_in.
    + destruct Hcase as (Hrn & _ & Hd).
      destruct (bResyncNeeded s1) eqn:Hrn1.
      * destruct Hr as (? & ? & ? & ->).
        rewrite (notified_same_listener _ _ _ Hl), Hd.
        exists [MSF_EVENT_SYNC_LOST; MSF_EVENT_SYNC].
        split; [apply elem_of_edge_notifications; tauto|].
        split; [cbn; by rewrite app_nil_r, <- app_assoc|].
        split; [split; [tauto|intros _; not_in]|].
        split; [|done]. split; [not_in|tauto].
      * rewrite Hr, Hd. exists [MSF_EVENT_SYNC].
        split; [apply elem_of_edge_notifications; tauto|].
        split; [cbn; by rewrite app_nil_r|].
        split; [split; [tauto|intros _; not_in]|].
        split; [|not_in]. split; [not_in|tauto].
  - destruct Hcase as (Hsf & _ & Hd & _).
    destruct (bResyncNeeded s1) eqn:Hrn1.
    + destruct Hr as (? & ? & ? & ->).
      rewrite (notified_same_listener _ _ _ Hl), Hd.
      exists [MSF_EVENT_SYNC_LOST].
      split; [apply elem_of_edge_notifications; tauto|].
      split; [cbn; by rewrite app_nil_r|].
      split; [split; [not_in|tauto]|].
      split; [|done]. split; [not_in|tauto].
    + rewrite Hr, Hd. exists [].
      split; [apply elem_of_edge_notifications; tauto|].
      split; [done|].
      split; [split; [not_in|tauto]|].
      split; [|not_in]. split; [not_in|tauto].
Qed.

(** Helper: a run that leaves the listener alone keeps it. *)
Lemma step_same_listener st i st' :
  length (A_bits st) = 8%nat → length (B_bits st) = 8%nat →
  keeps_listener i → step st i = Some st' →
  pfClientEventCallback st' = pfClientEventCallback st ∧
  ui32ClientEventMask st' = ui32ClientEventMask st.
Proof.
  intros HA HB Hk H. destruct i as [l t|[p|]|cb m|p v]; cbn in H; try done.
  - apply HandleCarrierEvent_Some in H as (s1 & Hsw & ->).
    destruct (switch_keeps_listener _ _ _ _ Hsw) as [<- <-].
    destruct (HandleCarrierEvent_resync_summary s1) as ((_ & ? & ?) & _). done.
  - injection H as <-. by destruct st.
  - by injection H as <-.
  - injection H as <-. by destruct st.
Qed.

Lemma notified_disabled ev st :
  pfClientEventCallback st = None ∨ ui32ClientEventMask st = 0 →
  notified ev st = [].
Proof.
  unfold notified. intros [-> | ->]; [done|].
  destruct (pfClientEventCallback st); [|done].
  by rewrite Z.land_0_l.
Qed.

Lemma edge_calls st l t st' :
  length (A_bits st) = 8%nat → length (B_bits st) = 8%nat →
  HandleCarrierEvent st l t = Some st' →
  ∃ evs, delivered st' = notified_all evs st ++ delivered st.
Proof.
  intros HA HB H.
  apply HandleCarrierEvent_Some in H as (s1 & Hsw & ->).
  destruct (HandleCarrierEvent_switch_summary _ _ _ _ HA HB Hsw)
    as (Hl & _ & _ & Hcase).
  destruct (HandleCarrierEvent_resync_summary s1) as (_ & _ & _ & _ & Hr).
  assert (∃ evs, delivered s1 = notified_all evs st ++ delivered st) as [evs Hd].
  { destruct (decide (l = CARRIER_OFF ∧ acquisition st t)).
    - destruct Hcase as (_ & _ & Hcase).
      destruct (decide (nBitNum st = 60 ∧ _)).
      + destruct Hcase as (_ & _ & _ & ->).
        exists [MSF_EVENT_DATETIME_UPDATED; MSF_EVENT_SYNC].
        unfold notified_all. cbn. by rewrite app_nil_r, <- app_assoc.
      + destruct Hcase as (_ & _ & ->). exists [MSF_EVENT_SYNC].
        unfold notified_all. cbn. by rewrite app_nil_r.
    - destruct Hcase as (_ & _ & -> & _). by exists []. }
  destruct (bResyncNeeded s1).
  - destruct Hr as (_ & _ & _ & ->).
    rewrite (notified_same_listener _ _ _ Hl), Hd.
    exists (MSF_EVENT_SYNC_LOST :: evs). unfold notified_all. cbn.
    by rewrite <- app_assoc.
  - rewrite Hr. by exists evs.
Qed.

Lemma notified_all_disabled evs st :
  pfClientEventCallback st = None ∨ ui32ClientEventMask st = 0 →
  notified_all evs st = [].
Proof.
  intros Hd. unfold notified_all.
  induction evs as [|ev evs IH]; [done|]. cbn.
  by rewrite notified_disabled, IH.
Qed.

(** X9.  As the comment of [MSF_EnableEventNotifications] says, a NULL
    callback or a mask of 0 disables notifications: over any run of
    edges, [MSF_InitDecoder] calls and client stores no call is made. *)
Theorem disabled_listener_never_called ins :
  ∀ st st',
    cursor_inv st → Forall keeps_listener ins →
    pfClientEventCallback st = None ∨ ui32ClientEventMask st = 0 →
    run st ins = Some st' → delivered st' = delivered st.
Proof.
  induction ins as [|i ins IH]; intros st st' Hinv Hk Hd H; cbn in H.
  - by injection H as <-.
  - apply bind_Some in H as (s1 & Hstep & H).
    apply Forall_cons in Hk as [Hi Hk].
    pose proof Hinv as (HA & HB & _).
    destruct (step_same_listener _ _ _ HA HB Hi Hstep) as [Hcb Hm].
    rewrite (IH s1 st'); [| by eapply step_inv | done | by rewrite Hcb, Hm | done].
    destruct i as [l t|[p|]|cb m|p v]; cbn in Hstep; try done.
    + destruct (edge_calls _ _ _ _ HA HB Hstep) as [evs ->].
      by rewrite notified_all_disabled.
    + injection Hstep as <-. by destruct st.
    + by injection Hstep as <-.
    + injection Hstep as <-. by destruct st.
Qed.


Lemma unsynced_switch_total st l t :
  cursor_inv st → bSyncedFlag st = false →
  is_Some (HandleCarrierEvent_switch st l t).
Proof.
  intros (HA & HB & _ & Hn) Hsf. specialize (Hn Hsf).
  unfold HandleCarrierEvent_switch.
  destruct (l =? CARRIER_OFF); [|destruct (l =? CARRIER_ON)].
  - unfold HandleCarrierEvent_OFF.
    destruct st as [sf a b dt pc cb m ton toff won woff tc n hs rn cm ev].
    cbn in *. subst sf n. cbn.
    destruct (GetWidth (u32 (t - ton))); cbn; try by eexists.
    destruct hs; cbn; [|by eexists].
    rewrite ClientEventNotify_eq. cbn. by eexists.
  - unfold HandleCarrierEvent_ON.
    destruct st as [sf a b dt pc cb m ton toff won woff tc n hs rn cm ev].
    cbn in *. subst sf n. cbn.
    destruct (GetWidth (u32 (t - tc))); cbn; try by eexists.
    case_decide; by eexists.
  - by eexists.
Qed.

(** X11.  While the decoder is not SYNCED every call of the edge handler
    returns, for any level (also one that is neither CARRIER_ON nor
    CARRIER_OFF) and any time, and leaves the arrays, the stored date,
    the client's buffer and the cursor (at 1) as they are. *)
Theorem unsynced_edge_harmless st l t :
  cursor_inv st → bSyncedFlag st = false →
  ∃ st', HandleCarrierEvent st l t = Some st' ∧
         A_bits st' = A_bits st ∧ B_bits st' = B_bits st ∧
         LocalDateTime st' = LocalDateTime st ∧
         client_mem st' = client_mem st ∧
         nBitNum st' = 1.
Proof.
  intros Hinv Hsf.
  destruct (unsynced_switch_total st l t Hinv Hsf) as [s1 Hsw].
  pose proof Hinv as (HA & HB & _ & Hn). specialize (Hn Hsf).
  exists (HandleCarrierEvent_resync s1). split.
  { unfold HandleCarrierEvent. by rewrite Hsw. }
  destruct (HandleCarrierEvent_switch_summary _ _ _ _ HA HB Hsw)
    as (_ & Hab & _ & Hcase).
  destruct (Hab Hsf) as [HA1 HB1].
  destruct (HandleCarrierEvent_resync_summary s1)
    as (_ & (Hdt & Hcm) & -> & -> & Hr).
  rewrite Hdt, Hcm.
  assert (unpublished st s1 ∧ nBitNum s1 = 1) as ((-> & ->) & Hn1).
  { destruct (decide (l = CARRIER_OFF ∧ acquisition st t)).
    - destruct Hcase as (_ & ? & Hcase).
      rewrite decide_False in Hcase by lia. by destruct Hcase as (_ & ? & _).
    - destruct Hcase as (_ & ? & _ & Hk). split; [done|]. by rewrite Hk. }
  repeat split; try done.
  destruct (bResyncNeeded s1); [by destruct Hr as (_ & _ & ? & _)|by rewrite Hr].
Qed.

(** Helper: what one edge does to the stored date and the client's
    buffer. *)
Lemma edge_publication st l t st' :
  length (A_bits st) = 8%nat → length (B_bits st) = 8%nat →
  HandleCarrierEvent st l t = Some st' →
  if decide (l = CARRIER_OFF ∧ acquisition st t ∧ nBitNum st = 60 ∧
             first_failure (frame_checks (A_bits st) (B_bits st)) = None)
  then bSyncedFlag st' = true ∧ nBitNum st' = 1 ∧
       LocalDateTime st' = frame_time (A_bits st) (B_bits st) ∧
       client_mem st'
       = match pClientDateTime st with
         | Some p => <[ p := frame_time (A_bits st) (B_bits st) ]> (client_mem st)
         | None => client_mem st
         end
  else LocalDateTime st' = LocalDateTime st ∧ client_mem st' = client_mem st.
Proof.
  intros HA HB H.
  apply HandleCarrierEvent_Some in H as (s1 & Hsw & ->).
  destruct (HandleCarrierEvent_switch_summary _ _ _ _ HA HB Hsw)
    as (_ & _ & _ & Hcase).
  destruct (HandleCarrierEvent_resync_summary s1)
    as (_ & (Hdt & Hcm) & _ & _ & Hr).
  rewrite Hdt, Hcm.
  destruct (decide (l = CARRIER_OFF ∧ acquisition st t ∧ _ ∧ _))
    as [(Hl & Hacq & Hn & Hv)|Hno].
  - rewrite decide_True in Hcase by done.
    destruct Hcase as (? & ? & Hcase).
    rewrite decide_True in Hcase by done.
    destruct Hcase as (Hrn & ? & ? & _).
    rewrite Hrn in Hr. rewrite Hr. done.
  - destruct (decide (l = CARRIER_OFF ∧ acquisition st t)) as [[? ?]|?].
    + destruct Hcase as (_ & _ & Hcase).
      rewrite decide_False in Hcase by tauto.
      by destruct Hcase as (_ & ? & _).
    + by destruct Hcase as (_ & ? & _).
Qed.

(** X12.  An edge changes the stored date and the client's memory
    exactly when it completes a frame: a CARRIER_OFF edge that ends a
    500 ms ON span while half-sync is set, with the cursor at 60 and
    arrays that pass validation.  It then stores the date of the frame,
    copies it to the registered buffer and leaves the decoder SYNCED with
    the cursor at 1; any other edge leaves both as they are. *)
Theorem stored_date_changes_on_valid_frame_only st l t st' :
  length (A_bits st) = 8%nat → length (B_bits st) = 8%nat →
  HandleCarrierEvent st l t = Some st' →
  (completes_frame st l t →
   bSyncedFlag st' = true ∧ nBitNum st' = 1 ∧
   LocalDateTime st' = frame_time (A_bits st) (B_bits st) ∧
   client_mem st'
   = match pClientDateTime st with
     | Some p => <[ p := frame_time (A_bits st) (B_bits st) ]> (client_mem st)
     | None => client_mem st
     end) ∧
  (¬ completes_frame st l t →
   LocalDateTime st' = LocalDateTime st ∧ client_mem st' = client_mem st).
Proof.
  intros HA HB H. pose proof (edge_publication _ _ _ _ HA HB H) as Hp.
  unfold completes_frame. rewrite frame_valid_first_failure.
  split; intros Hc.
  - by rewrite decide_True in Hp.
  - by rewrite decide_False in Hp.
Qed.

(** ** The classifier on the whole range of an interval *)





(** ** The stored date *)

Lemma step_date_inv st i st' :
  cursor_inv st → date_inv st → step st i = Some st' → date_inv st'.
Proof.
  intros (HA & HB & _) Hd H. unfold date_inv in *.
  destruct i as [l t|[p|]|cb m|p v]; cbn in H.
  - pose proof (edge_publication _ _ _ _ HA HB H) as Hp.
    case_decide as Hc.
    + destruct Hp as (_ & _ & -> & _). right.
      exists (A_bits st), (B_bits st).
      split; [done|]. split; [done|]. split; [|done].
      apply frame_valid_first_failure. tauto.
    + destruct Hp as (-> & _). done.
  - injection H as <-. by destruct st.
  - by injection H as <-.
  - injection H as <-. by destruct st.
  - injection H as <-. by destruct st.
Qed.

(** X13.  In every reachable state the stored date is either all zero,
    as at program start, or the date of a frame that passed validation,
    with [bHasValidTime] and [bDateTimeUpdated] both set: once valid the
    stored date never becomes invalid again, and the decoder never
    clears [bDateTimeUpdated] in its own copy. *)
Theorem stored_date_invariant st :
  reachable st →
  LocalDateTime st = sMSFDateTime_zero ∨
  bHasValidTime (LocalDateTime st) = true ∧
  bDateTimeUpdated (LocalDateTime st) = true ∧
  ∃ A B : bitarray, length A = 8%nat ∧ length B = 8%nat ∧ frame_valid A B ∧
                    LocalDateTime st = frame_time A B.
Proof.
  intros (mem & ins & Hrun).
  assert (date_inv st) as [?|(A & B & ? & ? & ? & Hdt)]; [|by left|].
  { assert (cursor_inv (power_on mem)) as Hinv.
    { unfold cursor_inv. cbn. repeat split; (done || lia). }
    assert (date_inv (power_on mem)) as Hd by (by left).
    revert Hrun Hinv Hd. generalize (power_on mem).
    induction ins as [|i ins IH]; intros s0 Hrun Hinv Hd; cbn in Hrun.
    - by injection Hrun as <-.
    - apply bind_Some in Hrun as (s1 & Hstep & Hrun).
      apply (IH s1); [done|by eapply step_inv|by eapply step_date_inv]. }
  right. rewrite Hdt. split; [done|]. split; [done|]. by exists A, B.
Qed.

Lemma bcd_sum_bounds (a : bitarray) ws :
  Forall (λ w, 0 ≤ w) ws → ∀ bit, 0 ≤ bcd_sum a bit ws ≤ total ws.
Proof.
  induction 1 as [|w ws Hw _ IH]; intros bit; cbn; [done|].
  specialize (IH (bit - 1)). unfold total in IH. destruct (bit_at a bit); lia.
Qed.

(** X14.  The fields a successful [DecodeFrame] stores lie within the
    sums of the BCD weights of their bits: year at most 165, month 25,
    day 45, hour 45, minute 85, day of week 7, DST 1; each fits its
    [uint8_t] member. *)
Theorem decoded_fields_bounds st st' :
  length (A_bits st) = 8%nat → length (B_bits st) = 8%nat →
  DecodeFrame st = Some (true, st') →
  0 ≤ Year (LocalDateTime st') ≤ 165 ∧
  0 ≤ Month (LocalDateTime st') ≤ 25 ∧
  0 ≤ Day (LocalDateTime st') ≤ 45 ∧
  0 ≤ Hour (LocalDateTime st') ≤ 45 ∧
  0 ≤ Minute (LocalDateTime st') ≤ 85 ∧
  0 ≤ DOW (LocalDateTime st') ≤ 7 ∧
  0 ≤ DST (LocalDateTime st') ≤ 1.
Proof.
  intros HA HB H. rewrite DecodeFrame_eq in H by done.
  destruct (first_failure _); [done|]. injection H as <-.
  rewrite published_eq.
  assert (LocalDateTime
            (set_delivered
               (listener_calls (pfClientEventCallback st)
                  (ui32ClientEventMask st) MSF_EVENT_DATETIME_UPDATED ++
                delivered st)
               match pClientDateTime st with
               | Some p =>
                   set_client_mem
                     (<[p:=frame_time (A_bits st) (B_bits st)]> (client_mem st))
                     (set_LocalDateTime (frame_time (A_bits st) (B_bits st)) st)
               | None => set_LocalDateTime (frame_time (A_bits st) (B_bits st)) st
               end) = frame_time (A_bits st) (B_bits st)) as ->.
  { by destruct st as [sf a b dt [p|] cb m ton toff won woff tc n hs rn cm ev]. }
  unfold frame_time. cbn [Year Month Day Hour Minute DOW DST].
  repeat split;
    match goal with
    | |- context [ bcd_sum ?a ?bit ?ws ] =>
        pose proof (bcd_sum_bounds a ws ltac:(cbn; repeat constructor; lia) bit) as Hb;
        let v := eval vm_compute in (total ws) in
        change (total ws) with v in Hb; lia
    end.
Qed.

(** ** Runs of edges *)


(** X5.  From every reachable state that is not SYNCED the minute marker
    (carrier off for 500 ms, on for 500 ms, then off) makes the decoder
    SYNCED with the cursor at 1 and the cell start at the end of the
    marker, whatever came before; the arrays, the stored date and the
    client's buffer are untouched and the last notification is SYNC. *)
Theorem marker_acquires_sync st t :
  reachable st → MSF_GetSyncState st = false →
  ∃ st', run st (wrap_times (sync_preamble t)) = Some st' ∧
         MSF_GetSyncState st' = true ∧ nBitNum st' = 1 ∧
         T_CellStart st' = u32 (t + 1000) ∧
         A_bits st' = A_bits st ∧ B_bits st' = B_bits st ∧
         LocalDateTime st' = LocalDateTime st ∧
         client_mem st' = client_mem st ∧
         ∃ evs, delivered st' = notified MSF_EVENT_SYNC st ++ evs ++ delivered st.
Proof.
  intros Hr Hsf. apply reachable_inv in Hr.
  destruct (marker_syncs st t Hr Hsf)
    as (st' & Hrun & (? & ? & ? & ? & ? & ? & ?) & ? & ? & ? & ? & ? & ? & ? & ? & ?).
  exists st'. unfold MSF_GetSyncState. repeat split; done.
Qed.

(** X6.  A whole minute from a reachable state that is not SYNCED: the
    marker, 59 seconds with no A=0,B=1 second among them, and the next
    marker.  The run returns, bits 1..59 of the arrays are the bits of
    the 59 seconds, and the cursor is back at 1.  If the arrays form a
    valid frame the decoder is SYNCED, the stored date is the date of the
    frame, the registered buffer holds it, and the last two
    notifications are SYNC then DATETIME_UPDATED; otherwise the decoder
    is not SYNCED, date and buffer are as before, and the last two
    notifications are SYNC then SYNC_LOST. *)
Theorem minute_is_decoded_or_dropped st t bits :
  reachable st → MSF_GetSyncState st = false →
  length bits = 59%nat → Forall (λ p, p ≠ (false, true)) bits →
  ∃ st', run st (wrap_times (minute bits t)) = Some st' ∧
    (∀ j, 1 ≤ j ≤ 59 →
          getBit (A_bits st') j = Some (default (false, false) (bits !! Z.to_nat (j - 1))).1 ∧
          getBit (B_bits st') j = Some (default (false, false) (bits !! Z.to_nat (j - 1))).2) ∧
    nBitNum st' = 1 ∧
    (frame_valid (A_bits st') (B_bits st') →
     MSF_GetSyncState st' = true ∧
     LocalDateTime st' = frame_time (A_bits st') (B_bits st') ∧
     (∀ p, pClientDateTime st = Some p →
           client_mem st' = <[ p := frame_time (A_bits st') (B_bits st') ]> (client_mem st)) ∧
     ∃ evs, delivered st'
            = notified MSF_EVENT_DATETIME_UPDATED st
              ++ notified MSF_EVENT_SYNC st ++ evs ++ delivered st) ∧
    (¬ frame_valid (A_bits st') (B_bits st') →
     MSF_GetSyncState st' = false ∧
     LocalDateTime st' = LocalDateTime st ∧
     client_mem st' = client_mem st ∧
     ∃ evs, delivered st'
            = notified MSF_EVENT_SYNC_LOST st
              ++ notified MSF_EVENT_SYNC st ++ evs ++ delivered st).
Proof.
  intros Hr Hsf Hlen Hno. apply reachable_inv in Hr.
  destruct (minute_runs st t bits Hr Hsf Hlen Hno)
    as (st' & Hrun & Hbits & Hn & Hpc & _ & _ & Hcase).
  assert (cursor_inv st') as (HA & HB & _).
  { eapply run_inv; [|done]. done. }
  exists st'. split; [done|]. split.
  { intros j Hj. rewrite !getBit_spec by (done || lia).
    by destruct (Hbits j Hj) as [-> ->]. }
  split; [done|]. rewrite frame_valid_first_failure. unfold MSF_GetSyncState.
  destruct (first_failure _).
  - split; [done|]. intros _. done.
  - split; [|done]. intros _.
    destruct Hcase as (? & ? & Hcm & ?). repeat split; try done.
    intros p Hp. by rewrite Hp in Hcm.
Qed.

(** X7.  Round trip: for every date and time within the ranges of
    MSF60decode.h, and every minute that carries it (BCD fields most
    significant bit first in A17..A51, A52 clear, A53..A58 set, A59
    clear, odd parity in B54..B57, DST in B58) and has no second with
    A=0 and B=1, the edges of the minute make a decoder that was not
    SYNCED store exactly that date and time, copy it into the registered
    buffer, and notify SYNC and DATETIME_UPDATED.  A minute with an
    A=0,B=1 second is not covered: the decoder takes such a second for
    two. *)
Theorem transmit_receive st t dt bits :
  reachable st → MSF_GetSyncState st = false →
  in_range dt → bHasValidTime dt = true → bDateTimeUpdated dt = true →
  carries bits dt → Forall (λ p, p ≠ (false, true)) bits →
  ∃ st', run st (wrap_times (minute bits t)) = Some st' ∧
         MSF_GetSyncState st' = true ∧
         LocalDateTime st' = dt ∧
         (∀ p, pClientDateTime st = Some p → client_mem st' !! p = Some dt) ∧
         ∃ evs, delivered st'
                = notified MSF_EVENT_DATETIME_UPDATED st
                  ++ notified MSF_EVENT_SYNC st ++ evs ++ delivered st.
Proof.
  intros Hr Hsf Hdt Hv Hu (Hlen & HcA & HcB) Hno. apply reachable_inv in Hr.
  destruct (minute_runs st t bits Hr Hsf Hlen Hno)
    as (st' & Hrun & Hbits & Hn & Hpc & _ & _ & Hcase).
  assert (∀ j, 17 ≤ j ≤ 59 → bit_at (A_bits st') j = encode_A dt j) as HA.
  { intros j Hj. destruct (Hbits j ltac:(lia)) as [-> _]. by apply HcA. }
  assert (∀ j, 54 ≤ j ≤ 58 → bit_at (B_bits st') j = encode_B dt j) as HB.
  { intros j Hj. destruct (Hbits j ltac:(lia)) as [_ ->]. by apply HcB. }
  rewrite (encoded_frame_valid _ _ dt HA HB) in Hcase.
  rewrite (encoded_frame_time _ _ dt Hdt Hv Hu HA HB) in Hcase.
  destruct Hcase as (? & ? & Hcm & ?).
  exists st'. unfold MSF_GetSyncState. repeat split; try done.
  intros p Hp. rewrite Hp in Hcm. rewrite Hcm. apply lookup_insert_eq.
Qed.

Arguments u8 : simpl never.

(** ** The ring buffers *)

Lemma mod_1024_sub w r :
  0 ≤ w < 1024 → 0 ≤ r < 1024 →
  (w - r) mod 1024 = if r <=? w then w - r else w - r + 1024.
Proof.
  intros Hw Hr. destruct (Z.leb_spec r w).
  - apply Z.mod_small. lia.
  - symmetry. apply (Z.mod_unique_pos _ _ (-1)); lia.
Qed.

Lemma mod_1024_succ i :
  0 ≤ i < 1024 → (i + 1) mod 1024 = if i =? 1023 then 0 else i + 1.
Proof.
  intros Hi. destruct (Z.eqb_spec i 1023) as [->|]; [done|].
  apply Z.mod_small. lia.
Qed.

Lemma ADVANCE_TX_BUFFER_INDEX_spec i :
  0 ≤ i < 1024 → ADVANCE_TX_BUFFER_INDEX i = (i + 1) mod 1024.
Proof.
  intros Hi. unfold ADVANCE_TX_BUFFER_INDEX, CONSOLE_TX_BUFFER_SIZE.
  rewrite u32_small; [done|]. change (2 ^ 32) with 4294967296. lia.
Qed.

Lemma ADVANCE_RX_BUFFER_INDEX_spec i :
  0 ≤ i < 1024 → ADVANCE_RX_BUFFER_INDEX i = (i + 1) mod 1024.
Proof.
  intros Hi. unfold ADVANCE_RX_BUFFER_INDEX, CONSOLE_RX_BUFFER_SIZE.
  rewrite u32_small; [done|]. change (2 ^ 32) with 4294967296. lia.
Qed.

Lemma ring_count_spec w r :
  0 ≤ w < 1024 → 0 ≤ r < 1024 →
  ring_count w r = (w - r) mod 1024 ∧ 0 ≤ ring_count w r < 1024.
Proof.
  intros Hw Hr. unfold ring_count. rewrite mod_1024_sub by done.
  destruct (Z.leb_spec r w).
  - rewrite u32_small by (change (2 ^ 32) with 4294967296; lia). lia.
  - rewrite (u32_small (r - w)) by (change (2 ^ 32) with 4294967296; lia).
    rewrite u32_small by (change (2 ^ 32) with 4294967296; lia). lia.
Qed.

Lemma ring_count_advance_write w r :
  0 ≤ w < 1024 → 0 ≤ r < 1024 →
  ring_count ((w + 1) mod 1024) r = (ring_count w r + 1) mod 1024.
Proof.
  intros Hw Hr.
  assert (0 ≤ (w + 1) mod 1024 < 1024) as Hw' by (apply Z.mod_pos_bound; lia).
  destruct (ring_count_spec _ _ Hw' Hr) as [-> _].
  destruct (ring_count_spec _ _ Hw Hr) as [-> _].
  rewrite Zminus_mod_idemp_l, Zplus_mod_idemp_l. f_equal. lia.
Qed.

Lemma ring_count_advance_read w r :
  0 ≤ w < 1024 → 0 ≤ r < 1024 → 0 < ring_count w r →
  ring_count w ((r + 1) mod 1024) = ring_count w r - 1.
Proof.
  intros Hw Hr.
  assert (0 ≤ (r + 1) mod 1024 < 1024) as Hr' by (apply Z.mod_pos_bound; lia).
  destruct (ring_count_spec _ _ Hw Hr') as [-> _].
  destruct (ring_count_spec _ _ Hw Hr) as [-> _].
  rewrite !mod_1024_sub, mod_1024_succ by (done || lia).
  destruct (Z.eqb_spec r 1023), (Z.leb_spec r w); intros;
    repeat match goal with
           | |- context [ ?a <=? ?b ] => destruct (Z.leb_spec a b)
           end; lia.
Qed.

Lemma ring_insert_ne (buffer : list Z) w c n :
  0 ≤ w < 1024 →
  ∀ r, 0 ≤ r < 1024 → Z.of_nat n ≤ (w - r) mod 1024 →
       ring (<[ Z.to_nat w := c ]> buffer) r n = ring buffer r n.
Proof.
  intros Hw. induction n as [|n IH]; intros r Hr Hn; [done|].
  cbn [ring].
  assert (0 ≤ (r + 1) mod 1024 < 1024) as Hr' by (apply Z.mod_pos_bound; lia).
  rewrite mod_1024_sub in Hn by done.
  rewrite list_lookup_insert_ne by (destruct (Z.leb_spec r w); lia).
  rewrite IH; [done|done|].
  rewrite mod_1024_sub, mod_1024_succ by (done || lia).
  destruct (Z.eqb_spec r 1023), (Z.leb_spec r w);
    repeat match goal with
           | |- context [ ?a <=? ?b ] => destruct (Z.leb_spec a b)
           end; lia.
Qed.

Lemma ring_snoc (buffer : list Z) n :
  ∀ r, 0 ≤ r < 1024 →
       ring buffer r (S n)
       = ring buffer r n
         ++ [default 0 (buffer !! Z.to_nat ((r + Z.of_nat n) mod 1024))].
Proof.
  induction n as [|n IH]; intros r Hr.
  - cbn. by rewrite Z.add_0_r, Z.mod_small by lia.
  - change (ring buffer r (S (S n)))
      with (default 0 (buffer !! Z.to_nat r) :: ring buffer ((r + 1) mod 1024) (S n)).
    rewrite IH by (apply Z.mod_pos_bound; lia).
    cbn [ring app].
    rewrite Zplus_mod_idemp_l.
    replace (r + 1 + Z.of_nat n) with (r + Z.of_nat (S n)) by lia. done.
Qed.

(** A store at the write index followed by its advance appends to the
    ring while the ring holds fewer than 1023 characters. *)
Lemma ring_push (buffer : list Z) w r c :
  length buffer = 1024%nat → 0 ≤ w < 1024 → 0 ≤ r < 1024 →
  ring_count w r + 1 < 1024 →
  ring (<[ Z.to_nat w := c ]> buffer) r
    (Z.to_nat (ring_count ((w + 1) mod 1024) r))
  = ring buffer r (Z.to_nat (ring_count w r)) ++ [c].
Proof.
  intros Hlen Hw Hr Hn.
  rewrite ring_count_advance_write by done.
  destruct (ring_count_spec _ _ Hw Hr) as [Hc Hb].
  rewrite (Z.mod_small (_ + 1)) by lia.
  replace (Z.to_nat (ring_count w r + 1)) with (S (Z.to_nat (ring_count w r))) by lia.
  rewrite ring_snoc by done.
  rewrite ring_insert_ne by (done || lia). f_equal.
  rewrite Z2Nat.id by lia. rewrite Hc.
  rewrite Zplus_mod_idemp_r. replace (r + (w - r)) with w by lia.
  rewrite Z.mod_small by lia.
  rewrite list_lookup_insert_eq by lia. done.
Qed.

(** An advance of the read index drops the oldest character. *)
Lemma ring_pop (buffer : list Z) w r :
  0 ≤ w < 1024 → 0 ≤ r < 1024 → 0 < ring_count w r →
  ring buffer r (Z.to_nat (ring_count w r))
  = default 0 (buffer !! Z.to_nat r)
    :: ring buffer ((r + 1) mod 1024) (Z.to_nat (ring_count w ((r + 1) mod 1024))).
Proof.
  intros Hw Hr Hn. rewrite ring_count_advance_read by done.
  replace (Z.to_nat (ring_count w r)) with (S (Z.to_nat (ring_count w r - 1))) by lia.
  done.
Qed.

Lemma Console_TxBufferCount_eq u :
  Console_TxBufferCount u = ring_count (TxWriteIndex u) (TxReadIndex u).
Proof. done. Qed.

Lemma Console_RxBufferCount_eq u :
  Console_RxBufferCount u = ring_count (RxWriteIndex u) (RxReadIndex u).
Proof. done. Qed.

Lemma Debug_TxBufferCount_eq u : Debug_TxBufferCount u = Console_TxBufferCount u.
Proof. done. Qed.

Arguments ring_count : simpl never.
Arguments ADVANCE_TX_BUFFER_INDEX : simpl never.
Arguments ADVANCE_RX_BUFFER_INDEX : simpl never.

Lemma TX_BUFFER_FULL_false u : uart_inv u → TX_BUFFER_FULL u = false.
Proof.
  intros (_ & Hw & Hr & _). unfold TX_BUFFER_FULL, CONSOLE_TX_BUFFER_SIZE.
  rewrite Console_TxBufferCount_eq.
  destruct (ring_count_spec _ _ Hw Hr) as [_ Hb]. lia.
Qed.

Lemma RX_BUFFER_FULL_false u : uart_inv u → RX_BUFFER_FULL u = false.
Proof.
  intros (_ & _ & _ & _ & Hw & Hr). unfold RX_BUFFER_FULL, CONSOLE_RX_BUFFER_SIZE.
  rewrite Console_RxBufferCount_eq.
  destruct (ring_count_spec _ _ Hw Hr) as [_ Hb]. lia.
Qed.

Lemma store_Some (buffer : list Z) i c :
  length buffer = 1024%nat → 0 ≤ i < 1024 →
  store buffer i c = Some (<[ Z.to_nat i := u8 c ]> buffer).
Proof.
  intros Hlen Hi. unfold store.
  destruct (lookup_lt_is_Some_2 buffer (Z.to_nat i) ltac:(lia)) as [x ->]. done.
Qed.

(** One character into the transmit ring. *)
Lemma Console_putchar_spec c u :
  uart_inv u →
  ∃ u', Console_putchar c u = Some (true, u') ∧ uart_inv u' ∧
        Console_TxBufferCount u' = (Console_TxBufferCount u + 1) mod 1024 ∧
        (Console_TxBufferCount u + 1 < 1024 → tx_queue u' = tx_queue u ++ [u8 c]) ∧
        TxReadIndex u' = TxReadIndex u ∧ tx_space u' = tx_space u ∧
        tx_sent u' = tx_sent u ∧ tx_int_enabled u' = tx_int_enabled u ∧
        same_rx u u'.
Proof.
  intros Hinv. unfold Console_putchar.
  rewrite (TX_BUFFER_FULL_false u Hinv).
  destruct Hinv as (Hlen & Hw & Hr & Hrx).
  rewrite store_Some by done. rewrite mbind_Some.
  eexists. split; [reflexivity|].
  unfold tx_queue. rewrite !Console_TxBufferCount_eq.
  destruct u as [tb tw tr rb rw rr sp se rx ie]. cbn in *.
  rewrite ADVANCE_TX_BUFFER_INDEX_spec by done.
  assert (0 ≤ (tw + 1) mod 1024 < 1024) by (apply Z.mod_pos_bound; lia).
  split.
  { unfold uart_inv. cbn. rewrite length_insert. tauto. }
  split; [by apply ring_count_advance_write|].
  split; [intros Hn; by apply ring_push|].
  unfold same_rx. cbn. tauto.
Qed.

(** The loop of [Console_write] stores every character. *)
Lemma Console_write_loop_spec pBuffer n :
  ∀ index cnt u,
    uart_inv u → 0 ≤ index → (Z.to_nat index + n ≤ length pBuffer)%nat →
    ∃ u', Console_write_loop n pBuffer index cnt u
          = Some (Nat.iter n (λ k, u32 (k + 1)) cnt, u') ∧
          uart_inv u' ∧
          Console_TxBufferCount u' = (Console_TxBufferCount u + Z.of_nat n) mod 1024 ∧
          (Console_TxBufferCount u + Z.of_nat n < 1024 →
           tx_queue u' = tx_queue u ++ (u8 <$> take n (drop (Z.to_nat index) pBuffer))) ∧
          TxReadIndex u' = TxReadIndex u ∧ tx_space u' = tx_space u ∧
          tx_sent u' = tx_sent u ∧ tx_int_enabled u' = tx_int_enabled u ∧
          same_rx u u'.
Proof.
  induction n as [|n IH]; intros index cnt u Hinv Hi Hlen.
  - exists u. split; [done|]. split; [done|].
    pose proof Hinv as (_ & Hw & Hr & _).
    rewrite Console_TxBufferCount_eq.
    destruct (ring_count_spec _ _ Hw Hr) as [_ Hb].
    split; [by rewrite Z.add_0_r, Z.mod_small|].
    split; [by rewrite take_0, app_nil_r|]. by unfold same_rx.
  - cbn [Console_write_loop].
    rewrite (TX_BUFFER_FULL_false u Hinv). cbn [negb].
    destruct (lookup_lt_is_Some_2 pBuffer (Z.to_nat index) ltac:(lia)) as [c Hc].
    rewrite Hc, mbind_Some.
    destruct (Console_putchar_spec c u Hinv)
      as (u1 & Hput & Hinv1 & Hcnt1 & Hq1 & Hr1 & Hsp1 & Hse1 & Hie1 & Hrx1).
    unfold Console_putchar in Hput.
    rewrite (TX_BUFFER_FULL_false u Hinv) in Hput.
    destruct (store _ _ _) as [b|]; [|done]. rewrite mbind_Some in *.
    injection Hput as Hput. cbv zeta. rewrite Hput.
    destruct (IH (index + 1) (u32 (cnt + 1)) u1 Hinv1 ltac:(lia) ltac:(lia))
      as (u2 & Hrun & Hinv2 & Hcnt2 & Hq2 & Hr2 & Hsp2 & Hse2 & Hie2 & Hrx2).
    exists u2. split.
    { rewrite Hrun. do 2 f_equal. by rewrite Nat.iter_succ_r. }
    split; [done|]. split.
    { rewrite Hcnt2, Hcnt1, Zplus_mod_idemp_l. f_equal. lia. }
    split.
    { intros Hn. pose proof Hinv as (_ & Hw & Hr & _).
      pose proof (ring_count_spec _ _ Hw Hr) as [_ Hb].
      rewrite <- Console_TxBufferCount_eq in Hb.
      rewrite Hq2 by (rewrite Hcnt1, Z.mod_small by lia; lia).
      rewrite Hq1 by lia. rewrite <- app_assoc. f_equal.
      rewrite (drop_S _ c (Z.to_nat index)) by done.
      replace (Z.to_nat (index + 1)) with (S (Z.to_nat index)) by lia.
      done. }
    unfold same_rx in *. intuition congruence.
Qed.

(** The loop of [PrimeTheTransmitFIFO] hands the oldest characters to the
    UART, as many as it has places for. *)
Lemma PrimeTheTransmitFIFO_loop_spec space :
  ∀ u, uart_inv u →
       ∃ u', PrimeTheTransmitFIFO_loop space u = Some u' ∧ uart_inv u' ∧
             tx_sent u' = tx_sent u ++ take space (tx_queue u) ∧
             tx_queue u' = drop space (tx_queue u) ∧
             TxBuffer u' = TxBuffer u ∧ TxWriteIndex u' = TxWriteIndex u ∧
             tx_int_enabled u' = tx_int_enabled u ∧ same_rx u u'.
Proof.
  induction space as [|space IH]; intros u Hinv.
  - exists u. split; [done|]. split; [done|].
    rewrite take_0, drop_0, app_nil_r. by unfold same_rx.
  - cbn [PrimeTheTransmitFIFO_loop]. unfold TX_BUFFER_EMPTY.
    pose proof Hinv as (Hlen & Hw & Hr & Hrx).
    pose proof (ring_count_spec _ _ Hw Hr) as [_ Hb].
    rewrite Console_TxBufferCount_eq.
    destruct (Z.eqb_spec (ring_count (TxWriteIndex u) (TxReadIndex u)) 0) as [H0|H0].
    + exists u. split; [done|]. split; [done|].
      unfold tx_queue. rewrite Console_TxBufferCount_eq, H0. cbn.
      rewrite app_nil_r. by unfold same_rx.
    + cbn [negb].
      destruct (lookup_lt_is_Some_2 (TxBuffer u) (Z.to_nat (TxReadIndex u))
                  ltac:(lia)) as [c Hc].
      rewrite Hc, mbind_Some. cbv zeta.
      set (u1 := set_TxReadIndex _ _).
      assert (uart_inv u1 ∧ tx_queue u = c :: tx_queue u1 ∧
              tx_sent u1 = tx_sent u ++ [c] ∧
              TxBuffer u1 = TxBuffer u ∧ TxWriteIndex u1 = TxWriteIndex u ∧
              tx_int_enabled u1 = tx_int_enabled u ∧ same_rx u u1)
        as (Hinv1 & Hq & Hse & Hb1 & Hw1 & Hie1 & Hrx1).
      { subst u1. unfold tx_queue. rewrite !Console_TxBufferCount_eq.
        destruct u as [tb tw tr rb rw rr sp se rx ie]. cbn in *.
        rewrite ADVANCE_TX_BUFFER_INDEX_spec by done.
        assert (0 ≤ (tr + 1) mod 1024 < 1024) by (apply Z.mod_pos_bound; lia).
        split; [unfold uart_inv; cbn; tauto|].
        split; [rewrite ring_pop by (done || lia); by rewrite Hc|].
        unfold same_rx. cbn. tauto. }
      destruct (IH u1 Hinv1) as (u2 & Hrun & Hinv2 & Hse2 & Hq2 & Hb2 & Hw2 & Hie2 & Hrx2).
      exists u2. split; [done|]. split; [done|].
      rewrite Hq. cbn [take drop]. rewrite Hse2, Hse, <- app_assoc.
      unfold same_rx in *. intuition congruence.
Qed.

Lemma PrimeTheTransmitFIFO_spec u :
  uart_inv u →
  ∃ u', PrimeTheTransmitFIFO u = Some u' ∧ uart_inv u' ∧
        tx_sent u' = tx_sent u ++ take (tx_space u) (tx_queue u) ∧
        tx_queue u' = drop (tx_space u) (tx_queue u) ∧
        TxBuffer u' = TxBuffer u ∧ TxWriteIndex u' = TxWriteIndex u ∧
        tx_int_enabled u' = tx_int_enabled u ∧ same_rx u u'.
Proof.
  intros Hinv. unfold PrimeTheTransmitFIFO.
  destruct (TX_BUFFER_EMPTY u) eqn:He; cbn [negb].
  - exists u. split; [done|]. split; [done|].
    unfold TX_BUFFER_EMPTY in He. apply Z.eqb_eq in He.
    unfold tx_queue. rewrite He. change (Z.to_nat 0) with 0%nat. cbn [ring].
    rewrite take_nil, drop_nil, app_nil_r.
    by unfold same_rx.
  - by apply PrimeTheTransmitFIFO_loop_spec.
Qed.

Lemma Debug_write_loop_eq n :
  ∀ pBuffer index cnt u,
    Debug_write_loop n pBuffer index cnt u = Console_write_loop n pBuffer index cnt u.
Proof.
  induction n as [|n IH]; intros; [done|].
  cbn [Debug_write_loop Console_write_loop].
  change (Debug_TxBufferCount u =? DEBUG_UART_TX_BUFFER_SIZE) with (TX_BUFFER_FULL u).
  destruct (TX_BUFFER_FULL u); [done|]. cbn [negb].
  destruct (pBuffer !! _); [|done]. rewrite !mbind_Some.
  destruct (store _ _ _); [|done]. rewrite !mbind_Some. cbv zeta.
  apply IH.
Qed.

Lemma Debug_write_eq pBuffer len u :
  Debug_write pBuffer len u = Console_write pBuffer len u.
Proof.
  unfold Debug_write, Console_write. by rewrite Debug_write_loop_eq.
Qed.

Lemma iter_count n :
  Z.of_nat n < 2 ^ 32 → Nat.iter n (λ k, u32 (k + 1)) 0 = Z.of_nat n.
Proof.
  induction n as [|n IH]; intros Hn; [done|].
  rewrite Nat.iter_succ, IH by lia.
  rewrite u32_small; lia.
Qed.

(** The whole of [Console_write]. *)
Lemma Console_write_spec pBuffer len u :
  uart_inv u → 0 ≤ len < 2 ^ 32 → (Z.to_nat len ≤ length pBuffer)%nat →
  ∃ u', Console_write pBuffer len u = Some (len, u') ∧ uart_inv u' ∧
        same_rx u u' ∧
        (tx_space u = 0%nat →
         Console_TxBufferCount u' = (Console_TxBufferCount u + len) mod 1024) ∧
        (Console_TxBufferCount u + len < 1024 →
         tx_sent u' = tx_sent u
                      ++ take (tx_space u) (tx_queue u ++ (u8 <$> take (Z.to_nat len) pBuffer)) ∧
         tx_queue u' = drop (tx_space u) (tx_queue u ++ (u8 <$> take (Z.to_nat len) pBuffer))).
Proof.
  intros Hinv Hlen Hbuf. unfold Console_write.
  destruct (Console_write_loop_spec pBuffer (Z.to_nat len) 0 0 u Hinv ltac:(lia)
              ltac:(cbn; lia))
    as (u1 & Hrun & Hinv1 & Hcnt1 & Hq1 & Hr1 & Hsp1 & Hse1 & Hie1 & Hrx1).
  rewrite Hrun, mbind_Some. cbn [fst snd].
  rewrite iter_count by lia. rewrite Z2Nat.id in * by lia.
  change (drop (Z.to_nat 0) pBuffer) with pBuffer in Hq1.
  destruct (PrimeTheTransmitFIFO_spec u1 Hinv1)
    as (u2 & Hp & Hinv2 & Hse2 & Hq2 & Hb2 & Hw2 & Hie2 & Hrx2).
  destruct (TX_BUFFER_EMPTY u1) eqn:He; cbn [negb]; rewrite ?mbind_Some.
  - exists u1. split; [done|]. split; [done|]. split; [done|].
    split; [done|]. intros Hfit. specialize (Hq1 Hfit).
    unfold TX_BUFFER_EMPTY in He. apply Z.eqb_eq in He.
    assert (tx_queue u1 = []) as Hnil.
    { unfold tx_queue. by rewrite He. }
    rewrite <- Hq1, Hnil, take_nil, drop_nil, app_nil_r. done.
  - rewrite Hp, mbind_Some. eexists. split; [reflexivity|].
    assert (∀ v, uart_inv (set_tx_int_enabled v u2)) as Hinv3.
    { intros v. unfold uart_inv in *. by destruct u2. }
    assert (∀ v, tx_queue (set_tx_int_enabled v u2) = tx_queue u2) as Hq3.
    { intros v. by destruct u2. }
    assert (∀ v, Console_TxBufferCount (set_tx_int_enabled v u2)
                 = Console_TxBufferCount u2) as Hc3.
    { intros v. by destruct u2. }
    assert (∀ v, tx_sent (set_tx_int_enabled v u2) = tx_sent u2) as Hs3.
    { intros v. by destruct u2. }
    assert (∀ v, same_rx u2 (set_tx_int_enabled v u2)) as Hr3.
    { intros v. unfold same_rx. by destruct u2. }
    split; [done|]. split.
    { specialize (Hr3 true). unfold same_rx in *. intuition congruence. }
    split.
    + intros Hsp. rewrite Hc3.
      assert (Console_TxBufferCount u2 = Console_TxBufferCount u1) as ->; [|done].
      unfold PrimeTheTransmitFIFO in Hp. rewrite He, Hsp1, Hsp in Hp.
      cbn in Hp. by injection Hp as <-.
    + intros Hfit. specialize (Hq1 Hfit).
      rewrite Hs3, Hq3, Hse2, Hq2, Hsp1, Hse1, Hq1. done.
Qed.

(** X15.  With the indices inside the arrays the counts of the three
    ring buffers are below the buffer size, so the FULL tests (count
    equal to the size) are never true.  When the read index is one ahead
    of the write index, the state the comment on the buffers calls full,
    the count is 1023, [Console_putchar] still stores its character and
    returns true, and the buffer is then empty: the 1023 queued
    characters are dropped. *)
Theorem buffer_full_never_detected u :
  uart_inv u →
  0 ≤ Console_TxBufferCount u < CONSOLE_TX_BUFFER_SIZE ∧
  0 ≤ Console_RxBufferCount u < CONSOLE_RX_BUFFER_SIZE ∧
  0 ≤ Debug_TxBufferCount u < DEBUG_UART_TX_BUFFER_SIZE ∧
  TX_BUFFER_FULL u = false ∧ RX_BUFFER_FULL u = false ∧
  (TxReadIndex u = (TxWriteIndex u + 1) mod 1024 →
   Console_TxBufferCount u = 1023 ∧
   ∃ u', Console_putchar 0 u = Some (true, u') ∧ TX_BUFFER_EMPTY u' = true).
Proof.
  intros Hinv. pose proof Hinv as (Hlen & Hw & Hr & Hrlen & Hrw & Hrr).
  change (Debug_TxBufferCount u) with (ring_count (TxWriteIndex u) (TxReadIndex u)).
  change (Console_TxBufferCount u) with (ring_count (TxWriteIndex u) (TxReadIndex u)).
  change (Console_RxBufferCount u) with (ring_count (RxWriteIndex u) (RxReadIndex u)).
  destruct (ring_count_spec _ _ Hw Hr) as [Hc Hb].
  destruct (ring_count_spec _ _ Hrw Hrr) as [_ Hrb].
  unfold CONSOLE_TX_BUFFER_SIZE, CONSOLE_RX_BUFFER_SIZE, DEBUG_UART_TX_BUFFER_SIZE.
  split; [done|]. split; [done|]. split; [done|].
  split; [by apply TX_BUFFER_FULL_false|].
  split; [by apply RX_BUFFER_FULL_false|].
  intros Hone.
  assert (ring_count (TxWriteIndex u) (TxReadIndex u) = 1023) as H1023.
  { rewrite Hc, Hone. rewrite mod_1024_succ, mod_1024_sub by
      (done || (destruct (Z.eqb_spec (TxWriteIndex u) 1023); lia)).
    destruct (Z.eqb_spec (TxWriteIndex u) 1023);
      repeat match goal with
             | |- context [ ?a <=? ?b ] => destruct (Z.leb_spec a b)
             end; lia. }
  split; [done|].
  destruct (Console_putchar_spec 0 u Hinv) as (u' & Hput & _ & Hcnt & _).
  exists u'. split; [done|]. unfold TX_BUFFER_EMPTY.
  rewrite Hcnt, Console_TxBufferCount_eq, H1023. done.
Qed.

(** X16.  [Console_write] and [Debug_write] never take the branch for a
    full buffer: they store all [len] characters and return [len].  With
    no free place in the FIFO of the UART the count afterwards is the old
    count plus [len] modulo 1024, so a write beyond the free space drops
    a whole buffer of characters. *)
Theorem write_never_refuses pBuffer len u :
  uart_inv u → 0 ≤ len < 2 ^ 32 → (Z.to_nat len ≤ length pBuffer)%nat →
  ∃ u', Console_write pBuffer len u = Some (len, u') ∧
        Debug_write pBuffer len u = Some (len, u') ∧
        uart_inv u' ∧
        (tx_space u = 0%nat →
         Console_TxBufferCount u' = (Console_TxBufferCount u + len) mod 1024).
Proof.
  intros Hinv Hlen Hbuf.
  destruct (Console_write_spec pBuffer len u Hinv Hlen Hbuf)
    as (u' & Hw & Hinv' & _ & Hcnt & _).
  exists u'. split; [done|]. split; [|done].
  by rewrite Debug_write_eq.
Qed.

(** X17.  When the characters fit (count + [len] < 1024) [Console_write]
    loses nothing and keeps the order: the characters handed to the UART
    followed by those still queued are the ones before the call followed
    by the [len] characters written, and the UART has been given as many
    of them as it had free places. *)
Theorem Console_write_keeps_order pBuffer len u :
  uart_inv u → 0 ≤ len → (Z.to_nat len ≤ length pBuffer)%nat →
  Console_TxBufferCount u + len < 1024 →
  ∃ u', Console_write pBuffer len u = Some (len, u') ∧
        tx_sent u' ++ tx_queue u'
        = tx_sent u ++ tx_queue u ++ (u8 <$> take (Z.to_nat len) pBuffer) ∧
        tx_sent u' = tx_sent u
                     ++ take (tx_space u)
                          (tx_queue u ++ (u8 <$> take (Z.to_nat len) pBuffer)).
Proof.
  intros Hinv Hlen Hbuf Hfit.
  pose proof Hinv as (_ & Hw & Hr & _).
  destruct (ring_count_spec _ _ Hw Hr) as [_ Hb].
  rewrite <- Console_TxBufferCount_eq in Hb.
  destruct (Console_write_spec pBuffer len u Hinv
              ltac:(change (2 ^ 32) with 4294967296; lia) Hbuf)
    as (u' & Hwr & _ & _ & _ & Hq).
  destruct (Hq Hfit) as [Hse Hqu].
  exists u'. split; [done|]. split; [|done].
  rewrite Hse, Hqu, <- app_assoc. f_equal. apply take_drop.
Qed.

Lemma Console_puts_loop_spec str rest :
  Forall (λ c, 0 < c < 256) str →
  ∀ u, uart_inv u →
       Console_TxBufferCount u + Z.of_nat (length str) < 1024 →
       ∃ u', Console_puts_loop (str ++ 0 :: rest) u = Some u' ∧ uart_inv u' ∧
             Console_TxBufferCount u'
             = Console_TxBufferCount u + Z.of_nat (length str) ∧
             tx_queue u' = tx_queue u ++ str ∧
             tx_space u' = tx_space u ∧ tx_sent u' = tx_sent u ∧
             tx_int_enabled u' = tx_int_enabled u ∧ same_rx u u'.
Proof.
  induction 1 as [|c str Hc _ IH]; intros u Hinv Hfit.
  - exists u. cbn. rewrite Z.add_0_r, app_nil_r. by unfold same_rx.
  - cbn [app Console_puts_loop length] in *.
    destruct (Z.eqb_spec c 0); [lia|].
    destruct (Console_putchar_spec c u Hinv)
      as (u1 & -> & Hinv1 & Hcnt1 & Hq1 & Hr1 & Hsp1 & Hse1 & Hie1 & Hrx1).
    rewrite mbind_Some. cbn [snd].
    pose proof Hinv as (_ & Hw & Hr & _).
    destruct (ring_count_spec _ _ Hw Hr) as [_ Hb].
    rewrite <- Console_TxBufferCount_eq in Hb.
    rewrite Z.mod_small in Hcnt1 by lia.
    destruct (IH u1 Hinv1 ltac:(lia))
      as (u2 & -> & Hinv2 & Hcnt2 & Hq2 & Hsp2 & Hse2 & Hie2 & Hrx2).
    exists u2. split; [done|]. split; [done|].
    split; [lia|]. split.
    { rewrite Hq2, Hq1 by lia. rewrite <- app_assoc. cbn.
      by rewrite (u8_small c) by (change (2 ^ 8) with 256; lia). }
    unfold same_rx in *. intuition congruence.
Qed.

(** X18.  [Console_puts] queues the characters of the string up to its
    terminator and then one line feed: of the two characters LF, CR it
    passes to [Console_write], the length 1 lets only the first through. *)
Theorem Console_puts_sends_line_feed_only str rest u :
  uart_inv u → Forall (λ c, 0 < c < 256) str →
  Console_TxBufferCount u + Z.of_nat (length str) + 1 < 1024 →
  ∃ u', Console_puts (str ++ 0 :: rest) u = Some u' ∧
        tx_sent u' ++ tx_queue u' = tx_sent u ++ tx_queue u ++ str ++ [10] ∧
        tx_sent u' = tx_sent u ++ take (tx_space u) (tx_queue u ++ str ++ [10]).
Proof.
  intros Hinv Hstr Hfit. unfold Console_puts.
  destruct (Console_puts_loop_spec str rest Hstr u Hinv ltac:(lia))
    as (u1 & -> & Hinv1 & Hcnt1 & Hq1 & Hsp1 & Hse1 & _).
  rewrite mbind_Some.
  destruct (Console_write_spec [10; 13; 0] 1 u1 Hinv1 ltac:(done) ltac:(cbn; lia))
    as (u2 & -> & _ & _ & _ & Hq).
  rewrite mbind_Some. cbn [snd].
  destruct (Hq ltac:(lia)) as [Hse2 Hq2].
  change (u8 <$> take (Z.to_nat 1) [10; 13; 0]) with [10] in *.
  rewrite Hq1, Hsp1, Hse1, <- app_assoc in *.
  exists u2. split; [done|]. split; [|done].
  rewrite Hse2, Hq2, <- app_assoc. f_equal. apply take_drop.
Qed.

(** One received character into the receive ring. *)
Lemma rx_store_spec c u :
  uart_inv u →
  ∃ b, store (RxBuffer u) (RxWriteIndex u) c = Some b ∧
       let u' := set_RxWriteIndex
                   (ADVANCE_RX_BUFFER_INDEX (RxWriteIndex (set_RxBuffer b u)))
                   (set_RxBuffer b u) in
       uart_inv u' ∧
       Console_RxBufferCount u' = (Console_RxBufferCount u + 1) mod 1024 ∧
       (Console_RxBufferCount u + 1 < 1024 → rx_queue u' = rx_queue u ++ [u8 c]) ∧
       RxReadIndex u' = RxReadIndex u ∧ rx_waiting u' = rx_waiting u ∧
       same_tx u u'.
Proof.
  intros (Htx & Htw & Htr & Hlen & Hw & Hr).
  rewrite store_Some by done. eexists. split; [reflexivity|].
  unfold rx_queue. rewrite !Console_RxBufferCount_eq.
  destruct u as [tb tw tr rb rw rr sp se rx ie]. cbn in *.
  rewrite ADVANCE_RX_BUFFER_INDEX_spec by done.
  assert (0 ≤ (rw + 1) mod 1024 < 1024) by (apply Z.mod_pos_bound; lia).
  split.
  { unfold uart_inv. cbn. rewrite length_insert. tauto. }
  split; [by apply ring_count_advance_write|].
  split; [intros Hn; by apply ring_push|].
  unfold same_tx. cbn. tauto.
Qed.

Lemma ConsoleUARTIntHandler_rx_spec waiting :
  ∀ u, uart_inv u →
       ∃ u', ConsoleUARTIntHandler_rx waiting u = Some u' ∧ uart_inv u' ∧
             Console_RxBufferCount u'
             = (Console_RxBufferCount u + Z.of_nat (length waiting)) mod 1024 ∧
             (Console_RxBufferCount u + Z.of_nat (length waiting) < 1024 →
              rx_queue u' = rx_queue u ++ (u8 <$> waiting)) ∧
             RxReadIndex u' = RxReadIndex u ∧
             rx_waiting u' = match waiting with [] => rx_waiting u | _ => [] end ∧
             same_tx u u'.
Proof.
  induction waiting as [|c waiting IH]; intros u Hinv.
  - exists u. split; [done|]. split; [done|].
    pose proof Hinv as (_ & _ & _ & _ & Hw & Hr).
    rewrite Console_RxBufferCount_eq.
    destruct (ring_count_spec _ _ Hw Hr) as [_ Hb]. cbn [length].
    split; [by rewrite Z.add_0_r, Z.mod_small|].
    split; [by rewrite app_nil_r|]. by unfold same_tx.
  - cbn [ConsoleUARTIntHandler_rx length]. cbv zeta.
    set (u0 := set_rx_waiting waiting u).
    assert (uart_inv u0 ∧ Console_RxBufferCount u0 = Console_RxBufferCount u ∧
            rx_queue u0 = rx_queue u ∧ RxReadIndex u0 = RxReadIndex u ∧
            rx_waiting u0 = waiting ∧ same_tx u u0)
      as (Hinv0 & Hc0 & Hq0 & Hr0 & Hw0 & Htx0).
    { subst u0. unfold uart_inv, same_tx in *. by destruct u. }
    rewrite (RX_BUFFER_FULL_false u0 Hinv0). cbn [negb].
    destruct (rx_store_spec c u0 Hinv0)
      as (b & -> & Hinv1 & Hcnt1 & Hq1 & Hr1 & Hw1 & Htx1).
    rewrite !mbind_Some.
    set (u1 := set_RxWriteIndex _ _) in *.
    destruct (IH u1 Hinv1) as (u2 & -> & Hinv2 & Hcnt2 & Hq2 & Hr2 & Hw2 & Htx2).
    exists u2. split; [done|]. split; [done|]. split.
    { rewrite Hcnt2, Hcnt1, Hc0, Zplus_mod_idemp_l. f_equal. lia. }
    split.
    { intros Hn. pose proof Hinv as (_ & _ & _ & _ & Hw & Hr).
      pose proof (ring_count_spec _ _ Hw Hr) as [_ Hb].
      rewrite <- Console_RxBufferCount_eq in Hb.
      rewrite Hq2 by (rewrite Hcnt1, Hc0, Z.mod_small by lia; lia).
      rewrite Hq1 by lia. rewrite Hq0, <- app_assoc. done. }
    split; [congruence|]. split.
    { rewrite Hw2. destruct waiting; [|done]. congruence. }
    unfold same_tx in *. intuition congruence.
Qed.

(** X19.  The receive half of [ConsoleUARTIntHandler] empties the
    receive FIFO of the UART into the receive ring in order of arrival
    when the characters fit, and leaves the transmit side alone. *)
Theorem received_characters_are_queued u :
  uart_inv u →
  Console_RxBufferCount u + Z.of_nat (length (rx_waiting u)) < 1024 →
  ∃ u', ConsoleUARTIntHandler false true u = Some u' ∧ uart_inv u' ∧
        rx_queue u' = rx_queue u ++ (u8 <$> rx_waiting u) ∧
        rx_waiting u' = [] ∧
        tx_queue u' = tx_queue u ∧ tx_sent u' = tx_sent u.
Proof.
  intros Hinv Hfit. unfold ConsoleUARTIntHandler. rewrite mbind_Some.
  destruct (ConsoleUARTIntHandler_rx_spec (rx_waiting u) u Hinv)
    as (u' & -> & Hinv' & _ & Hq & _ & Hw & Htx).
  exists u'. split; [done|]. split; [done|]. split; [by apply Hq|].
  split; [rewrite Hw; by destruct (rx_waiting u)|].
  destruct Htx as (Hb & Hw' & Hr' & _ & Hse & _).
  split; [|done]. unfold tx_queue, Console_TxBufferCount. by rewrite Hb, Hw', Hr'.
Qed.

(** X20.  [Console_getchar] returns the oldest received character and
    removes it from the receive ring; on an empty ring it does not return
    (it waits for the interrupt handler to store a character). *)
Theorem Console_getchar_reads_oldest u :
  uart_inv u →
  match rx_queue u with
  | [] => Console_getchar u = None
  | c :: q => ∃ u', Console_getchar u = Some (c, u') ∧ uart_inv u' ∧
                    rx_queue u' = q ∧
                    Console_RxBufferCount u' = Console_RxBufferCount u - 1
  end.
Proof.
  intros Hinv. pose proof Hinv as (_ & _ & _ & Hlen & Hw & Hr).
  unfold Console_getchar, RX_BUFFER_EMPTY, rx_queue.
  rewrite !Console_RxBufferCount_eq.
  destruct (ring_count_spec _ _ Hw Hr) as [_ Hb].
  destruct (Z.eqb_spec (ring_count (RxWriteIndex u) (RxReadIndex u)) 0) as [H0|H0].
  - by rewrite H0.
  - rewrite ring_pop by (done || lia).
    destruct (lookup_lt_is_Some_2 (RxBuffer u) (Z.to_nat (RxReadIndex u))
                ltac:(lia)) as [c Hc].
    rewrite Hc, mbind_Some. cbn [default from_option id].
    eexists. split; [reflexivity|].
    unfold rx_queue. rewrite !Console_RxBufferCount_eq.
    destruct u as [tb tw tr rb rw rr sp se rx ie]. cbn in *.
    rewrite ADVANCE_RX_BUFFER_INDEX_spec by done.
    assert (0 ≤ (rr + 1) mod 1024 < 1024) by (apply Z.mod_pos_bound; lia).
    split; [unfold uart_inv in *; cbn in *; tauto|].
    split; [done|]. apply ring_count_advance_read; (done || lia).
Qed.

(** X21.  On a transmit interrupt [ConsoleUARTIntHandler] hands the
    oldest queued characters to the UART, as many as its FIFO has free
    places, keeps the rest queued in order, and leaves the transmit
    interrupt enabled exactly when the ring was not empty on entry. *)
Theorem transmit_interrupt_feeds_the_uart u :
  uart_inv u →
  ∃ u', ConsoleUARTIntHandler true false u = Some u' ∧ uart_inv u' ∧
        tx_sent u' = tx_sent u ++ take (tx_space u) (tx_queue u) ∧
        tx_queue u' = drop (tx_space u) (tx_queue u) ∧
        tx_int_enabled u' = negb (TX_BUFFER_EMPTY u) ∧
        rx_queue u' = rx_queue u.
Proof.
  intros Hinv. unfold ConsoleUARTIntHandler.
  destruct (TX_BUFFER_EMPTY u) eqn:He.
  - rewrite mbind_Some. eexists. split; [reflexivity|].
    unfold TX_BUFFER_EMPTY in He. apply Z.eqb_eq in He.
    assert (tx_queue u = []) as Hnil by (unfold tx_queue; by rewrite He).
    rewrite Hnil, take_nil, drop_nil, app_nil_r.
    unfold uart_inv in *. by destruct u.
  - destruct (PrimeTheTransmitFIFO_spec u Hinv)
      as (u1 & -> & Hinv1 & Hse & Hq & Hb & Hw & Hie & Hrx).
    rewrite !mbind_Some. eexists. split; [reflexivity|].
    destruct Hrx as (Hrb & Hrw & Hrr & _).
    assert (rx_queue u1 = rx_queue u) as Hrq.
    { unfold rx_queue, Console_RxBufferCount. by rewrite Hrb, Hrw, Hrr. }
    rewrite <- Hse, <- Hq, <- Hrq.
    unfold uart_inv in *. by destruct u1.
Qed.

(** ** The formatter *)

Lemma digits_value_snoc b ds d :
  digits_value b (ds ++ [d]) = digits_value b ds * b + d.
Proof. unfold digits_value. by rewrite fold_left_app. Qed.

Lemma digits_value_digits b fuel :
  2 ≤ b → ∀ v, 0 ≤ v < b ^ Z.of_nat fuel → digits_value b (digits fuel b v) = v.
Proof.
  intros Hb. induction fuel as [|fuel IH]; intros v Hv.
  - change (b ^ Z.of_nat 0) with 1 in Hv. unfold digits_value. cbn. lia.
  - cbn [digits]. rewrite digits_value_snoc.
    destruct (Z.ltb_spec v b).
    + cbn. rewrite Z.mod_small by lia. done.
    + rewrite IH.
      * rewrite (Z.div_mod v b) at 3 by lia. lia.
      * rewrite Nat2Z.inj_succ, Z.pow_succ_r in Hv by lia.
        split; [apply Z.div_pos; lia|].
        apply Z.div_lt_upper_bound; lia.
Qed.

Lemma digits_bounds b fuel :
  2 ≤ b → ∀ v, 0 ≤ v → Forall (λ d, 0 ≤ d < b) (digits fuel b v).
Proof.
  intros Hb. induction fuel as [|fuel IH]; intros v Hv; [constructor|].
  cbn [digits]. apply Forall_app. split.
  - destruct (v <? b); [constructor|]. apply IH. apply Z.div_pos; lia.
  - repeat constructor; apply Z.mod_pos_bound; lia.
Qed.

Lemma place_digits_snoc b v j :
  2 ≤ b → 0 ≤ v →
  place_digits b v (S j) = place_digits b (v / b) j ++ [v mod b].
Proof.
  intros Hb Hv. induction j as [|j IH].
  - cbn [place_digits app]. change (Z.of_nat 1) with 1. by rewrite Z.pow_1_r.
  - change (place_digits b v (S (S j)))
      with ((v / b ^ Z.of_nat (S (S j))) mod b :: place_digits b v (S j)).
    rewrite IH.
    change (place_digits b (v / b) (S j))
      with (((v / b) / b ^ Z.of_nat (S j)) mod b :: place_digits b (v / b) j).
    cbn [app]. f_equal. f_equal.
    rewrite (Nat2Z.inj_succ (S j)), Z.pow_succ_r by lia.
    rewrite Z.div_div by (try apply Z.pow_pos_nonneg; lia). done.
Qed.

Lemma top_place_div b v j :
  2 ≤ b → 0 ≤ v → top_place b v (S j) → top_place b (v / b) j.
Proof.
  intros Hb Hv [Hlt [?|Hge]]; [done|].
  rewrite Nat2Z.inj_succ in *.
  rewrite Z.pow_succ_r in Hge by lia.
  replace (Z.succ (Z.of_nat j) + 1) with (Z.succ (Z.of_nat j + 1)) in Hlt by lia.
  rewrite Z.pow_succ_r in Hlt by lia.
  assert (0 < b ^ Z.of_nat j) by (apply Z.pow_pos_nonneg; lia).
  split.
  - apply Z.div_lt_upper_bound; lia.
  - right. apply Z.div_le_lower_bound; lia.
Qed.

Lemma digits_place b j :
  2 ≤ b → ∀ v fuel, 0 ≤ v → top_place b v j → (j < fuel)%nat →
                    digits fuel b v = place_digits b v j.
Proof.
  intros Hb. induction j as [|j IH]; intros v fuel Hv Htop Hf;
    (destruct fuel as [|fuel]; [lia|]); cbn [digits].
  - destruct Htop as [Hlt _]. change (Z.of_nat 0 + 1) with 1 in Hlt.
    rewrite Z.pow_1_r in Hlt.
    destruct (Z.ltb_spec v b); [done|lia].
  - pose proof Htop as [_ [?|Hge]]; [done|].
    assert (b ≤ v).
    { rewrite Nat2Z.inj_succ, Z.pow_succ_r in Hge by lia.
      assert (0 < b ^ Z.of_nat j) by (apply Z.pow_pos_nonneg; lia). nia. }
    destruct (Z.ltb_spec v b); [lia|].
    rewrite (IH (v / b) fuel); [|apply Z.div_pos; lia|by apply top_place_div|lia].
    by rewrite place_digits_snoc.
Qed.

Lemma top_place_unique b v j j' :
  2 ≤ b → 0 ≤ v → top_place b v j → top_place b v j' → j = j'.
Proof.
  intros Hb Hv [Hlt Hge] [Hlt' Hge'].
  destruct (decide (j < j')%nat) as [Hl|Hl].
  { destruct Hge' as [->|Hge']; [lia|].
    assert (b ^ (Z.of_nat j + 1) ≤ b ^ Z.of_nat j') by (apply Z.pow_le_mono_r; lia).
    lia. }
  destruct (decide (j' < j)%nat) as [Hl'|Hl']; [|lia].
  destruct Hge as [->|Hge]; [lia|].
  assert (b ^ (Z.of_nat j' + 1) ≤ b ^ Z.of_nat j) by (apply Z.pow_le_mono_r; lia).
  lia.
Qed.

Lemma top_place_bound b v j :
  2 ≤ b → 0 ≤ v < 2 ^ 32 → top_place b v j → (j < 32)%nat.
Proof.
  intros Hb Hv [_ [->|Hge]]; [lia|].
  destruct (decide (j < 32)%nat); [done|].
  assert (2 ^ 32 ≤ b ^ Z.of_nat j); [|lia].
  transitivity (2 ^ Z.of_nat j).
  - apply Z.pow_le_mono_r; lia.
  - apply Z.pow_le_mono_l; lia.
Qed.

Lemma length_place_digits b v j : length (place_digits b v j) = S j.
Proof. induction j as [|j IH]; [done|]. cbn [place_digits length]. by rewrite IH. Qed.

(** Stores into [pcBuf] succeed while they fit. *)
Lemma pcBuf_put_spec pcBuf c :
  pcBuf_put pcBuf c
  = if decide (length pcBuf + 1 ≤ 16)%nat then Some (pcBuf ++ [c]) else None.
Proof.
  unfold pcBuf_put. destruct (Nat.ltb_spec (length pcBuf) 16);
    case_decide; (done || lia).
Qed.

Lemma convert_pad_spec n cFill :
  ∀ pcBuf, (length pcBuf ≤ 16)%nat →
           convert_pad n cFill pcBuf
           = if decide (length pcBuf + n ≤ 16)%nat
             then Some (pcBuf ++ replicate n cFill) else None.
Proof.
  induction n as [|n IH]; intros pcBuf Hlen; cbn [convert_pad replicate].
  - rewrite app_nil_r. by rewrite decide_True by lia.
  - rewrite pcBuf_put_spec. case_decide as H1.
    + rewrite mbind_Some, IH by (rewrite length_app; cbn; lia).
      rewrite length_app. cbn [length].
      rewrite <- app_assoc. cbn [app].
      repeat case_decide; (done || lia).
    + rewrite mbind_None. by rewrite decide_False by lia.
Qed.

(** The digit loop from the place value [b ^ j]. *)
Lemma convert_digits_spec b v j :
  2 ≤ b ≤ 16 → 0 ≤ v →
  ∀ fuel pcBuf,
    (j + 1 < fuel)%nat → (length pcBuf ≤ 16)%nat →
    convert_digits fuel v b (b ^ Z.of_nat j) pcBuf
    = if decide (length pcBuf + S j ≤ 16)%nat
      then Some (pcBuf ++ ((λ d, default 0 (pcHexChars !! Z.to_nat d))
                             <$> place_digits b v j))
      else None.
Proof.
  intros Hb Hv. induction j as [|j IH]; intros fuel pcBuf Hf Hlen;
    (destruct fuel as [|fuel]; [lia|]); cbn [convert_digits].
  - change (b ^ Z.of_nat 0) with 1.
    rewrite Z.div_1_r. cbn [Z.eqb].
    assert (0 ≤ v mod b < b) as Hd by (apply Z.mod_pos_bound; lia).
    destruct (lookup_lt_is_Some_2 pcHexChars (Z.to_nat (v mod b))
                ltac:(cbn; lia)) as [c Hc].
    rewrite Hc, mbind_Some, pcBuf_put_spec.
    case_decide as H1.
    + rewrite mbind_Some. destruct fuel as [|fuel]; [lia|]. cbn [convert_digits].
      rewrite Z.div_small by lia. cbn [Z.eqb].
      cbn [place_digits fmap list_fmap]. by rewrite Hc.
    + by rewrite mbind_None.
  - assert (0 < b ^ Z.of_nat (S j)) as Hpos by (apply Z.pow_pos_nonneg; lia).
    destruct (Z.eqb_spec (b ^ Z.of_nat (S j)) 0); [lia|].
    assert (0 ≤ (v / b ^ Z.of_nat (S j)) mod b < b) as Hd
      by (apply Z.mod_pos_bound; lia).
    destruct (lookup_lt_is_Some_2 pcHexChars
                (Z.to_nat ((v / b ^ Z.of_nat (S j)) mod b))
                ltac:(cbn; lia)) as [c Hc].
    rewrite Hc, mbind_Some, pcBuf_put_spec.
    case_decide as H1.
    + rewrite mbind_Some.
      replace (b ^ Z.of_nat (S j) / b) with (b ^ Z.of_nat j).
      2:{ rewrite Nat2Z.inj_succ, Z.pow_succ_r by lia.
          rewrite Z.mul_comm, Z.div_mul by lia. done. }
      rewrite IH by (rewrite ?length_app; cbn; lia).
      rewrite length_app. cbn [length].
      cbn [place_digits fmap list_fmap]. rewrite Hc.
      rewrite <- app_assoc. cbn [app default from_option id].
      repeat case_decide; (done || lia).
    + rewrite mbind_None. by rewrite decide_False by lia.
Qed.

Lemma u32_pred_iter count j :
  u32 (u32 (count - Z.of_nat j) - 1) = u32 (count - Z.of_nat (S j)).
Proof.
  unfold u32. rewrite Zminus_mod_idemp_l. f_equal. lia.
Qed.

Lemma top_place_exists b fuel :
  2 ≤ b → ∀ v, 0 ≤ v < b ^ Z.of_nat fuel → ∃ j, top_place b v j.
Proof.
  intros Hb. induction fuel as [|fuel IH]; intros v Hv.
  - change (b ^ Z.of_nat 0) with 1 in Hv. exists O. split; [|by left].
    change (Z.of_nat 0 + 1) with 1. rewrite Z.pow_1_r. lia.
  - destruct (Z.ltb_spec v b).
    + exists O. split; [|by left].
      change (Z.of_nat 0 + 1) with 1. rewrite Z.pow_1_r. lia.
    + rewrite Nat2Z.inj_succ, Z.pow_succ_r in Hv by lia.
      destruct (IH (v / b)) as [j [Hlt Hge]].
      { split; [apply Z.div_pos; lia|]. apply Z.div_lt_upper_bound; lia. }
      exists (S j).
      assert (0 < b ^ Z.of_nat j) by (apply Z.pow_pos_nonneg; lia).
      pose proof (Z.div_mod v b ltac:(lia)) as Hdm.
      pose proof (Z.mod_pos_bound v b ltac:(lia)) as Hm.
      split.
      * rewrite Nat2Z.inj_succ.
        replace (Z.succ (Z.of_nat j) + 1) with (Z.succ (Z.of_nat j + 1)) by lia.
        rewrite Z.pow_succ_r by lia. nia.
      * right. rewrite Nat2Z.inj_succ, Z.pow_succ_r by lia.
        destruct Hge as [->|Hge].
        -- change (b ^ Z.of_nat 0) with 1. lia.
        -- nia.
Qed.

Lemma top_place_digits b v j :
  2 ≤ b → 0 ≤ v < 2 ^ 32 → top_place b v j →
  digits 32 b v = place_digits b v j ∧ length (digits 32 b v) = S j.
Proof.
  intros Hb Hv Htop.
  pose proof (top_place_bound b v j Hb Hv Htop).
  rewrite (digits_place b j Hb v 32) by (done || lia).
  split; [done|]. apply length_place_digits.
Qed.

(** The width loop from the place value [b ^ i]: it stops at the place of
    the first digit, [m] places on. *)
Lemma convert_width_spec b v j :
  2 ≤ b ≤ 16 → 0 ≤ v < 2 ^ 32 → top_place b v j →
  ∀ (m i fuel : nat) count,
    (i + m = j)%nat → (m < fuel)%nat → 0 ≤ count < 2 ^ 32 →
    convert_width fuel v b (b ^ Z.of_nat i) count
    = Some (b ^ Z.of_nat j, u32 (count - Z.of_nat m)).
Proof.
  intros Hb Hv [Hlt Hge]. change (2 ^ 32) with 4294967296 in *.
  induction m as [|m IH]; intros i fuel count Hij Hf Hc;
    (destruct fuel as [|fuel]; [lia|]); cbn [convert_width].
  - assert (i = j) as -> by lia.
    rewrite Z.sub_0_r, (u32_small count) by (change (2 ^ 32) with 4294967296; lia).
    assert (0 < b ^ Z.of_nat j) as Hpos by (apply Z.pow_pos_nonneg; lia).
    assert (b ^ Z.of_nat j < 4294967296) as Hidx.
    { destruct Hge as [->|?]; [by change (b ^ Z.of_nat 0) with 1|lia]. }
    replace (b ^ (Z.of_nat j + 1)) with (b ^ Z.of_nat j * b) in Hlt
      by (rewrite Z.pow_add_r, Z.pow_1_r by lia; done).
    set (x := b ^ Z.of_nat j * b) in *.
    destruct (Z.leb_spec (u32 x) v) as [Hle|]; [|done]. cbn [andb].
    destruct (Z.eqb_spec (u32 x / b) (b ^ Z.of_nat j)) as [Heq|]; [|done].
    exfalso.
    assert (4294967296 ≤ x) as Hbig.
    { destruct (Z.lt_ge_cases x 4294967296) as [Hs|]; [|done].
      rewrite u32_small in Hle by (change (2 ^ 32) with 4294967296; subst x; nia).
      lia. }
    assert (u32 x ≤ x - 4294967296) as Hu.
    { unfold u32. change (2 ^ 32) with 4294967296.
      pose proof (Z.div_mod x 4294967296 ltac:(lia)) as Hdm.
      assert (1 ≤ x / 4294967296) by (apply Z.div_le_lower_bound; lia).
      lia. }
    assert (u32 x / b < b ^ Z.of_nat j); [|lia].
    apply Z.div_lt_upper_bound; [lia|]. subst x. nia.
  - assert (b ^ Z.of_nat (S i) ≤ b ^ Z.of_nat j) as Hpow
      by (apply Z.pow_le_mono_r; lia).
    destruct Hge as [->|Hge]; [lia|].
    assert (0 < b ^ Z.of_nat i) as Hpos by (apply Z.pow_pos_nonneg; lia).
    replace (b ^ Z.of_nat i * b) with (b ^ Z.of_nat (S i))
      by (rewrite Nat2Z.inj_succ, Z.pow_succ_r by lia; lia).
    rewrite (u32_small (b ^ Z.of_nat (S i)))
      by (change (2 ^ 32) with 4294967296; split; [apply Z.pow_nonneg|]; lia).
    destruct (Z.leb_spec (b ^ Z.of_nat (S i)) v); [|lia]. cbn [andb].
    replace (b ^ Z.of_nat (S i) / b) with (b ^ Z.of_nat i).
    2:{ rewrite Nat2Z.inj_succ, Z.pow_succ_r by lia.
        rewrite Z.mul_comm, Z.div_mul by lia. done. }
    rewrite Z.eqb_refl.
    rewrite (IH (S i) fuel (u32 (count - 1))); [|lia|lia|].
    + do 2 f_equal. unfold u32. rewrite Zminus_mod_idemp_l. f_equal. lia.
    + unfold u32. change (2 ^ 32) with 4294967296.
      apply Z.mod_pos_bound. lia.
Qed.

Lemma length_numeral b v : length (numeral b v) = length (digits 32 b v).
Proof. unfold numeral. by rewrite length_fmap. Qed.

Local Ltac conv_len :=
  cbn [length]; rewrite ?length_app, ?length_replicate; cbn [length]; lia.

Local Ltac conv_len_in :=
  cbn [length] in *; rewrite ?length_app, ?length_replicate in *;
  cbn [length] in *; rewrite ?length_app, ?length_replicate in *;
  cbn [length] in *; lia.

(** [convert] is [convert_chars] while the characters fit [pcBuf]. *)
Lemma convert_eq b v count neg cFill :
  2 ≤ b ≤ 16 → 0 ≤ v < 2 ^ 32 → 0 ≤ count < 2 ^ 32 →
  convert v b count neg cFill
  = if decide (length (convert_chars b v count neg cFill) ≤ 16)%nat
    then Some (convert_chars b v count neg cFill) else None.
Proof.
  intros Hb Hv Hc.
  destruct (top_place_exists b 32 ltac:(lia) v) as [j Htop].
  { split; [lia|]. assert (2 ^ 32 ≤ b ^ 32) by (apply Z.pow_le_mono_l; lia).
    change (Z.of_nat 32) with 32. lia. }
  destruct (top_place_digits b v j ltac:(lia) Hv Htop) as [Hdig Hlen].
  pose proof (top_place_bound b v j ltac:(lia) Hv Htop) as Hj.
  unfold convert.
  change (convert_width 33 v b 1 count)
    with (convert_width 33 v b (b ^ Z.of_nat 0) count).
  rewrite (convert_width_spec b v j Hb Hv Htop j 0 33 count) by (done || lia).
  rewrite mbind_Some. cbn [fst snd]. cbv zeta.
  unfold convert_chars, convert_padding, numeral.
  rewrite Hlen, Hdig.
  replace (Z.of_nat (S j) - 1) with (Z.of_nat j) by lia.
  assert (u32 (u32 (count - Z.of_nat j) - 1) = u32 (count - Z.of_nat j - 1)) as Hdec.
  { unfold u32. rewrite Zminus_mod_idemp_l. done. }
  set (ds := (λ d, default 0 (pcHexChars !! Z.to_nat d)) <$> place_digits b v j).
  assert (length ds = S j) as Hds
    by (subst ds; by rewrite length_fmap, length_place_digits).
  assert (∀ pcBuf, (length pcBuf ≤ 16)%nat →
            convert_digits 33 v b (b ^ Z.of_nat j) pcBuf
            = if decide (length pcBuf + S j ≤ 16)%nat
              then Some (pcBuf ++ ds) else None) as Hdigits.
  { intros pcBuf Hl. apply convert_digits_spec; (done || lia). }
  assert (u32 (count - Z.of_nat j - 0) = u32 (count - Z.of_nat j)) as Hdec0
    by (by rewrite Z.sub_0_r).
  destruct neg; cbn [andb negb]; rewrite ?Hdec, ?Hdec0;
    [set (rest := u32 (count - Z.of_nat j - 1))
    |set (rest := u32 (count - Z.of_nat j))];
    destruct (Z.eqb_spec cFill 48) as [->|Hfill]; cbn [negb];
    destruct ((1 <? rest) && (rest <? 16)) eqn:Hpad.
  all: try (apply andb_true_iff in Hpad as [Hp1 Hp2];
            apply Z.ltb_lt in Hp1, Hp2).
  all: repeat (first [ rewrite mbind_Some | rewrite mbind_None
                     | rewrite pcBuf_put_spec
                     | rewrite convert_pad_spec by conv_len
                     | rewrite Hdigits by conv_len
                     | case_decide ];
               cbn [fst snd app Z.to_nat replicate]).
  all: rewrite <- ?app_assoc; cbn [app]; try done.
  all: exfalso; conv_len_in.
Qed.

Arguments convert : simpl never.
Arguments Debug_write : simpl never.

Lemma top_place_digits_10 b v j :
  10 ≤ b → 0 ≤ v < 2 ^ 32 → top_place b v j → (j < 10)%nat.
Proof.
  intros Hb Hv [_ [->|Hge]]; [lia|].
  destruct (decide (j < 10)%nat); [done|].
  assert (2 ^ 32 < b ^ Z.of_nat j); [|lia].
  apply Z.lt_le_trans with (10 ^ 10); [done|].
  transitivity (10 ^ Z.of_nat j).
  - apply Z.pow_le_mono_r; lia.
  - apply Z.pow_le_mono_l; lia.
Qed.

Lemma length_digits_bounds b v :
  10 ≤ b ≤ 16 → 0 ≤ v < 2 ^ 32 → (1 ≤ length (digits 32 b v) ≤ 10)%nat.
Proof.
  intros Hb Hv.
  destruct (top_place_exists b 32 ltac:(lia) v) as [j Htop].
  { split; [lia|]. assert (2 ^ 32 ≤ b ^ 32) by (apply Z.pow_le_mono_l; lia).
    change (Z.of_nat 32) with 32. lia. }
  destruct (top_place_digits b v j ltac:(lia) Hv Htop) as [_ ->].
  pose proof (top_place_digits_10 b v j ltac:(lia) Hv Htop). lia.
Qed.

Lemma length_convert_chars b v count neg cFill :
  length (convert_chars b v count neg cFill)
  = ((if neg then 1 else 0)
     + Z.to_nat (convert_padding b v count neg)
     + length (digits 32 b v))%nat.
Proof.
  unfold convert_chars.
  rewrite !length_app, length_replicate, length_numeral.
  destruct neg, (cFill =? 48); cbn [andb negb length]; lia.
Qed.

Lemma convert_padding_eq b v count neg :
  10 ≤ b ≤ 16 → 0 ≤ v < 2 ^ 32 → 0 ≤ count < 2 ^ 32 →
  convert_padding b v count neg
  = let d := Z.of_nat (length (digits 32 b v)) in
    let s := if neg then 1 else 0 in
    if decide (d + s < count ≤ 14 + d + s) then count - d - s else 0.
Proof.
  intros Hb Hv Hc. cbv zeta. unfold convert_padding.
  pose proof (length_digits_bounds b v Hb Hv) as Hd.
  set (d := Z.of_nat (length (digits 32 b v))) in *.
  set (s := if neg then 1 else 0).
  assert (0 ≤ s ≤ 1) by (subst s; destruct neg; lia).
  assert (1 ≤ d ≤ 10) by lia.
  change (2 ^ 32) with 4294967296 in *.
  destruct (Z.le_gt_cases (d - 1 + s) count).
  - rewrite u32_small by (change (2 ^ 32) with 4294967296; lia).
    destruct (Z.ltb_spec 1 (count - (d - 1) - s)),
      (Z.ltb_spec (count - (d - 1) - s) 16); cbn [andb];
      case_decide; lia.
  - assert (u32 (count - (d - 1) - s) = count - (d - 1) - s + 4294967296) as ->.
    { unfold u32. change (2 ^ 32) with 4294967296.
      symmetry. apply (Z.mod_unique_pos _ _ (-1)); lia. }
    destruct (Z.ltb_spec 1 (count - (d - 1) - s + 4294967296)),
      (Z.ltb_spec (count - (d - 1) - s + 4294967296) 16); cbn [andb];
      case_decide; lia.
Qed.

(** X22.  The conversion of a number in [Debug_vprintf], base 10 or 16,
    for any width below 2^32: the digits stand for the value; padding
    is added only for the widths that leave 1 to 14 characters to fill,
    and the conversion is then as long as the width; it stores past the
    16 characters of [pcBuf] exactly for the widths from 17 to 14 plus
    the number of digits and the sign, and otherwise what is written is
    the sign, the padding and the digits. *)
Theorem convert_spec (b v count : Z) (neg : bool) (cFill : Z) :
  b = 10 ∨ b = 16 → 0 ≤ v < 2 ^ 32 → 0 ≤ count < 2 ^ 32 →
  let d := Z.of_nat (length (digits 32 b v)) in
  let s := if neg then 1 else 0 : Z in
  digits_value b (digits 32 b v) = v ∧
  Forall (λ x, 0 ≤ x < b) (digits 32 b v) ∧
  Z.of_nat (length (convert_chars b v count neg cFill))
  = (if decide (d + s < count ≤ 14 + d + s) then count else d + s) ∧
  (convert v b count neg cFill = None ↔ 17 ≤ count ≤ 14 + d + s) ∧
  (¬ (17 ≤ count ≤ 14 + d + s) →
   convert v b count neg cFill = Some (convert_chars b v count neg cFill)).
Proof.
  intros Hb Hv Hc. cbv zeta.
  assert (10 ≤ b ≤ 16) as Hb' by lia.
  pose proof (length_digits_bounds b v Hb' Hv) as Hd.
  split.
  { apply digits_value_digits; [lia|]. split; [lia|].
    assert (2 ^ 32 ≤ b ^ 32) by (apply Z.pow_le_mono_l; lia).
    change (Z.of_nat 32) with 32. lia. }
  split; [apply digits_bounds; lia|].
  assert (Z.of_nat (length (convert_chars b v count neg cFill))
          = if decide (Z.of_nat (length (digits 32 b v)) + (if neg then 1 else 0)
                       < count
                       ≤ 14 + Z.of_nat (length (digits 32 b v))
                         + (if neg then 1 else 0))
            then count
            else Z.of_nat (length (digits 32 b v)) + (if neg then 1 else 0))
    as Hlen.
  { rewrite length_convert_chars, convert_padding_eq by done. cbv zeta.
    case_decide; destruct neg; lia. }
  split; [done|].
  rewrite convert_eq by (done || lia).
  destruct (decide (length (convert_chars b v count neg cFill) ≤ 16)%nat)
    as [H16|H16].
  - split; [split; [done|]|done].
    intros H17. exfalso. case_decide; destruct neg; lia.
  - split; [split; [|done]|].
    + intros _. case_decide; destruct neg; lia.
    + intros Hno. exfalso. case_decide; destruct neg; lia.
Qed.

Lemma length_ring (buffer : list Z) n : ∀ r, length (ring buffer r n) = n.
Proof. induction n as [|n IH]; intros r; [done|]. cbn. by rewrite IH. Qed.

Lemma length_tx_queue u :
  uart_inv u → Z.of_nat (length (tx_queue u)) = Console_TxBufferCount u.
Proof.
  intros (_ & Hw & Hr & _). unfold tx_queue. rewrite length_ring.
  rewrite Console_TxBufferCount_eq.
  destruct (ring_count_spec _ _ Hw Hr) as [_ Hb]. lia.
Qed.

Lemma fmap_u8_text (t : list Z) :
  Forall (λ c, 0 < c < 256) t → u8 <$> t = t.
Proof.
  induction 1 as [|c t Hc _ IH]; [done|]. cbn [fmap list_fmap] in *.
  rewrite IH, (u8_small c) by (change (2 ^ 8) with 256; lia). done.
Qed.

(** One call of [Debug_write] whose characters fit. *)
Lemma writes_spec pBuffer len u :
  uart_inv u → 0 ≤ len → (Z.to_nat len ≤ length pBuffer)%nat →
  Console_TxBufferCount u + len < 1024 →
  ∃ u', writes pBuffer len u = Some u' ∧ uart_inv u' ∧
        tx_stream u' = tx_stream u ++ (u8 <$> take (Z.to_nat len) pBuffer) ∧
        Console_TxBufferCount u' ≤ Console_TxBufferCount u + len.
Proof.
  intros Hinv Hlen Hbuf Hfit.
  pose proof (length_tx_queue u Hinv) as Hq.
  destruct (Console_write_spec pBuffer len u Hinv
              ltac:(change (2 ^ 32) with 4294967296; lia) Hbuf)
    as (u' & Hwr & Hinv' & _ & _ & Hfifo).
  destruct (Hfifo Hfit) as [Hse Hqu].
  exists u'. unfold writes. rewrite Debug_write_eq, Hwr, mbind_Some.
  split; [done|]. split; [done|]. split.
  - unfold tx_stream. rewrite Hse, Hqu, <- !app_assoc. f_equal. apply take_drop.
  - rewrite <- (length_tx_queue u' Hinv'), Hqu, length_drop, length_app.
    rewrite length_fmap, length_take. lia.
Qed.

(** Any call of [Debug_write] returns. *)
Lemma writes_total pBuffer len u :
  uart_inv u → 0 ≤ len < 2 ^ 32 → (Z.to_nat len ≤ length pBuffer)%nat →
  ∃ u', writes pBuffer len u = Some u' ∧ uart_inv u'.
Proof.
  intros Hinv Hlen Hbuf.
  destruct (Console_write_spec pBuffer len u Hinv Hlen Hbuf)
    as (u' & Hwr & Hinv' & _).
  exists u'. unfold writes. by rewrite Debug_write_eq, Hwr, mbind_Some.
Qed.

Lemma span_text stop (t : list Z) c rest :
  Forall (λ x, stop x = false) t → stop c = true →
  Z.of_nat (length t) < 2 ^ 32 →
  span stop (t ++ c :: rest) = Some (Z.of_nat (length t)).
Proof.
  intros Ht Hc. induction Ht as [|x t Hx _ IH]; intros Hlen.
  - cbn. by rewrite Hc.
  - cbn [app span length] in *. rewrite Hx, IH by lia. rewrite mbind_Some.
    f_equal. rewrite u32_small by lia. lia.
Qed.

Lemma text_char_stop (t : list Z) :
  Forall text_char t → Forall (λ x, (x =? 37) || (x =? 0) = false) t.
Proof.
  intros H. eapply Forall_impl; [exact H|]. intros c [Hc H37].
  destruct (Z.eqb_spec c 37), (Z.eqb_spec c 0); (done || lia).
Qed.

Lemma text_char_bytes (t : list Z) :
  Forall text_char t → Forall (λ c, 0 < c < 256) t.
Proof. intros H. eapply Forall_impl; [exact H|]. by intros c [Hc _]. Qed.

Arguments writes : simpl never.
Arguments to_int : simpl never.

(** One turn of the outer loop on a text that ends at a [%]. *)
Lemma Debug_vprintf_loop_percent fuel (t rest : list Z) vaArgP u :
  Forall text_char t → Z.of_nat (length t) < 2 ^ 32 →
  Debug_vprintf_loop (S fuel) (t ++ 37 :: rest) vaArgP u
  = u' ← writes (t ++ 37 :: rest) (Z.of_nat (length t)) u;
    r ← directive (S (length rest)) rest 0 32 vaArgP u';
    Debug_vprintf_loop fuel r.1.1 r.1.2 r.2.
Proof.
  intros Ht Hlen. cbn [Debug_vprintf_loop].
  assert (∃ x, head (t ++ 37 :: rest) = Some x ∧ x ≠ 0) as (x & -> & Hx).
  { destruct t as [|x t]; [by exists 37|]. exists x. split; [done|].
    apply Forall_cons in Ht as [[? _] _]. lia. }
  rewrite mbind_Some. destruct (Z.eqb_spec x 0); [done|].
  rewrite (span_text _ t 37 rest); [|by apply text_char_stop|done|done].
  rewrite mbind_Some.
  destruct (writes _ _ u) as [u'|]; [|done]. rewrite !mbind_Some. cbv zeta.
  rewrite Nat2Z.id, drop_app_length. cbn [head tail length].
  by rewrite mbind_Some.
Qed.

(** The last turns of the outer loop: a text that ends at the
    terminator. *)
Lemma Debug_vprintf_loop_nul fuel (t rest : list Z) vaArgP u :
  Forall text_char t → Z.of_nat (length t) < 2 ^ 32 →
  Debug_vprintf_loop (S (S fuel)) (t ++ 0 :: rest) vaArgP u
  = if decide (t = []) then Some u
    else writes (t ++ 0 :: rest) (Z.of_nat (length t)) u.
Proof.
  intros Ht Hlen. case_decide as Hnil; [by subst t|].
  cbn [Debug_vprintf_loop].
  destruct t as [|x t]; [done|]. cbn [app head].
  apply Forall_cons in Ht as Hx. destruct Hx as [[Hx _] _].
  rewrite mbind_Some. destruct (Z.eqb_spec x 0); [lia|].
  change (x :: t ++ 0 :: rest) with ((x :: t) ++ 0 :: rest).
  rewrite (span_text _ (x :: t) 0 rest); [|by apply text_char_stop|done|done].
  rewrite mbind_Some.
  destruct (writes _ _ u) as [u'|]; [|done]. rewrite !mbind_Some. cbv zeta.
  rewrite Nat2Z.id, drop_app_length. cbn [head]. by rewrite mbind_Some.
Qed.

(** A text followed by the terminator is written as it is. *)
Lemma Debug_vprintf_loop_text fuel (t rest : list Z) vaArgP u :
  Forall text_char t → uart_inv u →
  Console_TxBufferCount u + Z.of_nat (length t) < 1024 →
  ∃ u', Debug_vprintf_loop (S (S fuel)) (t ++ 0 :: rest) vaArgP u = Some u' ∧
        uart_inv u' ∧ tx_stream u' = tx_stream u ++ t.
Proof.
  intros Ht Hinv Hfit.
  pose proof (length_tx_queue u Hinv) as Hq.
  rewrite Debug_vprintf_loop_nul by (done || (change (2 ^ 32) with 4294967296; lia)).
  case_decide as Hnil.
  - exists u. subst t. by rewrite app_nil_r.
  - destruct (writes_spec (t ++ 0 :: rest) (Z.of_nat (length t)) u Hinv
                ltac:(lia) ltac:(rewrite length_app; lia) Hfit)
      as (u' & Hwr & Hinv' & Hst & _).
    rewrite Nat2Z.id, take_app_length, (fmap_u8_text t) in Hst
      by (by apply text_char_bytes).
    by exists u'.
Qed.

(** X23.  A format without [%] is written as it is, whatever the
    arguments. *)
Theorem Debug_vprintf_text (t : list Z) vaArgP u :
  uart_inv u → Forall text_char t →
  Console_TxBufferCount u + Z.of_nat (length t) < 1024 →
  ∃ u', Debug_vprintf (t ++ [0]) vaArgP u = Some u' ∧
        tx_stream u' = tx_stream u ++ t.
Proof.
  intros Hinv Ht Hfit. unfold Debug_vprintf.
  rewrite length_app. cbn [length].
  replace (length t + 1)%nat with (S (length t)) by lia.
  destruct (Debug_vprintf_loop_text (length t) t [] vaArgP u Ht Hinv Hfit)
    as (u' & Hrun & _ & Hst).
  by exists u'.
Qed.

(** The characters of a numeral are characters of a text. *)
Lemma numeral_bytes b v :
  2 ≤ b ≤ 16 → 0 ≤ v → Forall (λ c, 0 < c < 256) (numeral b v).
Proof.
  intros Hb Hv. unfold numeral. apply Forall_fmap.
  eapply Forall_impl; [apply (digits_bounds b 32); lia|].
  intros d Hd. cbn beta in Hd |- *.
  assert (d = 0 ∨ d = 1 ∨ d = 2 ∨ d = 3 ∨ d = 4 ∨ d = 5 ∨ d = 6 ∨ d = 7 ∨
          d = 8 ∨ d = 9 ∨ d = 10 ∨ d = 11 ∨ d = 12 ∨ d = 13 ∨ d = 14 ∨ d = 15)
    as Hcases by lia.
  repeat (destruct Hcases as [->|Hcases]; [by vm_compute|]). subst d.
  by vm_compute.
Qed.

(** With no width [convert] gives the sign and the digits. *)
Lemma convert_no_width b v neg :
  b = 10 ∨ b = 16 → 0 ≤ v < 2 ^ 32 →
  convert v b 0 neg 32 = Some ((if neg then [45] else []) ++ numeral b v).
Proof.
  intros Hb Hv.
  assert (10 ≤ b ≤ 16) as Hb' by lia.
  pose proof (length_digits_bounds b v Hb' Hv) as Hd.
  rewrite convert_eq by (done || lia).
  assert (convert_chars b v 0 neg 32 = (if neg then [45] else []) ++ numeral b v)
    as ->.
  { unfold convert_chars. rewrite convert_padding_eq by (done || lia). cbv zeta.
    rewrite decide_False by (destruct neg; lia).
    by destruct neg. }
  rewrite decide_True; [done|].
  rewrite length_app, length_numeral. destruct neg; cbn [length]; lia.
Qed.

Lemma print_number_convert c v :
  c ∈ [100; 105; 117; 120; 88; 112] → 0 ≤ v < 2 ^ 32 →
  ∃ b value neg,
    (∀ f rest vaArgP u,
       directive (S f) (c :: rest) 0 32 (VaInt v :: vaArgP) u
       = pcBuf ← convert value b 0 neg 32;
         u ← writes pcBuf (Z.of_nat (length pcBuf)) u;
         Some (rest, vaArgP, u)) ∧
    convert value b 0 neg 32 = Some (print_number c v) ∧
    Forall (λ x, 0 < x < 256) (print_number c v) ∧
    (length (print_number c v) ≤ 11)%nat.
Proof.
  intros Hc Hv.
  assert (0 ≤ u32 (- to_int v) < 2 ^ 32) as Hneg.
  { unfold u32. apply Z.mod_pos_bound. done. }
  assert (∀ b x (neg : bool), b = 10 ∨ b = 16 → 0 ≤ x < 2 ^ 32 →
            Forall (λ y, 0 < y < 256) ((if neg then [45] else []) ++ numeral b x) ∧
            (length ((if neg then [45%Z] else []) ++ numeral b x) ≤ 11)%nat)
    as Hshape.
  { intros b x neg Hb Hx. split.
    - apply Forall_app. split; [destruct neg; repeat constructor; lia|].
      apply numeral_bytes; lia.
    - pose proof (length_digits_bounds b x ltac:(lia) Hx).
      rewrite length_app, length_numeral. destruct neg; cbn [length]; lia. }
  repeat (apply elem_of_cons in Hc as [->|Hc]); [..|by apply elem_of_nil in Hc].
  - exists 10, (if to_int v <? 0 then u32 (- to_int v) else v), (to_int v <? 0).
    split; [done|]. unfold print_number. cbn [Z.eqb orb Pos.eqb].
    destruct (to_int v <? 0).
    + rewrite convert_no_width by (lia || done).
      split; [done|]. apply (Hshape 10 _ true); (lia || done).
    + rewrite convert_no_width by (lia || done).
      split; [done|]. apply (Hshape 10 _ false); (lia || done).
  - exists 10, (if to_int v <? 0 then u32 (- to_int v) else v), (to_int v <? 0).
    split; [done|]. unfold print_number. cbn [Z.eqb orb Pos.eqb].
    destruct (to_int v <? 0).
    + rewrite convert_no_width by (lia || done).
      split; [done|]. apply (Hshape 10 _ true); (lia || done).
    + rewrite convert_no_width by (lia || done).
      split; [done|]. apply (Hshape 10 _ false); (lia || done).
  - exists 10, v, false. split; [done|]. unfold print_number.
    cbn [Z.eqb orb Pos.eqb]. rewrite convert_no_width by (lia || done).
    split; [done|]. apply (Hshape 10 _ false); (lia || done).
  - exists 16, v, false. split; [done|]. unfold print_number.
    cbn [Z.eqb orb Pos.eqb]. rewrite convert_no_width by (lia || done).
    split; [done|]. apply (Hshape 16 _ false); (lia || done).
  - exists 16, v, false. split; [done|]. unfold print_number.
    cbn [Z.eqb orb Pos.eqb]. rewrite convert_no_width by (lia || done).
    split; [done|]. apply (Hshape 16 _ false); (lia || done).
  - exists 16, v, false. split; [done|]. unfold print_number.
    cbn [Z.eqb orb Pos.eqb]. rewrite convert_no_width by (lia || done).
    split; [done|]. apply (Hshape 16 _ false); (lia || done).
Qed.

(** X24.  A format with one directive [%d], [%i], [%u], [%x], [%X] or
    [%p] without width between two texts, as the log messages of the
    decoder are: the first text, the numeral of the argument (decimal
    with a minus sign for [%d] and [%i] of a value that is negative as
    an [int], decimal for [%u], hexadecimal in lower case for the
    others) and the second text are written, in this order. *)
Theorem Debug_vprintf_number (t1 t2 : list Z) c v vaArgP u :
  uart_inv u → Forall text_char t1 → Forall text_char t2 →
  c ∈ [100; 105; 117; 120; 88; 112] → 0 ≤ v < 2 ^ 32 →
  Console_TxBufferCount u
  + Z.of_nat (length t1 + length (print_number c v) + length t2) < 1024 →
  ∃ u', Debug_vprintf (t1 ++ 37 :: c :: t2 ++ [0]) (VaInt v :: vaArgP) u = Some u' ∧
        tx_stream u' = tx_stream u ++ t1 ++ print_number c v ++ t2.
Proof.
  intros Hinv Ht1 Ht2 Hc Hv Hfit.
  pose proof (length_tx_queue u Hinv) as Hq.
  destruct (print_number_convert c v Hc Hv)
    as (b & value & neg & Hdir & Hconv & Hbytes & Hlen).
  unfold Debug_vprintf. rewrite length_app. cbn [length]. rewrite length_app.
  cbn [length].
  replace (length t1 + S (S (length t2 + 1)))%nat
    with (S (S (S (length t1 + length t2)))) by lia.
  rewrite Debug_vprintf_loop_percent
    by (done || (change (2 ^ 32) with 4294967296; lia)).
  destruct (writes_spec (t1 ++ 37 :: c :: t2 ++ [0]) (Z.of_nat (length t1)) u
              Hinv ltac:(lia) ltac:(rewrite length_app; lia) ltac:(lia))
    as (u1 & -> & Hinv1 & Hst1 & Hcnt1).
  rewrite Nat2Z.id, take_app_length, (fmap_u8_text t1) in Hst1
    by (by apply text_char_bytes).
  rewrite mbind_Some, Hdir, Hconv, mbind_Some.
  destruct (writes_spec (print_number c v)
              (Z.of_nat (length (print_number c v))) u1
              Hinv1 ltac:(lia) ltac:(lia) ltac:(lia))
    as (u2 & -> & Hinv2 & Hst2 & Hcnt2).
  rewrite Nat2Z.id, firstn_all, (fmap_u8_text (print_number c v)) in Hst2 by done.
  rewrite !mbind_Some. cbn [fst snd].
  destruct (Debug_vprintf_loop_text (S (length t1 + length t2)) t2 [] vaArgP u2
              Ht2 Hinv2 ltac:(lia))
    as (u3 & -> & _ & Hst3).
  exists u3. split; [done|].
  by rewrite Hst3, Hst2, Hst1, <- !app_assoc.
Qed.

(** X25.  A format that ends in a [%] makes [Debug_vprintf] read past
    the terminator: the [switch] takes the terminator for the directive,
    writes ERROR and steps over it, and the test of the loop then reads
    the character after the end of the format. *)
Theorem Debug_vprintf_lone_percent (t : list Z) vaArgP u :
  uart_inv u → Forall text_char t → Z.of_nat (length t) < 2 ^ 32 →
  Debug_vprintf (t ++ [37; 0]) vaArgP u = None.
Proof.
  intros Hinv Ht Hlen. unfold Debug_vprintf.
  rewrite length_app. cbn [length].
  replace (length t + 2)%nat with (S (S (length t))) by lia.
  rewrite Debug_vprintf_loop_percent by done.
  destruct (writes_total (t ++ [37; 0]) (Z.of_nat (length t)) u Hinv
              ltac:(lia) ltac:(rewrite length_app; lia))
    as (u1 & -> & Hinv1).
  rewrite mbind_Some. cbn [directive length].
  change ((48 <=? 0) && (0 <=? 57)) with false. cbv iota.
  change (0 =? 99) with false. change ((0 =? 100) || (0 =? 105)) with false.
  change (0 =? 115) with false. change (0 =? 117) with false.
  change ((0 =? 120) || (0 =? 88) || (0 =? 112)) with false.
  change (0 =? 37) with false. cbv iota.
  destruct (writes_total [69; 82; 82; 79; 82; 0] 5 u1 Hinv1
              ltac:(done) ltac:(cbn; lia))
    as (u2 & -> & _).
  rewrite !mbind_Some. done.
Qed.

(** ** Instances *)

(** Bit 10 of a cleared array. *)
Lemma setBit_getBit_witness :
  length (replicate 8 0) = 8%nat ∧ 0 ≤ 10 ∧ 0 ≤ 10 < 64 ∧
  setBit (replicate 8 0) 10 true = Some [0; 4; 0; 0; 0; 0; 0; 0] ∧
  length [0; 4; 0; 0; 0; 0; 0; 0] = 8%nat ∧
  getBit [0; 4; 0; 0; 0; 0; 0; 0] 10
  = if decide (10 = 10) then Some true else getBit (replicate 8 0) 10.
Proof.
  split; [reflexivity|]. split; [lia|]. split; [lia|].
  split; [reflexivity|].
  apply (setBit_getBit (replicate 8 0) [0; 4; 0; 0; 0; 0; 0; 0] 10 10 true);
    [reflexivity | lia | lia | reflexivity].
Defined.




(** A second with A=0, B=1 three seconds after the first SYNC. *)
Lemma second_01_advances_twice_witness :
  at_cell_start synced_3_cells 5000 4 ∧
  ∃ st', run synced_3_cells (wrap_times (cell false true 5000)) = Some st' ∧
         at_cell_start st' (5000 + 1000) (4 + 2) ∧
         bHalfSync st' = bHalfSync synced_3_cells ∧
         same_client_side synced_3_cells st' ∧
         ∀ j, 0 ≤ j →
              bit_at (A_bits st') j
              = (if decide (j = 4 ∨ j = 4 + 1) then false
                 else bit_at (A_bits synced_3_cells) j) ∧
              bit_at (B_bits st') j
              = (if decide (j = 4 ∨ j = 4 + 1) then true
                 else bit_at (B_bits synced_3_cells) j).
Proof.
  assert (at_cell_start synced_3_cells 5000 4) as Hst.
  { unfold at_cell_start. repeat split; vm_compute; reflexivity. }
  split; [exact Hst|].
  apply (second_01_advances_twice synced_3_cells 5000 4); [exact Hst | lia].
Defined.

(** The first minute marker after program start. *)
Lemma marker_acquires_sync_witness :
  reachable (power_on ∅) ∧ MSF_GetSyncState (power_on ∅) = false ∧
  ∃ st', run (power_on ∅) (wrap_times (sync_preamble 1000)) = Some st' ∧
         MSF_GetSyncState st' = true ∧ nBitNum st' = 1 ∧
         T_CellStart st' = u32 (1000 + 1000) ∧
         A_bits st' = A_bits (power_on ∅) ∧ B_bits st' = B_bits (power_on ∅) ∧
         LocalDateTime st' = LocalDateTime (power_on ∅) ∧
         client_mem st' = client_mem (power_on ∅) ∧
         ∃ evs, delivered st'
                = notified MSF_EVENT_SYNC (power_on ∅) ++ evs ++ delivered (power_on ∅).
Proof.
  assert (reachable (power_on ∅)) as Hr by (exists ∅, []; reflexivity).
  split; [exact Hr|]. split; [reflexivity|].
  apply (marker_acquires_sync (power_on ∅) 1000); [exact Hr | reflexivity].
Defined.

(** The minute of scenario A from program start, with no client. *)
Lemma minute_is_decoded_or_dropped_witness :
  reachable (power_on ∅) ∧ MSF_GetSyncState (power_on ∅) = false ∧
  length scenario_A_bits = 59%nat ∧
  Forall (λ p, p ≠ (false, true)) scenario_A_bits ∧
  ∃ st', run (power_on ∅) (wrap_times (minute scenario_A_bits 1000)) = Some st' ∧
    (∀ j, 1 ≤ j ≤ 59 →
          getBit (A_bits st') j
          = Some (default (false, false) (scenario_A_bits !! Z.to_nat (j - 1))).1 ∧
          getBit (B_bits st') j
          = Some (default (false, false) (scenario_A_bits !! Z.to_nat (j - 1))).2) ∧
    nBitNum st' = 1 ∧
    (frame_valid (A_bits st') (B_bits st') →
     MSF_GetSyncState st' = true ∧
     LocalDateTime st' = frame_time (A_bits st') (B_bits st') ∧
     (∀ p, pClientDateTime (power_on ∅) = Some p →
           client_mem st'
           = <[ p := frame_time (A_bits st') (B_bits st') ]> (client_mem (power_on ∅))) ∧
     ∃ evs, delivered st'
            = notified MSF_EVENT_DATETIME_UPDATED (power_on ∅)
              ++ notified MSF_EVENT_SYNC (power_on ∅) ++ evs ++ delivered (power_on ∅)) ∧
    (¬ frame_valid (A_bits st') (B_bits st') →
     MSF_GetSyncState st' = false ∧
     LocalDateTime st' = LocalDateTime (power_on ∅) ∧
     client_mem st' = client_mem (power_on ∅) ∧
     ∃ evs, delivered st'
            = notified MSF_EVENT_SYNC_LOST (power_on ∅)
              ++ notified MSF_EVENT_SYNC (power_on ∅) ++ evs ++ delivered (power_on ∅)).
Proof.
  assert (reachable (power_on ∅)) as Hr by (exists ∅, []; reflexivity).
  assert (Forall (λ p, p ≠ (false, true)) scenario_A_bits) as Hno.
  { apply (bool_decide_unpack _). vm_compute. exact I. }
  split; [exact Hr|]. split; [reflexivity|]. split; [reflexivity|].
  split; [exact Hno|].
  apply (minute_is_decoded_or_dropped (power_on ∅) 1000 scenario_A_bits);
    [exact Hr | reflexivity | reflexivity | exact Hno].
Defined.

(** The date and time of scenario A, sent to a decoder with a buffer and
    a callback registered: the buffer receives the date and the callback
    is called for SYNC and then for DATETIME_UPDATED. *)
Lemma transmit_receive_witness :
  reachable listening ∧ MSF_GetSyncState listening = false ∧
  in_range scenario_A_time ∧
  carries scenario_A_minute scenario_A_time ∧
  Forall (λ p, p ≠ (false, true)) scenario_A_minute ∧
  ∃ st', run listening (wrap_times (minute scenario_A_minute 1000)) = Some st' ∧
         MSF_GetSyncState st' = true ∧
         LocalDateTime st' = scenario_A_time ∧
         client_mem st' !! 1%positive = Some scenario_A_time ∧
         ∃ evs, delivered st'
                = (2%positive, MSF_EVENT_DATETIME_UPDATED)
                  :: (2%positive, MSF_EVENT_SYNC) :: evs.
Proof.
  assert (reachable listening) as Hr.
  { exists ∅, [Init (Some 1%positive); EnableNotifications (Some 2%positive) 7].
    reflexivity. }
  assert (in_range scenario_A_time) as Hin.
  { unfold in_range. simpl. lia. }
  assert (carries scenario_A_minute scenario_A_time) as Hc.
  { split; [reflexivity|]. split; intros j Hj.
    - assert (Forall (λ j, (default (false, false)
                              (scenario_A_minute !! Z.to_nat (j - 1))).1
                           = encode_A scenario_A_time j) (seqZ 17 43)) as Hall.
      { apply (bool_decide_unpack _). vm_compute. exact I. }
      apply (proj1 (Forall_forall _ _) Hall). apply elem_of_seqZ. lia.
    - assert (Forall (λ j, (default (false, false)
                              (scenario_A_minute !! Z.to_nat (j - 1))).2
                           = encode_B scenario_A_time j) (seqZ 54 5)) as Hall.
      { apply (bool_decide_unpack _). vm_compute. exact I. }
      apply (proj1 (Forall_forall _ _) Hall). apply elem_of_seqZ. lia. }
  assert (Forall (λ p, p ≠ (false, true)) scenario_A_minute) as Hno.
  { apply (bool_decide_unpack _). vm_compute. exact I. }
  split; [exact Hr|]. split; [reflexivity|]. split; [exact Hin|].
  split; [exact Hc|]. split; [exact Hno|].
  destruct (transmit_receive listening 1000 scenario_A_time scenario_A_minute
              Hr eq_refl Hin eq_refl eq_refl Hc Hno)
    as (st' & Hrun & Hs & Hdt & Hmem & evs & Hev).
  exists st'. split; [exact Hrun|]. split; [exact Hs|]. split; [exact Hdt|].
  split; [apply Hmem; reflexivity|].
  exists evs. rewrite Hev. simpl. by rewrite app_nil_r.
Defined.

(** The edge that ends the minute of scenario A. *)
Lemma edge_notifications_shape_witness :
  length (A_bits scenario_A_before_decode) = 8%nat ∧
  length (B_bits scenario_A_before_decode) = 8%nat ∧
  HandleCarrierEvent scenario_A_before_decode CARRIER_OFF 62000
  = Some scenario_A_decoded ∧
  ∃ evs, evs ∈ edge_notifications ∧
         delivered scenario_A_decoded
         = notified_all evs scenario_A_before_decode
           ++ delivered scenario_A_before_decode ∧
         (MSF_EVENT_SYNC ∈ evs ↔
          CARRIER_OFF = CARRIER_OFF ∧ acquisition scenario_A_before_decode 62000) ∧
         (MSF_EVENT_DATETIME_UPDATED ∈ evs ↔
          completes_frame scenario_A_before_decode CARRIER_OFF 62000) ∧
         (MSF_EVENT_SYNC_LOST ∈ evs →
          bSyncedFlag scenario_A_decoded = false ∧
          bHalfSync scenario_A_decoded = false ∧
          nBitNum scenario_A_decoded = 1).
Proof.
  split; [reflexivity|]. split; [reflexivity|].
  split; [vm_compute; reflexivity|].
  apply (edge_notifications_shape scenario_A_before_decode CARRIER_OFF 62000
           scenario_A_decoded);
    [reflexivity | reflexivity | vm_compute; reflexivity].
Defined.

(** The first minute marker with no callback registered. *)
Lemma disabled_listener_never_called_witness :
  cursor_inv (power_on ∅) ∧
  Forall keeps_listener (sync_preamble 1000) ∧
  (pfClientEventCallback (power_on ∅) = None ∨ ui32ClientEventMask (power_on ∅) = 0) ∧
  run (power_on ∅) (sync_preamble 1000) = Some just_synced ∧
  delivered just_synced = delivered (power_on ∅).
Proof.
  assert (cursor_inv (power_on ∅)) as Hinv.
  { unfold cursor_inv. simpl. repeat split; (reflexivity || lia). }
  assert (Forall keeps_listener (sync_preamble 1000)) as Hk.
  { repeat constructor. }
  split; [exact Hinv|]. split; [exact Hk|]. split; [left; reflexivity|].
  split; [vm_compute; reflexivity|].
  apply (disabled_listener_never_called (sync_preamble 1000) (power_on ∅) just_synced);
    [exact Hinv | exact Hk | left; reflexivity | vm_compute; reflexivity].
Defined.


(** An edge with level 7 at program start. *)
Lemma unsynced_edge_harmless_witness :
  cursor_inv (power_on ∅) ∧ bSyncedFlag (power_on ∅) = false ∧
  ∃ st', HandleCarrierEvent (power_on ∅) 7 0 = Some st' ∧
         A_bits st' = A_bits (power_on ∅) ∧ B_bits st' = B_bits (power_on ∅) ∧
         LocalDateTime st' = LocalDateTime (power_on ∅) ∧
         client_mem st' = client_mem (power_on ∅) ∧
         nBitNum st' = 1.
Proof.
  assert (cursor_inv (power_on ∅)) as Hinv.
  { unfold cursor_inv. simpl. repeat split; (reflexivity || lia). }
  split; [exact Hinv|]. split; [reflexivity|].
  apply (unsynced_edge_harmless (power_on ∅) 7 0); [exact Hinv | reflexivity].
Defined.

(** The edge that ends the minute of scenario A. *)
Lemma stored_date_changes_on_valid_frame_only_witness :
  length (A_bits scenario_A_before_decode) = 8%nat ∧
  length (B_bits scenario_A_before_decode) = 8%nat ∧
  HandleCarrierEvent scenario_A_before_decode CARRIER_OFF 62000
  = Some scenario_A_decoded ∧
  (completes_frame scenario_A_before_decode CARRIER_OFF 62000 →
   bSyncedFlag scenario_A_decoded = true ∧ nBitNum scenario_A_decoded = 1 ∧
   LocalDateTime scenario_A_decoded
   = frame_time (A_bits scenario_A_before_decode) (B_bits scenario_A_before_decode) ∧
   client_mem scenario_A_decoded
   = match pClientDateTime scenario_A_before_decode with
     | Some p =>
         <[ p := frame_time (A_bits scenario_A_before_decode)
                   (B_bits scenario_A_before_decode) ]>
           (client_mem scenario_A_before_decode)
     | None => client_mem scenario_A_before_decode
     end) ∧
  (¬ completes_frame scenario_A_before_decode CARRIER_OFF 62000 →
   LocalDateTime scenario_A_decoded = LocalDateTime scenario_A_before_decode ∧
   client_mem scenario_A_decoded = client_mem scenario_A_before_decode).
Proof.
  split; [reflexivity|]. split; [reflexivity|].
  split; [vm_compute; reflexivity|].
  apply (stored_date_changes_on_valid_frame_only scenario_A_before_decode
           CARRIER_OFF 62000 scenario_A_decoded);
    [reflexivity | reflexivity | vm_compute; reflexivity].
Defined.

(** The state scenario A ends in. *)
Lemma stored_date_invariant_witness :
  reachable scenario_A_decoded ∧
  (LocalDateTime scenario_A_decoded = sMSFDateTime_zero ∨
   bHasValidTime (LocalDateTime scenario_A_decoded) = true ∧
   bDateTimeUpdated (LocalDateTime scenario_A_decoded) = true ∧
   ∃ A B : bitarray, length A = 8%nat ∧ length B = 8%nat ∧ frame_valid A B ∧
                     LocalDateTime scenario_A_decoded = frame_time A B).
Proof.
  assert (reachable scenario_A_decoded) as Hr.
  { exists ∅, scenario_A. vm_compute. reflexivity. }
  split; [exact Hr|].
  apply (stored_date_invariant scenario_A_decoded). exact Hr.
Defined.

(** The bounds are attained: the frame with every bit of every field
    set passes validation and decodes to year 165, month 25, day 45,
    45:85, day of week 7. *)
Lemma decoded_fields_bounds_witness :
  let st := holding all_ones_A_bits all_ones_B_bits in
  length (A_bits st) = 8%nat ∧ length (B_bits st) = 8%nat ∧
  ∃ st', DecodeFrame st = Some (true, st') ∧
         (Year (LocalDateTime st'), Month (LocalDateTime st'),
          Day (LocalDateTime st'), Hour (LocalDateTime st'),
          Minute (LocalDateTime st'), DOW (LocalDateTime st'),
          DST (LocalDateTime st')) = (165, 25, 45, 45, 85, 7, 1) ∧
         0 ≤ Year (LocalDateTime st') ≤ 165 ∧
         0 ≤ Month (LocalDateTime st') ≤ 25 ∧
         0 ≤ Day (LocalDateTime st') ≤ 45 ∧
         0 ≤ Hour (LocalDateTime st') ≤ 45 ∧
         0 ≤ Minute (LocalDateTime st') ≤ 85 ∧
         0 ≤ DOW (LocalDateTime st') ≤ 7 ∧
         0 ≤ DST (LocalDateTime st') ≤ 1.
Proof.
  intros st. split; [reflexivity|]. split; [reflexivity|].
  eexists. split; [vm_compute; reflexivity|]. split; [reflexivity|].
  apply (decoded_fields_bounds st); [reflexivity | reflexivity | vm_compute; reflexivity].
Defined.

(** Write index 5, read index 6. *)
Lemma buffer_full_never_detected_witness :
  uart_inv console_one_ahead ∧
  TxReadIndex console_one_ahead = (TxWriteIndex console_one_ahead + 1) mod 1024 ∧
  0 ≤ Console_TxBufferCount console_one_ahead < CONSOLE_TX_BUFFER_SIZE ∧
  0 ≤ Console_RxBufferCount console_one_ahead < CONSOLE_RX_BUFFER_SIZE ∧
  0 ≤ Debug_TxBufferCount console_one_ahead < DEBUG_UART_TX_BUFFER_SIZE ∧
  TX_BUFFER_FULL console_one_ahead = false ∧
  RX_BUFFER_FULL console_one_ahead = false ∧
  (TxReadIndex console_one_ahead = (TxWriteIndex console_one_ahead + 1) mod 1024 →
   Console_TxBufferCount console_one_ahead = 1023 ∧
   ∃ u', Console_putchar 0 console_one_ahead = Some (true, u') ∧
         TX_BUFFER_EMPTY u' = true).
Proof.
  assert (uart_inv console_one_ahead) as Hinv.
  { unfold uart_inv. simpl. repeat split; first [reflexivity | lia]. }
  split; [exact Hinv|]. split; [reflexivity|].
  apply (buffer_full_never_detected console_one_ahead). exact Hinv.
Defined.

(** 1024 characters written to an empty buffer while the UART is busy. *)
Lemma write_never_refuses_witness :
  uart_inv (console_reset 0) ∧
  ∃ u', Console_write (replicate 1024 65) 1024 (console_reset 0) = Some (1024, u') ∧
        Debug_write (replicate 1024 65) 1024 (console_reset 0) = Some (1024, u') ∧
        uart_inv u' ∧
        (tx_space (console_reset 0) = 0%nat →
         Console_TxBufferCount u'
         = (Console_TxBufferCount (console_reset 0) + 1024) mod 1024).
Proof.
  assert (uart_inv (console_reset 0)) as Hinv.
  { unfold uart_inv. simpl. repeat split; first [reflexivity | lia]. }
  split; [exact Hinv|].
  apply (write_never_refuses (replicate 1024 65) 1024 (console_reset 0));
    [exact Hinv | lia | rewrite length_replicate; lia].
Defined.

(** Two characters written to an empty buffer, one free place in the FIFO. *)
Lemma Console_write_keeps_order_witness :
  uart_inv (console_reset 1) ∧
  Console_TxBufferCount (console_reset 1) + 2 < 1024 ∧
  ∃ u', Console_write [72; 105] 2 (console_reset 1) = Some (2, u') ∧
        tx_sent u' ++ tx_queue u'
        = tx_sent (console_reset 1) ++ tx_queue (console_reset 1)
          ++ (u8 <$> take (Z.to_nat 2) [72; 105]) ∧
        tx_sent u'
        = tx_sent (console_reset 1)
          ++ take (tx_space (console_reset 1))
               (tx_queue (console_reset 1) ++ (u8 <$> take (Z.to_nat 2) [72; 105])).
Proof.
  assert (uart_inv (console_reset 1)) as Hinv.
  { unfold uart_inv. simpl. repeat split; first [reflexivity | lia]. }
  split; [exact Hinv|]. split; [vm_compute; reflexivity|].
  apply (Console_write_keeps_order [72; 105] 2 (console_reset 1));
    [exact Hinv | lia | simpl; lia | vm_compute; reflexivity].
Defined.

(** A two-character string. *)
Lemma Console_puts_sends_line_feed_only_witness :
  uart_inv (console_reset 0) ∧
  ∃ u', Console_puts ([72; 105] ++ 0 :: []) (console_reset 0) = Some u' ∧
        tx_sent u' ++ tx_queue u'
        = tx_sent (console_reset 0) ++ tx_queue (console_reset 0) ++ [72; 105] ++ [10] ∧
        tx_sent u'
        = tx_sent (console_reset 0)
          ++ take (tx_space (console_reset 0))
               (tx_queue (console_reset 0) ++ [72; 105] ++ [10]).
Proof.
  assert (uart_inv (console_reset 0)) as Hinv.
  { unfold uart_inv. simpl. repeat split; first [reflexivity | lia]. }
  split; [exact Hinv|].
  apply (Console_puts_sends_line_feed_only [72; 105] [] (console_reset 0));
    [exact Hinv | repeat constructor; lia | vm_compute; reflexivity].
Defined.

(** Two characters waiting in the receive FIFO. *)
Lemma received_characters_are_queued_witness :
  uart_inv console_receiving ∧
  ∃ u', ConsoleUARTIntHandler false true console_receiving = Some u' ∧
        uart_inv u' ∧
        rx_queue u' = rx_queue console_receiving ++ (u8 <$> rx_waiting console_receiving) ∧
        rx_waiting u' = [] ∧
        tx_queue u' = tx_queue console_receiving ∧
        tx_sent u' = tx_sent console_receiving.
Proof.
  assert (uart_inv console_receiving) as Hinv.
  { unfold uart_inv. simpl. repeat split; first [reflexivity | lia]. }
  split; [exact Hinv|].
  apply (received_characters_are_queued console_receiving);
    [exact Hinv | vm_compute; reflexivity].
Defined.

(** Two characters received: the first is read and the second stays
    queued.  On the empty ring of the console after reset the call does
    not return. *)
Lemma Console_getchar_reads_oldest_witness :
  uart_inv console_received ∧
  rx_queue console_received = [72; 105] ∧
  (∃ u', Console_getchar console_received = Some (72, u') ∧ uart_inv u' ∧
         rx_queue u' = [105] ∧ Console_RxBufferCount u' = 1) ∧
  uart_inv (console_reset 0) ∧
  rx_queue (console_reset 0) = [] ∧
  Console_getchar (console_reset 0) = None.
Proof.
  assert (uart_inv console_received) as Hinv.
  { unfold uart_inv. vm_compute.
    repeat split; first [reflexivity | intros H; discriminate H]. }
  assert (rx_queue console_received = [72; 105]) as Hq
    by (vm_compute; reflexivity).
  assert (uart_inv (console_reset 0)) as Hinv0.
  { unfold uart_inv. simpl. repeat split; first [reflexivity | lia]. }
  assert (rx_queue (console_reset 0) = []) as Hq0 by reflexivity.
  pose proof (Console_getchar_reads_oldest console_received Hinv) as Hget.
  rewrite Hq in Hget. destruct Hget as (u' & Hg & Hi & Hq' & Hc).
  pose proof (Console_getchar_reads_oldest (console_reset 0) Hinv0) as Hget0.
  rewrite Hq0 in Hget0.
  split; [exact Hinv|]. split; [exact Hq|]. split.
  { exists u'. split; [exact Hg|]. split; [exact Hi|]. split; [exact Hq'|].
    rewrite Hc. vm_compute. reflexivity. }
  split; [exact Hinv0|]. split; [exact Hq0|]. exact Hget0.
Defined.

(** 1023 characters queued and the UART busy. *)
Lemma transmit_interrupt_feeds_the_uart_witness :
  uart_inv console_one_ahead ∧
  ∃ u', ConsoleUARTIntHandler true false console_one_ahead = Some u' ∧ uart_inv u' ∧
        tx_sent u'
        = tx_sent console_one_ahead
          ++ take (tx_space console_one_ahead) (tx_queue console_one_ahead) ∧
        tx_queue u' = drop (tx_space console_one_ahead) (tx_queue console_one_ahead) ∧
        tx_int_enabled u' = negb (TX_BUFFER_EMPTY console_one_ahead) ∧
        rx_queue u' = rx_queue console_one_ahead.
Proof.
  assert (uart_inv console_one_ahead) as Hinv.
  { unfold uart_inv. simpl. repeat split; first [reflexivity | lia]. }
  split; [exact Hinv|].
  apply (transmit_interrupt_feeds_the_uart console_one_ahead). exact Hinv.
Defined.

(** Width 24 and a value of ten digits: [pcBuf] is overrun. *)
Lemma convert_spec_witness :
  (10 = 10 ∨ 10 = 16) ∧ 0 ≤ 1234567890 < 2 ^ 32 ∧ 0 ≤ 24 < 2 ^ 32 ∧
  convert 1234567890 10 24 false 32 = None ∧
  let d := Z.of_nat (length (digits 32 10 1234567890)) in
  let s := if false then 1 else 0 : Z in
  digits_value 10 (digits 32 10 1234567890) = 1234567890 ∧
  Forall (λ x, 0 ≤ x < 10) (digits 32 10 1234567890) ∧
  Z.of_nat (length (convert_chars 10 1234567890 24 false 32))
  = (if decide (d + s < 24 ≤ 14 + d + s) then 24 else d + s) ∧
  (convert 1234567890 10 24 false 32 = None ↔ 17 ≤ 24 ≤ 14 + d + s) ∧
  (¬ (17 ≤ 24 ≤ 14 + d + s) →
   convert 1234567890 10 24 false 32
   = Some (convert_chars 10 1234567890 24 false 32)).
Proof.
  split; [left; reflexivity|]. split; [lia|]. split; [lia|].
  split; [vm_compute; reflexivity|].
  apply (convert_spec 10 1234567890 24 false 32); [left; reflexivity | lia | lia].
Defined.

(** The log message of a SYNC. *)
Lemma Debug_vprintf_text_witness :
  uart_inv (console_reset 0) ∧
  Forall text_char [83; 89; 78; 67; 10] ∧
  ∃ u', Debug_vprintf ([83; 89; 78; 67; 10] ++ [0]) [] (console_reset 0) = Some u' ∧
        tx_stream u' = tx_stream (console_reset 0) ++ [83; 89; 78; 67; 10].
Proof.
  assert (uart_inv (console_reset 0)) as Hinv.
  { unfold uart_inv. simpl. repeat split; first [reflexivity | lia]. }
  assert (Forall text_char [83; 89; 78; 67; 10]) as Ht.
  { repeat constructor; lia. }
  split; [exact Hinv|]. split; [exact Ht|].
  apply (Debug_vprintf_text [83; 89; 78; 67; 10] [] (console_reset 0));
    [exact Hinv | exact Ht | vm_compute; reflexivity].
Defined.

(** The format of the carrier log with the interval 1234. *)
Lemma Debug_vprintf_number_witness :
  uart_inv (console_reset 0) ∧
  print_number 117 1234 = [49; 50; 51; 52] ∧
  ∃ u', Debug_vprintf ([79; 70; 70; 32] ++ 37 :: 117 :: [10] ++ [0])
          (VaInt 1234 :: []) (console_reset 0) = Some u' ∧
        tx_stream u'
        = tx_stream (console_reset 0) ++ [79; 70; 70; 32] ++ print_number 117 1234 ++ [10].
Proof.
  assert (uart_inv (console_reset 0)) as Hinv.
  { unfold uart_inv. simpl. repeat split; first [reflexivity | lia]. }
  split; [exact Hinv|]. split; [vm_compute; reflexivity|].
  apply (Debug_vprintf_number [79; 70; 70; 32] [10] 117 1234 [] (console_reset 0));
    [ exact Hinv | repeat constructor; lia | repeat constructor; lia
    | repeat first [ apply list_elem_of_here | apply list_elem_of_further ]
    | lia | vm_compute; reflexivity ].
Defined.

(** The format [100%]. *)
Lemma Debug_vprintf_lone_percent_witness :
  uart_inv (console_reset 0) ∧
  Debug_vprintf ([49; 48; 48] ++ [37; 0]) [] (console_reset 0) = None.
Proof.
  assert (uart_inv (console_reset 0)) as Hinv.
  { unfold uart_inv. simpl. repeat split; first [reflexivity | lia]. }
  split; [exact Hinv|].
  apply (Debug_vprintf_lone_percent [49; 48; 48] [] (console_reset 0));
    [ exact Hinv | repeat constructor; lia | simpl; lia ].
Defined.
